(** * n-pendulum front end: playback clock and renderers of static/script.js

    A shallow embedding of the browser script that plays back a
    precomputed pendulum trajectory: the [state] object, the canvas
    drawing routines ([getScreenPos], [drawGrid], [drawFrame],
    [drawGraph]), the animation tick ([animate]) and the click handlers
    of the run, play/pause and reset buttons.

    Modelling conventions.
    - A JavaScript number is a [number]: a rational, the negative zero,
      or one of [PosInf], [NegInf], [NaN].  Division by a zero of either
      sign, [%], [Math.floor], [Math.max] and the comparisons follow
      ECMAScript on these values, and a result that is zero has the
      sign IEEE 754 gives it.
    - The operations of [Num] return the exact result.  The engine
      returns the binary64 number nearest to it: [Binary64.round] is
      that rounding, and [Binary64.animate] is the tick with the clock
      of lines 213-215 computed as the engine computes it.  The general
      statements on the frame a tick stores (C2, X1) are about
      [Binary64.animate].  The other handlers and the renderers are
      evaluated in exact arithmetic: their statements say what is
      assigned and what is drawn, in which order, and the coordinates
      they name are the exact values of the expressions of the script;
      the concrete runs of these use values on which every operation is
      exact in binary64.
    - [Date.now()], the answer to [confirm], the id returned by
      [requestAnimationFrame] and the settled [/simulate] exchange are
      arguments of the handlers.
    - The handlers run in the monad [M]: they thread the [world] (the
      [state] object and the DOM properties the script reads and
      writes), log what they do to the outside (canvas calls, [alert],
      [confirm], [fetch], [requestAnimationFrame]) and may throw; a
      throw keeps what was done before it.
    - Every [for] loop of the script is the one combinator [for_loop],
      which takes fuel; running out of fuel is the outcome [Timeout]. *)

From Stdlib Require SpecFloat.
From Stdlib Require Import ZArith QArith Qround Qreduction Qcanon Qpower Qabs.
From Stdlib Require Import List String Bool Lia Lqa.
Import ListNotations.
Local Open Scope Z_scope.

(** ** JavaScript numbers *)

Module Num.

(** A finite number, the negative zero, an infinity or [NaN].  [Fin q]
    with [q] zero is the positive zero. *)
Inductive number : Type :=
| Fin (q : Q)
| NegZero
| PosInf
| NegInf
| NaN.

(** Finite results are kept in lowest terms, so that equal numbers are
    equal terms. *)
Definition fin (q : Q) : number := Fin (Qred q).

Definition of_Z (z : Z) : number := Fin (inject_Z z).

Definition of_nat (n : nat) : number := of_Z (Z.of_nat n).

Definition is_zero (q : Q) : bool := Qnum q =? 0.

Definition is_neg (q : Q) : bool := Qnum q <? 0.

(** The zero and the infinity of a given sign. *)
Definition zero (negative : bool) : number :=
  if negative then NegZero else Fin 0.

Definition infinity (negative : bool) : number :=
  if negative then NegInf else PosInf.

(** Unary minus. *)
Definition neg (a : number) : number :=
  match a with
  | Fin q => if is_zero q then NegZero else fin (- q)
  | NegZero => Fin 0
  | PosInf => NegInf
  | NegInf => PosInf
  | NaN => NaN
  end.

(** [a + b]; a sum that is zero is the positive zero, unless both terms
    are the negative zero. *)
Definition add (a b : number) : number :=
  match a, b with
  | NaN, _ | _, NaN => NaN
  | Fin p, Fin q => fin (p + q)
  | NegZero, x | x, NegZero => x
  | PosInf, NegInf | NegInf, PosInf => NaN
  | PosInf, _ | _, PosInf => PosInf
  | NegInf, _ | _, NegInf => NegInf
  end.

(** [a - b] *)
Definition sub (a b : number) : number := add a (neg b).

(** The product of an infinity with the finite factor [q]. *)
Definition inf_times (positive : bool) (q : Q) : number :=
  if is_zero q then NaN
  else if Bool.eqb positive (negb (is_neg q)) then PosInf else NegInf.

(** [a * b]; a product that is zero has the sign of its factors. *)
Definition mul (a b : number) : number :=
  match a, b with
  | NaN, _ | _, NaN => NaN
  | Fin p, Fin q =>
      if xorb (is_neg p) (is_neg q) && is_zero (p * q) then NegZero
      else fin (p * q)
  | Fin p, NegZero | NegZero, Fin p => zero (negb (is_neg p))
  | NegZero, NegZero => Fin 0
  | PosInf, Fin q | Fin q, PosInf => inf_times true q
  | NegInf, Fin q | Fin q, NegInf => inf_times false q
  | (PosInf | NegInf), NegZero | NegZero, (PosInf | NegInf) => NaN
  | PosInf, PosInf | NegInf, NegInf => PosInf
  | PosInf, NegInf | NegInf, PosInf => NegInf
  end.

(** [a / b]; a quotient that is zero or infinite has the sign of its
    terms. *)
Definition div (a b : number) : number :=
  match a, b with
  | NaN, _ | _, NaN => NaN
  | Fin p, Fin q =>
      if is_zero q then
        if is_zero p then NaN else if is_neg p then NegInf else PosInf
      else if is_zero p && is_neg q then NegZero
      else fin (p / q)
  | Fin p, NegZero =>
      if is_zero p then NaN else if is_neg p then PosInf else NegInf
  | NegZero, Fin q => if is_zero q then NaN else zero (negb (is_neg q))
  | NegZero, NegZero => NaN
  | Fin p, PosInf => zero (is_neg p)
  | Fin p, NegInf => zero (negb (is_neg p))
  | NegZero, PosInf => NegZero
  | NegZero, NegInf => Fin 0
  | PosInf, Fin q => if is_neg q then NegInf else PosInf
  | NegInf, Fin q => if is_neg q then PosInf else NegInf
  | PosInf, NegZero => NegInf
  | NegInf, NegZero => PosInf
  | (PosInf | NegInf), (PosInf | NegInf) => NaN
  end.

(** Rounding toward zero. *)
Definition trunc (q : Q) : Z := Z.quot (Qnum q) (Zpos (Qden q)).

(** [a % b]: the remainder has the sign of the dividend, also when it
    is zero. *)
Definition rem (a b : number) : number :=
  match a, b with
  | NaN, _ | _, NaN => NaN
  | (PosInf | NegInf), _ => NaN
  | _, NegZero => NaN
  | Fin p, (PosInf | NegInf) => Fin p
  | NegZero, (PosInf | NegInf) => NegZero
  | NegZero, Fin q => if is_zero q then NaN else NegZero
  | Fin p, Fin q =>
      if is_zero q then NaN
      else
        let r := (p - q * inject_Z (trunc (p / q)))%Q in
        if is_neg p && is_zero r then NegZero else fin r
  end.

(** [Math.floor(a)] *)
Definition floor (a : number) : number :=
  match a with
  | Fin q => of_Z (Qfloor q)
  | _ => a
  end.

(** The value of a number that is finite. *)
Definition value (a : number) : option Q :=
  match a with
  | Fin q => Some q
  | NegZero => Some 0%Q
  | _ => None
  end.

(** [a <= b]; the two zeros are equal. *)
Definition le (a b : number) : bool :=
  match a, b with
  | NaN, _ | _, NaN => false
  | Fin p, Fin q => Qle_bool p q
  | Fin p, NegZero => Qle_bool p 0
  | NegZero, Fin q => Qle_bool 0 q
  | NegZero, NegZero => true
  | NegInf, _ | _, PosInf => true
  | _, _ => false
  end.

(** [a < b] *)
Definition lt (a b : number) : bool :=
  match a, b with
  | NaN, _ | _, NaN => false
  | Fin p, Fin q => negb (Qle_bool q p)
  | Fin p, NegZero => negb (Qle_bool 0 p)
  | NegZero, Fin q => negb (Qle_bool q 0)
  | NegZero, NegZero => false
  | PosInf, _ | _, NegInf => false
  | _, _ => true
  end.

(** [a > b] *)
Definition gt (a b : number) : bool := lt b a.

(** [a === b] *)
Definition strict_eq (a b : number) : bool :=
  match a, b with
  | Fin p, Fin q => Qeq_bool p q
  | Fin p, NegZero | NegZero, Fin p => is_zero p
  | NegZero, NegZero => true
  | PosInf, PosInf | NegInf, NegInf => true
  | _, _ => false
  end.

(** [Math.max(a, b)]; the positive zero is above the negative one. *)
Definition max (a b : number) : number :=
  match a, b with
  | NaN, _ | _, NaN => NaN
  | NegZero, Fin q => if Qle_bool 0 q then Fin q else NegZero
  | Fin p, NegZero => if Qle_bool 0 p then Fin p else NegZero
  | _, _ => if le a b then b else a
  end.

(** [Math.min(a, b)] *)
Definition min (a b : number) : number :=
  match a, b with
  | NaN, _ | _, NaN => NaN
  | NegZero, Fin q => if Qle_bool 0 q then NegZero else Fin q
  | Fin p, NegZero => if Qle_bool 0 p then NegZero else Fin p
  | _, _ => if le a b then a else b
  end.

(** A number used as a condition: false for the zeros and [NaN]. *)
Definition truthy (a : number) : bool :=
  match a with
  | Fin q => negb (is_zero q)
  | NegZero | NaN => false
  | _ => true
  end.

Definition is_finite (a : number) : bool :=
  match a with Fin _ | NegZero => true | _ => false end.

(** A number used as an array index: [Some i] for the integer [i >= 0];
    the negative zero is the index 0. *)
Definition as_index (a : number) : option nat :=
  match a with
  | Fin q =>
      let r := Qred q in
      if (Zpos (Qden r) =? 1) && (0 <=? Qnum r) then Some (Z.to_nat (Qnum r))
      else None
  | NegZero => Some O
  | _ => None
  end.

(** [arr[i]]: [None] is [undefined]. *)
Definition index {A : Type} (arr : list A) (i : number) : option A :=
  match as_index i with
  | Some k => nth_error arr k
  | None => None
  end.

(** [arr[i]] of an array of numbers, used in arithmetic: [undefined]
    becomes [NaN]. *)
Definition coord (arr : list number) (i : number) : number :=
  match index arr i with
  | Some v => v
  | None => NaN
  end.

(** [arr.length] *)
Definition length_of {A : Type} (arr : list A) : number := of_nat (List.length arr).

End Num.

Import Num.

Declare Scope num_scope.
Delimit Scope num_scope with num.
Bind Scope num_scope with number.
Infix "+" := add : num_scope.
Infix "-" := sub : num_scope.
Infix "*" := mul : num_scope.
Infix "/" := div : num_scope.
Infix "mod" := rem : num_scope.
Notation "- x" := (neg x) : num_scope.


Local Open Scope string_scope.
Local Open Scope list_scope.

(** ** Configuration, state and the page *)

(** [CONFIG] *)
Module CONFIG.

Definition simDuration : number := of_Z 60.

Definition traceLen : number := of_Z 100.

Definition colors : list string :=
  ["#1f77b4"; "#d62728"; "#2ca02c"; "#17becf"; "#9467bd"; "#e377c2"; "#bcbd22"].

End CONFIG.

(** The [animation_data] object of a response: [n] bodies, the spatial
    bound [limit], and one array of [2 * n] coordinates per frame. *)
Record dataset : Type := mkDataset {
  n : number;
  limit : number;
  positions : list (list number)
}.

(** The [state] object.  [animData] is [None] for [null]/[undefined]. *)
Record state : Type := mkState {
  animData : option dataset;
  isPlaying : bool;
  frameIdx : number;
  animId : option Z;
  playStartTime : number
}.

(** The properties of [els] the script reads and writes: the pixel size
    of the two canvases (an unsigned integer in the DOM), the label of
    the play/pause button, the [display] style of the loading text,
    [parseInt(els.inputs.n.value)] (an integer or [NaN]), and the
    [value] of the generated input with a given id prefix ("m", "L",
    "th") and number, [None] when no such element exists. *)
Record page : Type := mkPage {
  canvas_width : Z;
  canvas_height : Z;
  graph_width : Z;
  graph_height : Z;
  play_textContent : string;
  loader_display : string;
  n_value : number;
  input_value : string -> number -> option string
}.

Record world : Type := mkWorld {
  st : state;
  els : page
}.

(** [let state = {...}] *)
Definition initial_state : state :=
  {| animData := None; isPlaying := false; frameIdx := of_Z 0;
     animId := None; playStartTime := of_Z 0 |}.

(** ** What the script does to the outside *)

(** The two 2d contexts, [els.ctx] and [els.gctx]. *)
Inductive context : Type := ctx | gctx.

(** Calls and property assignments on a 2d context.  [arc cx cy r]
    stands for [arc(cx, cy, r, 0, Math.PI * 2)]. *)
Inductive canvas_op : Type :=
| save
| restore
| set_fillStyle (c : string)
| set_strokeStyle (c : string)
| set_lineWidth (v : number)
| set_lineJoin (v : string)
| set_lineCap (v : string)
| fillRect (x y w h : number)
| clearRect (x y w h : number)
| strokeRect (x y w h : number)
| beginPath
| moveTo (x y : number)
| lineTo (x y : number)
| stroke
| arc (cx cy r : number)
| fill.

(** The body of the [/simulate] request built by [getSimInputs]. *)
Record sim_inputs : Type := mkInputs {
  req_n : number;
  masses : string;
  lengths : string;
  initial_angles : string;
  t_max : number;
  n_points : number
}.

(** A thrown value: an [Error] object with its [message]. *)
Inductive exn : Type :=
| Error (message : string).

(** What a handler does to the outside.  [Reported e] is the report of
    the exception [e] that a listener threw while an event was being
    dispatched to it by the script itself ([click()]): the dispatch
    reports it (to [window.onerror] and the console) and goes on. *)
Inductive event : Type :=
| Canvas (c : context) (o : canvas_op)
| Alert (text : string)
| Confirm (count : number)
| Fetch (body : sim_inputs)
| RequestAnimationFrame
| Reported (e : exn).

(** The message of the [TypeError] raised on reading a property of
    [undefined] or [null] (the wording is the engine's). *)
Definition undefined_property : exn :=
  Error "Cannot read properties of undefined".

Definition message_of (e : exn) : string :=
  match e with Error m => m end.

(** ** The monad of handlers *)

Inductive outcome (A : Type) : Type :=
| Ok (a : A)
| Throw (e : exn)
| Timeout.
Arguments Ok {A} a.
Arguments Throw {A} e.
Arguments Timeout {A}.

(** A computation maps the world to its outcome, the world it leaves and
    the events it emitted, oldest first.  A throw keeps the mutations
    and events made before it. *)
Definition M (A : Type) : Type := world -> outcome A * world * list event.

Definition ret {A : Type} (a : A) : M A := fun w => (Ok a, w, []).

Definition bind {A B : Type} (m : M A) (k : A -> M B) : M B :=
  fun w =>
    match m w with
    | (Ok a, w1, ev1) =>
        match k a w1 with
        | (r, w2, ev2) => (r, w2, ev1 ++ ev2)
        end
    | (Throw e, w1, ev1) => (Throw e, w1, ev1)
    | (Timeout, w1, ev1) => (Timeout, w1, ev1)
    end.

Notation "x <- m ;; k" := (bind m (fun x => k))
  (at level 61, m at next level, right associativity).
Notation "m ;; k" := (bind m (fun _ => k))
  (at level 61, right associativity).

Definition throw {A : Type} (e : exn) : M A := fun w => (Throw e, w, []).

Definition timeout {A : Type} : M A := fun w => (Timeout, w, []).

Definition emit (e : event) : M unit := fun w => (Ok tt, w, [e]).

Definition get_state : M state := fun w => (Ok (st w), w, []).

Definition get_page : M page := fun w => (Ok (els w), w, []).

Definition set_state (f : state -> state) : M unit :=
  fun w => (Ok tt, {| st := f (st w); els := els w |}, []).

Definition set_page (f : page -> page) : M unit :=
  fun w => (Ok tt, {| st := st w; els := f (els w) |}, []).

(** [.catch(handler)] *)
Definition catch {A : Type} (m : M A) (handler : exn -> M A) : M A :=
  fun w =>
    match m w with
    | (Throw e, w1, ev1) =>
        match handler e w1 with
        | (r, w2, ev2) => (r, w2, ev1 ++ ev2)
        end
    | r => r
    end.

(** [.finally(cleanup)] *)
Definition finally {A : Type} (m : M A) (cleanup : M unit) : M A :=
  fun w =>
    match m w with
    | (Timeout, w1, ev1) => (Timeout, w1, ev1)
    | (r, w1, ev1) =>
        match cleanup w1 with
        | (Ok _, w2, ev2) => (r, w2, ev1 ++ ev2)
        | (Throw e, w2, ev2) => (Throw e, w2, ev1 ++ ev2)
        | (Timeout, w2, ev2) => (Timeout, w2, ev1 ++ ev2)
        end
    end.

(** [for (let j = start; cond(j); j = next(j)) acc = body(j, acc)]: the
    loop variable and the variables the body updates are threaded
    through the iterations. *)
Fixpoint for_loop {A : Type} (fuel : nat) (cond : number -> bool)
    (next : number -> number) (body : number -> A -> M A)
    (j : number) (acc : A) : M A :=
  match fuel with
  | O => timeout
  | S fuel' =>
      if cond j then
        acc' <- body j acc ;;
        for_loop fuel' cond next body (next j) acc'
      else ret acc
  end.

(** [j++] *)
Definition incr (j : number) : number := (j + of_Z 1)%num.

(** State setters, one per assigned property. *)
Definition set_animData (d : option dataset) (s : state) : state :=
  {| animData := d; isPlaying := isPlaying s; frameIdx := frameIdx s;
     animId := animId s; playStartTime := playStartTime s |}.

Definition set_isPlaying (b : bool) (s : state) : state :=
  {| animData := animData s; isPlaying := b; frameIdx := frameIdx s;
     animId := animId s; playStartTime := playStartTime s |}.

Definition set_frameIdx (f : number) (s : state) : state :=
  {| animData := animData s; isPlaying := isPlaying s; frameIdx := f;
     animId := animId s; playStartTime := playStartTime s |}.

Definition set_animId (h : option Z) (s : state) : state :=
  {| animData := animData s; isPlaying := isPlaying s; frameIdx := frameIdx s;
     animId := h; playStartTime := playStartTime s |}.

Definition set_playStartTime (t : number) (s : state) : state :=
  {| animData := animData s; isPlaying := isPlaying s; frameIdx := frameIdx s;
     animId := animId s; playStartTime := t |}.

Definition set_play_textContent (t : string) (p : page) : page :=
  {| canvas_width := canvas_width p; canvas_height := canvas_height p;
     graph_width := graph_width p; graph_height := graph_height p;
     play_textContent := t; loader_display := loader_display p;
     n_value := n_value p; input_value := input_value p |}.

Definition set_loader_display (d : string) (p : page) : page :=
  {| canvas_width := canvas_width p; canvas_height := canvas_height p;
     graph_width := graph_width p; graph_height := graph_height p;
     play_textContent := play_textContent p; loader_display := d;
     n_value := n_value p; input_value := input_value p |}.

Definition set_sizes (size : Z) (p : page) : page :=
  {| canvas_width := size; canvas_height := size;
     graph_width := size; graph_height := size;
     play_textContent := play_textContent p; loader_display := loader_display p;
     n_value := n_value p; input_value := input_value p |}.

(** ** Helpers *)

Local Open Scope num_scope.

(** The object [{x, y}] returned by [getScreenPos]. *)
Record screen_pos : Type := mkPos {
  pos_x : number;
  pos_y : number
}.

(** [getScreenPos(x, y, scale, w, h)]: physics coordinates to canvas
    coordinates. *)
Definition getScreenPos (x y scale w h : number) : screen_pos :=
  {| pos_x := x * scale + (w / of_Z 2);
     pos_y := - y * scale + (h / of_Z 2) |}.

(** A call or assignment on the context [c]. *)
Definition on (c : context) (o : canvas_op) : M unit := emit (Canvas c o).

(** [drawGrid(ctx, w, h, scale, detailed)] *)
Definition drawGrid (fuel : nat) (c : context) (w h scale : number)
    (detailed : bool) : M unit :=
  on c save ;;
  let ox := w / of_Z 2 in
  let oy := h / of_Z 2 in
  on c (set_fillStyle "#ffffff") ;;
  on c (fillRect (of_Z 0) (of_Z 0) w h) ;;
  (if detailed && truthy scale then
     on c (set_strokeStyle "#f0f0f0") ;;
     on c (set_lineWidth (of_Z 1)) ;;
     on c beginPath ;;
     let step := scale / of_Z 5 in
     for_loop fuel (fun x => lt x w) (fun x => x + step)
       (fun x _ => on c (moveTo x (of_Z 0)) ;; on c (lineTo x h))
       (ox mod step) tt ;;
     for_loop fuel (fun y => lt y h) (fun y => y + step)
       (fun y _ => on c (moveTo (of_Z 0) y) ;; on c (lineTo w y))
       (oy mod step) tt ;;
     on c stroke
   else ret tt) ;;
  on c (set_strokeStyle (if detailed then "#ccc" else "#eee")) ;;
  on c (set_lineWidth (of_Z 1)) ;;
  on c beginPath ;;
  on c (moveTo (of_Z 0) oy) ;; on c (lineTo w oy) ;;
  on c (moveTo ox (of_Z 0)) ;; on c (lineTo ox h) ;;
  on c stroke ;;
  (if detailed then
     on c (set_strokeStyle "#000") ;;
     on c (strokeRect (of_Z 0) (of_Z 0) w h)
   else ret tt) ;;
  on c restore.

(** ** Drawing *)

(** [const scale = (w / 2) / state.animData.limit] of [drawFrame]. *)
Definition drawFrame_scale (w : number) (d : dataset) : number :=
  (w / of_Z 2) / limit d.

(** [drawFrame], part 1: the trace of the last pendulum. *)
Definition drawFrame_trace (fuel : nat) (d : dataset) (frame : number)
    (scale w h : number) : M unit :=
  on ctx (set_strokeStyle "rgba(255, 0, 0, 0.6)") ;;
  on ctx (set_lineWidth (of_Z 2)) ;;
  on ctx beginPath ;;
  let startTrace := max (of_Z 0) (frame - CONFIG.traceLen) in
  let endIdx := (n d - of_Z 1) * of_Z 2 in
  for_loop fuel (fun j => le j frame) incr
    (fun j _ =>
       match index (positions d) j with
       | None => throw undefined_property
       | Some p =>
           let s := getScreenPos (coord p endIdx) (coord p (endIdx + of_Z 1)) scale w h in
           if strict_eq j startTrace then on ctx (moveTo (pos_x s) (pos_y s))
           else on ctx (lineTo (pos_x s) (pos_y s))
       end)
    startTrace tt ;;
  on ctx stroke.

(** [drawCircle(ctx, cx, cy, r, color)] *)
Definition drawCircle (c : context) (cx cy r : number) (color : string) : M unit :=
  on c (set_fillStyle color) ;;
  on c beginPath ;; on c (arc cx cy r) ;; on c fill.

(** [drawFrame], part 2: rods, pivot and masses of the frame [pos]. *)
Definition drawFrame_rods (fuel : nat) (d : dataset) (pos : option (list number))
    (scale w h : number) : M unit :=
  on ctx (set_lineWidth (of_Z 3)) ;;
  on ctx (set_strokeStyle "black") ;;
  on ctx beginPath ;;
  on ctx (moveTo (w / of_Z 2) (h / of_Z 2)) ;;
  for_loop fuel (fun k => lt k (n d)) incr
    (fun k _ =>
       match pos with
       | None => throw undefined_property
       | Some p =>
           let s := getScreenPos (coord p (of_Z 2 * k)) (coord p (of_Z 2 * k + of_Z 1)) scale w h in
           on ctx (lineTo (pos_x s) (pos_y s))
       end)
    (of_Z 0) tt ;;
  on ctx stroke ;;
  drawCircle ctx (w / of_Z 2) (h / of_Z 2) (of_Z 4) "black" ;;
  for_loop fuel (fun k => lt k (n d)) incr
    (fun k _ =>
       match pos with
       | None => throw undefined_property
       | Some p =>
           let s := getScreenPos (coord p (of_Z 2 * k)) (coord p (of_Z 2 * k + of_Z 1)) scale w h in
           drawCircle ctx (pos_x s) (pos_y s) (of_Z 6) "#333"
       end)
    (of_Z 0) tt.

(** [drawFrame()] *)
Definition drawFrame (fuel : nat) : M unit :=
  s <- get_state ;;
  match animData s with
  | None => ret tt
  | Some d =>
      p <- get_page ;;
      let w := of_Z (canvas_width p) in
      let h := of_Z (canvas_height p) in
      let scale := drawFrame_scale w d in
      on ctx (clearRect (of_Z 0) (of_Z 0) w h) ;;
      drawGrid fuel ctx w h scale false ;;
      let pos := index (positions d) (frameIdx s) in
      drawFrame_trace fuel d (frameIdx s) scale w h ;;
      drawFrame_rods fuel d pos scale w h
  end.

(** [const scale = (Math.min(w, h) / 2) / state.animData.limit] of
    [drawGraph]. *)
Definition drawGraph_scale (w h : number) (d : dataset) : number :=
  (min w h / of_Z 2) / limit d.

(** [CONFIG.colors[k % CONFIG.colors.length]] *)
Definition color_of (k : number) : string :=
  match index CONFIG.colors (k mod length_of CONFIG.colors) with
  | Some c => c
  | None => "undefined"
  end.

(** The inner loop of [drawGraph]: the path of pendulum [k] up to the
    frame [frame]. *)
Definition drawGraph_path (fuel : nat) (d : dataset) (frame : number)
    (scale w h : number) (k : number) : M unit :=
  on gctx (set_strokeStyle (color_of k)) ;;
  on gctx beginPath ;;
  for_loop fuel (fun j => le j frame) incr
    (fun j started =>
       match index (positions d) j with
       | None => throw undefined_property
       | Some p =>
           let s := getScreenPos (coord p (of_Z 2 * k)) (coord p (of_Z 2 * k + of_Z 1)) scale w h in
           if negb started then on gctx (moveTo (pos_x s) (pos_y s)) ;; ret true
           else on gctx (lineTo (pos_x s) (pos_y s)) ;; ret started
       end)
    (of_Z 0) false ;;
  on gctx stroke.

(** [drawGraph()] *)
Definition drawGraph (fuel : nat) : M unit :=
  s <- get_state ;;
  match animData s with
  | None => ret tt
  | Some d =>
      p <- get_page ;;
      let w := of_Z (graph_width p) in
      let h := of_Z (graph_height p) in
      let scale := drawGraph_scale w h d in
      drawGrid fuel gctx w h scale true ;;
      on gctx (set_lineWidth (Fin (5 # 2))) ;;
      on gctx (set_lineCap "round") ;;
      on gctx (set_lineJoin "round") ;;
      for_loop fuel (fun k => lt k (n d)) incr
        (fun k _ => drawGraph_path fuel d (frameIdx s) scale w h k)
        (of_Z 0) tt
  end.

(** ** Core functions and the animation loop *)

(** [getSimInputs(n)]: the values of the generated fields, joined. *)
Definition getSimInputs (fuel : nat) (count : number) : M sim_inputs :=
  p <- get_page ;;
  acc <- for_loop fuel (fun i => le i count) incr
    (fun i '(m, l, th) =>
       match input_value p "m" i with
       | None => throw undefined_property
       | Some mv =>
           match input_value p "L" i with
           | None => throw undefined_property
           | Some lv =>
               match input_value p "th" i with
               | None => throw undefined_property
               | Some tv => ret (m ++ [mv], l ++ [lv], th ++ [tv])
               end
           end
       end)
    (of_Z 1) ([], [], []) ;;
  let '(m, l, th) := acc in
  ret {| req_n := count;
         masses := String.concat "," m;
         lengths := String.concat "," l;
         initial_angles := String.concat "," th;
         t_max := CONFIG.simDuration;
         n_points := of_Z 8000 |}.

(** [resizeCanvases()], with [size] the [clientWidth] of the parent. *)
Definition resizeCanvases (fuel : nat) (size : Z) : M unit :=
  set_page (set_sizes size) ;;
  s <- get_state ;;
  match negb (isPlaying s), animData s with
  | true, Some _ => drawFrame fuel ;; drawGraph fuel
  | _, _ => ret tt
  end.

(** The frame index [animate] assigns: [elapsed], [progress] and the
    floor, from [Date.now()], [state.playStartTime] and the dataset, in
    exact arithmetic ([Binary64.frame_at] below rounds as the engine
    does). *)
Definition frame_at (now : Z) (start : number) (d : dataset) : number :=
  let elapsed := (of_Z now - start) / of_Z 1000 in
  let progress := (elapsed / CONFIG.simDuration) mod of_Z 1 in
  floor (progress * length_of (positions d)).

(** [animate()], with [now] the value of [Date.now()] and [handle] the
    id [requestAnimationFrame] returns. *)
Definition animate (fuel : nat) (now : Z) (handle : Z) : M unit :=
  s <- get_state ;;
  match isPlaying s, animData s with
  | true, Some d =>
      set_state (set_frameIdx (frame_at now (playStartTime s) d)) ;;
      drawFrame fuel ;;
      drawGraph fuel
  | _, _ => ret tt
  end ;;
  emit RequestAnimationFrame ;;
  set_state (set_animId (Some handle)).

(** ** The clock in binary64 *)

(** The arithmetic of the engine: every operation returns the binary64
    number nearest to its exact result, ties to the even significand.
    A binary64 number has a significand of 53 bits; the least positive
    one is [2^-1074], and a result that rounds to [2^1024] or above is
    an infinity. *)
Module Binary64.

Local Open Scope Z_scope.

Definition prec : Z := 53.

Definition emin : Z := -1074.

Definition emax : Z := 1024.

Definition pow2 (e : Z) : Q := (2 ^ e)%Q.

(** The integer part of the binary logarithm of [|q|], for [q] not zero. *)
Definition ilog2 (q : Q) : Z :=
  let e := Z.log2 (Z.abs (Qnum q)) - Z.log2 (Zpos (Qden q)) in
  if Qle_bool (pow2 e) (Qabs q) then e else e - 1.

(** The exponent of the last place of the binary64 numbers next to [q]. *)
Definition ulp_exponent (q : Q) : Z := Z.max (ilog2 q - (prec - 1)) emin.

(** The integer nearest to a rational, ties to even. *)
Definition round_half_even (q : Q) : Z :=
  let fl := Qfloor q in
  match (q - inject_Z fl ?= 1 # 2)%Q with
  | Lt => fl
  | Gt => fl + 1
  | Eq => if Z.even fl then fl else fl + 1
  end.

(** The multiple of the last place nearest to [|q|]. *)
Definition nearest_pos (q : Q) : Q :=
  let e := ulp_exponent q in
  (inject_Z (round_half_even (Qabs q / pow2 e)) * pow2 e)%Q.

(** The value of the binary64 number nearest to [q], were the exponent
    unbounded above. *)
Definition nearest (q : Q) : Q :=
  let r := nearest_pos (Qred q) in
  if is_neg q then (- r)%Q else r.

(** The binary64 number nearest to [q]. *)
Definition round (q : Q) : number :=
  let r := nearest q in
  if Qle_bool (pow2 emax) (Qabs r) then infinity (is_neg q)
  else if is_zero r then zero (is_neg q)
  else fin r.

Definition rnd (a : number) : number :=
  match a with
  | Fin q => round q
  | _ => a
  end.

(** The binary64 numbers of the Standard Library, as numbers, and the
    one that is a positive integer. *)
Definition of_spec_float (f : SpecFloat.spec_float) : number :=
  match f with
  | SpecFloat.S754_zero s => zero s
  | SpecFloat.S754_infinity s => infinity s
  | SpecFloat.S754_nan => NaN
  | SpecFloat.S754_finite s m e =>
      fin ((if s then - inject_Z (Zpos m) else inject_Z (Zpos m)) * pow2 e)
  end.

Definition spec_float_of (z : positive) : SpecFloat.spec_float :=
  SpecFloat.binary_normalize prec emax (Zpos z) 0 false.

(** [a - b], [a * b] and [a / b] of the engine.  [a % b] and
    [Math.floor(a)] are exact on binary64 numbers: they are [rem] and
    [floor]. *)
Definition sub (a b : number) : number := rnd (Num.sub a b).

Definition mul (a b : number) : number := rnd (Num.mul a b).

Definition div (a b : number) : number := rnd (Num.div a b).

(** The frame index [animate] assigns, as the engine computes it.
    [Date.now()] is a number of the engine. *)
Definition frame_at (now : Z) (start : number) (d : dataset) : number :=
  let elapsed := div (sub (rnd (of_Z now)) start) (of_Z 1000) in
  let progress := rem (div elapsed CONFIG.simDuration) (of_Z 1) in
  floor (mul progress (length_of (positions d))).

(** [animate()] with the clock of the engine. *)
Definition animate (fuel : nat) (now : Z) (handle : Z) : M unit :=
  s <- get_state ;;
  match isPlaying s, animData s with
  | true, Some d =>
      set_state (set_frameIdx (frame_at now (playStartTime s) d)) ;;
      drawFrame fuel ;;
      drawGraph fuel
  | _, _ => ret tt
  end ;;
  emit RequestAnimationFrame ;;
  set_state (set_animId (Some handle)).

End Binary64.

(** ** Event listeners *)

(** The JSON object of a response, as far as the script reads it:
    whether [success] is truthy, [message] if present, and
    [animation_data] if present. *)
Record payload : Type := mkPayload {
  success : bool;
  message : option string;
  animation_data : option dataset
}.

(** What the [/simulate] exchange settles to: [fetch] rejects; the
    response is not [ok] and has the body [text]; the response is [ok]
    and its body is not JSON; the response is [ok] and its body is the
    JSON value [data] ([None] for [null]). *)
Inductive response : Type :=
| NetworkError (msg : string)
| HttpError (text : string)
| BadJson (msg : string)
| Json (data : option payload).

(** [data.message || 'Unknown error'] *)
Definition message_or_unknown (m : option string) : string :=
  match m with
  | Some EmptyString | None => "Unknown error"
  | Some t => t
  end.

(** The success branch of the run listener (the "load" of a dataset). *)
Definition load (fuel : nat) (d : option dataset) (now : Z) : M unit :=
  set_state (set_animData d) ;;
  set_state (set_frameIdx (of_Z 0)) ;;
  set_state (set_isPlaying true) ;;
  set_page (set_play_textContent "Pause") ;;
  set_state (set_playStartTime (of_Z now)) ;;
  drawFrame fuel ;;
  drawGraph fuel.

(** The click listener of the run button, up to the call of [fetch].
    [confirmed] is what the user answers if asked. *)
Definition run_click (fuel : nat) (confirmed : bool) : M unit :=
  p <- get_page ;;
  let count := n_value p in
  go <- (if gt count (of_Z 20) then emit (Confirm count) ;; ret confirmed
         else ret true) ;;
  if negb go then ret tt
  else
    set_page (set_loader_display "block") ;;
    set_state (set_isPlaying false) ;;
    set_page (set_play_textContent "Play") ;;
    body <- getSimInputs fuel count ;;
    emit (Fetch body).

(** The promise chain of the run listener, run when the exchange has
    settled to [r], at the instant [now]. *)
Definition run_settled (fuel : nat) (r : response) (now : Z) : M unit :=
  finally
    (catch
       (data <- match r with
                | NetworkError msg => throw (Error msg)
                | HttpError text => throw (Error text)
                | BadJson msg => throw (Error msg)
                | Json data => ret data
                end ;;
        match data with
        | None => throw undefined_property
        | Some data =>
            if negb (success data)
            then throw (Error (message_or_unknown (message data)))
            else load fuel (animation_data data) now
        end)
       (fun err => emit (Alert (String.append "Error: " (message_of err)))))
    (set_page (set_loader_display "none")).

(** [els.btns.run.click()]: the click event is dispatched at once to the
    run listener.  An exception the listener throws does not reach the
    caller of [click()]: the dispatch reports it and returns. *)
Definition click_run (fuel : nat) (confirmed : bool) : M unit :=
  catch (run_click fuel confirmed) (fun e => emit (Reported e)).

(** The click listener of the play/pause button. *)
Definition play_click (fuel : nat) (now : Z) (confirmed : bool) : M unit :=
  s <- get_state ;;
  match animData s with
  | None => click_run fuel confirmed
  | Some d =>
      (if negb (isPlaying s) then
         let currentProg := frameIdx s / (length_of (positions d) - of_Z 1) in
         set_state (set_playStartTime
                      (of_Z now - (currentProg * CONFIG.simDuration * of_Z 1000)))
       else ret tt) ;;
      s <- get_state ;;
      set_state (set_isPlaying (negb (isPlaying s))) ;;
      s <- get_state ;;
      set_page (set_play_textContent (if isPlaying s then "Pause" else "Play"))
  end.

(** The click listener of the reset button. *)
Definition reset_click (fuel : nat) (now : Z) : M unit :=
  set_state (set_frameIdx (of_Z 0)) ;;
  s <- get_state ;;
  (if isPlaying s then set_state (set_playStartTime (of_Z now)) else ret tt) ;;
  drawFrame fuel ;;
  drawGraph fuel.

(** Scenario 1 of the specification: one body, limit 2, three frames. *)
Definition scenario1 : dataset :=
  {| n := of_Z 1; limit := of_Z 2;
     positions := [[of_Z 1; of_Z 0]; [of_Z 0; of_Z 1]; [of_Z (-1); of_Z 0]] |}.

(** A dataset with a single frame. *)
Definition single_frame : dataset :=
  {| n := of_Z 1; limit := of_Z 2; positions := [[of_Z 1; of_Z 0]] |}.

(** A dataset with no frame. *)
Definition no_frames : dataset :=
  {| n := of_Z 1; limit := of_Z 2; positions := [] |}.

(** Scenario 1 with the spatial bound zero (the positive zero, JSON
    [0]). *)
Definition zero_limit : dataset :=
  {| n := of_Z 1; limit := of_Z 0;
     positions := [[of_Z 1; of_Z 0]; [of_Z 0; of_Z 1]; [of_Z (-1); of_Z 0]] |}.

(** Scenario 1 with the spatial bound the negative zero (JSON [-0]). *)
Definition negative_zero_limit : dataset :=
  {| n := of_Z 1; limit := NegZero;
     positions := [[of_Z 1; of_Z 0]; [of_Z 0; of_Z 1]; [of_Z (-1); of_Z 0]] |}.

(** Scenario 1 with a negative spatial bound. *)
Definition negative_limit : dataset :=
  {| n := of_Z 1; limit := of_Z (-2);
     positions := [[of_Z 1; of_Z 0]; [of_Z 0; of_Z 1]; [of_Z (-1); of_Z 0]] |}.

(** A page with two 400x400 canvases and two pendulums configured. *)
Definition page400 : page :=
  {| canvas_width := 400; canvas_height := 400;
     graph_width := 400; graph_height := 400;
     play_textContent := "Play"; loader_display := "none";
     n_value := of_Z 2;
     input_value := fun _ _ => Some "1.0" |}.

(** The world when the script has been loaded. *)
Definition world0 : world := {| st := initial_state; els := page400 |}.

(** The world while [d] plays from the instant 0, showing [frame]. *)
Definition playing (d : dataset) (frame : Z) : world :=
  {| st := {| animData := Some d; isPlaying := true; frameIdx := of_Z frame;
              animId := Some 1%Z; playStartTime := of_Z 0 |};
     els := set_play_textContent "Pause" page400 |}.

(** ** The generated fields *)

Definition set_n_value (v : number) (p : page) : page :=
  {| canvas_width := canvas_width p; canvas_height := canvas_height p;
     graph_width := graph_width p; graph_height := graph_height p;
     play_textContent := play_textContent p; loader_display := loader_display p;
     n_value := v; input_value := input_value p |}.

Definition set_input_value (f : string -> number -> option string) (p : page)
  : page :=
  {| canvas_width := canvas_width p; canvas_height := canvas_height p;
     graph_width := graph_width p; graph_height := graph_height p;
     play_textContent := play_textContent p; loader_display := loader_display p;
     n_value := n_value p; input_value := f |}.

(** [idx === 1 ? 90 : idx === 2 ? 45 : 0], as written into the field. *)
Definition default_angle (idx : number) : string :=
  if strict_eq idx (of_Z 1) then "90"
  else if strict_eq idx (of_Z 2) then "45" else "0".

(** The inputs the markup of [generateFields] creates for [count]
    pendulums: "m", "L" and "th" fields numbered from 1 to [count],
    with their default values.  The inputs with these ids are taken to
    live in the container only, so assigning its [innerHTML] replaces
    them all. *)
Definition generated_fields (count : number) (prefix : string) (idx : number)
  : option string :=
  match as_index idx with
  | Some _ =>
      if le (of_Z 1) idx && le idx count then
        if String.eqb prefix "m" then Some "1.0"
        else if String.eqb prefix "L" then Some "1.0"
        else if String.eqb prefix "th" then Some (default_angle idx)
        else None
      else None
  | None => None
  end.

(** [generateFields()] *)
Definition generateFields : M unit :=
  p <- get_page ;;
  let count := if truthy (n_value p) then n_value p else of_Z 2 in
  set_page (set_input_value (generated_fields count)).

(** The [input] listener of the count field: clamp to 1..150, then
    regenerate the fields. *)
Definition n_input : M unit :=
  p <- get_page ;;
  let val := n_value p in
  (if lt val (of_Z 1) then set_page (set_n_value (of_Z 1))
   else if gt val (of_Z 150) then
     set_page (set_n_value (of_Z 150)) ;;
     emit (Alert "Maximum pendulums limited to 150 for performance.")
   else ret tt) ;;
  generateFields.

(** The script's last three lines: [resizeCanvases(); generateFields();
    animate();]. *)
Definition init (fuel : nat) (size now handle : Z) : M unit :=
  resizeCanvases fuel size ;;
  generateFields ;;
  animate fuel now handle.

(** ** Reading a run *)

Definition outcome_of {A : Type} (r : outcome A * world * list event) : outcome A :=
  fst (fst r).

Definition world_of {A : Type} (r : outcome A * world * list event) : world :=
  snd (fst r).

Definition events_of {A : Type} (r : outcome A * world * list event) : list event :=
  snd r.

(** ** Vocabulary of the statements *)

(** The integers [lo], [lo + 1], ..., [lo + count - 1]. *)
Definition Zrange (lo : Z) (count : nat) : list Z :=
  map (fun i => lo + Z.of_nat i)%Z (seq 0 count).

(** The coordinates of body [k] in the frame [p]: slots [2k] and [2k+1]. *)
Definition body_x (p : list number) (k : number) : number := coord p (of_Z 2 * k).

Definition body_y (p : list number) (k : number) : number :=
  coord p (of_Z 2 * k + of_Z 1).

(** Frame number [j] of a dataset ([[]] when there is none). *)
Definition frame (d : dataset) (j : Z) : list number :=
  nth (Z.to_nat j) (positions d) [].

(** The canvas point of body [k] at frame [j]. *)
Definition body_point (d : dataset) (scale w h : number) (k : number) (j : Z)
  : screen_pos :=
  getScreenPos (body_x (frame d j) k) (body_y (frame d j) k) scale w h.

(** A connected line through [pts] on the context [c]: [moveTo] the
    first point, [lineTo] each of the others. *)
Definition polyline (c : context) (pts : list screen_pos) : list event :=
  match pts with
  | [] => []
  | p :: rest =>
      Canvas c (moveTo (pos_x p) (pos_y p))
      :: map (fun q => Canvas c (lineTo (pos_x q) (pos_y q))) rest
  end.

(** What a loop over the integers from [lo] does when iteration [j]
    turns the loop-carried value [a] into [g j a] and emits [evs j a]. *)
Fixpoint iterate {A : Type} (g : Z -> A -> A) (evs : Z -> A -> list event)
    (count : nat) (lo : Z) (acc : A) : A * list event :=
  match count with
  | O => (acc, [])
  | S c =>
      let r := iterate g evs c (lo + 1)%Z (g lo acc) in
      (fst r, evs lo acc ++ snd r)
  end.

(** The events of the plain grid of the scene ([detailed] false). *)
Definition plain_grid (c : context) (w h : number) : list event :=
  map (Canvas c)
    [save; set_fillStyle "#ffffff"; fillRect (of_Z 0) (of_Z 0) w h;
     set_strokeStyle "#eee"; set_lineWidth (of_Z 1); beginPath;
     moveTo (of_Z 0) (h / of_Z 2); lineTo w (h / of_Z 2);
     moveTo (w / of_Z 2) (of_Z 0); lineTo (w / of_Z 2) h;
     stroke; restore].

(** The events of the trace pass over the points [pts]. *)
Definition trace_events (pts : list screen_pos) : list event :=
  [Canvas ctx (set_strokeStyle "rgba(255, 0, 0, 0.6)");
   Canvas ctx (set_lineWidth (of_Z 2));
   Canvas ctx beginPath]
  ++ polyline ctx pts ++ [Canvas ctx stroke].

(** First frame, number of frames and points of the trace at frame [f]. *)
Definition trace_start (f : Z) : Z := Z.max 0 (f - 100).

Definition trace_count (f : Z) : nat := Z.to_nat (Z.min f 100 + 1).

Definition trace_points (d : dataset) (scale w h : number) (f : Z)
  : list screen_pos :=
  map (body_point d scale w h (n d - of_Z 1))
      (Zrange (trace_start f) (trace_count f)).

(** The points of the path of body [k] up to frame [f], and the events
    of drawing it in the trajectory plot. *)
Definition path_points (d : dataset) (scale w h : number) (f : Z) (k : Z)
  : list screen_pos :=
  map (body_point d scale w h (of_Z k)) (Zrange 0 (Z.to_nat (f + 1))).

Definition palette (k : Z) : string :=
  nth (Z.to_nat (k mod Z.of_nat (List.length CONFIG.colors))) CONFIG.colors "".

Definition path_events (d : dataset) (scale w h : number) (f : Z) (k : Z)
  : list event :=
  [Canvas gctx (set_strokeStyle (palette k)); Canvas gctx beginPath]
  ++ polyline gctx (path_points d scale w h f k) ++ [Canvas gctx stroke].

(** [q mod 1] for a rational: the part of [q] above its floor. *)
Definition fraction (q : Q) : Q := (q - inject_Z (Qfloor q))%Q.

(** The frame index a tick computes, in the words of the
    specification and in exact arithmetic:
    [floor(((now - origin)/1000 / total mod 1) * frames)]. *)
Definition spec_frame_index (now : Z) (origin total : Q) (frames : nat) : Z :=
  Qfloor (fraction ((inject_Z now - origin) / 1000 / total)
          * inject_Z (Z.of_nat frames))%Q.

(** The same formula with the difference, each division and the product
    rounded to the nearest binary64 number. *)
Definition rounded_frame_index (now : Z) (origin total : Q) (frames : nat) : Z :=
  Qfloor
    (Binary64.nearest
       (fraction
          (Binary64.nearest
             (Binary64.nearest (Binary64.nearest (inject_Z now - origin) / 1000)
              / total))
        * inject_Z (Z.of_nat frames)))%Q.

(** The data-model invariant [0 <= frameIdx < positions.length] (an
    integer), for a state that holds a dataset. *)
Definition frame_in_range (s : state) : bool :=
  match animData s with
  | None => true
  | Some d =>
      match as_index (frameIdx s) with
      | Some i => (i <? List.length (positions d))%nat
      | None => false
      end
  end.

(** The message of the error a settled exchange ends in, if it fails
    before the dataset is installed. *)
Definition failure_message (r : response) : option string :=
  match r with
  | NetworkError m | HttpError m | BadJson m => Some m
  | Json None => Some (message_of undefined_property)
  | Json (Some data) =>
      if success data then None else Some (message_or_unknown (message data))
  end.

(** The world a handler leaves. *)
Definition after {A : Type} (m : M A) (w : world) : world := world_of (m w).

(** [m] reads the world and emits events, whatever its outcome. *)
Definition read_only {A : Type} (m : M A) : Prop :=
  forall w, world_of (m w) = w.

(** The world when the run listener has gone ahead: playback paused,
    the loader shown, the button labelled "Play". *)
Definition requesting (w : world) : world :=
  {| st := set_isPlaying false (st w);
     els := set_play_textContent "Play" (set_loader_display "block" (els w)) |}.

(** The operations of the playback clock, each with what it reads from
    the environment. *)
Inductive operation : Type :=
| Load (d : dataset) (now : Z)
| Toggle (now : Z) (confirmed : bool)
| Reset (now : Z)
| Tick (now handle : Z).

Definition perform (fuel : nat) (op : operation) : M unit :=
  match op with
  | Load d now => load fuel (Some d) now
  | Toggle now confirmed => play_click fuel now confirmed
  | Reset now => reset_click fuel now
  | Tick now handle => animate fuel now handle
  end.

(** An operation is timely in the state [s] when a dataset it loads has
    frames and when a tick it makes while playing is not earlier than
    the origin, which is finite. *)
Definition timely (op : operation) (s : state) : Prop :=
  match op with
  | Load d _ => positions d <> []
  | Tick now _ =>
      isPlaying s = true ->
      exists p : Q, playStartTime s = Fin p /\ (p <= inject_Z now)%Q
  | _ => True
  end.

(** The events of [drawCircle]. *)
Definition circle_events (c : context) (cx cy r : number) (color : string)
  : list event :=
  [Canvas c (set_fillStyle color); Canvas c beginPath;
   Canvas c (arc cx cy r); Canvas c fill].

(** The events of the rods pass over the points [pts] of the bodies:
    one line from the pivot through the bodies, then a disc on the pivot
    and one on each body. *)
Definition rods_events (w h : number) (pts : list screen_pos) : list event :=
  [Canvas ctx (set_lineWidth (of_Z 3)); Canvas ctx (set_strokeStyle "black");
   Canvas ctx beginPath; Canvas ctx (moveTo (w / of_Z 2) (h / of_Z 2))]
  ++ map (fun q => Canvas ctx (lineTo (pos_x q) (pos_y q))) pts
  ++ [Canvas ctx stroke]
  ++ circle_events ctx (w / of_Z 2) (h / of_Z 2) (of_Z 4) "black"
  ++ flat_map (fun q => circle_events ctx (pos_x q) (pos_y q) (of_Z 6) "#333") pts.

(** The frame indices below every frame: [NaN] and the negative
    integers. *)
Definition below_frames (v : number) : Prop :=
  v = NaN \/ exists f : Z, v = of_Z f /\ (f < 0)%Z.

(** The label of the play/pause button says what a click would do. *)
Definition label_matches (w : world) : Prop :=
  play_textContent (els w) = if isPlaying (st w) then "Pause" else "Play".

(** The listeners and callbacks of the script, each with what it reads
    from the environment. *)
Inductive listener : Type :=
| OnFrame (now handle : Z)
| OnRunClick (confirmed : bool)
| OnRunSettled (r : response) (now : Z)
| OnPlayClick (now : Z) (confirmed : bool)
| OnResetClick (now : Z)
| OnResize (size : Z)
| OnCountInput
| OnCountChange.

Definition listen (fuel : nat) (l : listener) : M unit :=
  match l with
  | OnFrame now handle => animate fuel now handle
  | OnRunClick confirmed => run_click fuel confirmed
  | OnRunSettled r now => run_settled fuel r now
  | OnPlayClick now confirmed => play_click fuel now confirmed
  | OnResetClick now => reset_click fuel now
  | OnResize size => resizeCanvases fuel size
  | OnCountInput => n_input
  | OnCountChange => generateFields
  end.

(** [m] emits only events that satisfy [P], whatever its outcome. *)
Definition emits_only {A : Type} (P : event -> Prop) (m : M A) : Prop :=
  forall w, Forall P (events_of (m w)).

(** A call or assignment on the context [c]. *)
Definition on_context (c : context) (e : event) : Prop :=
  exists o, e = Canvas c o.

(** * Properties *)

(** ** Arithmetic of integer-valued numbers *)

Section Integers.

Lemma Qred_inject_Z (z : Z) : Qred (inject_Z z) = inject_Z z.
Proof.
  apply Qred_identity. simpl. apply Z.gcd_1_r.
Qed.

Lemma fin_inject_Z (q : Q) (z : Z) : (q == inject_Z z)%Q -> fin q = of_Z z.
Proof.
  intros E. unfold fin, of_Z. rewrite (Qred_complete _ _ E).
  now rewrite Qred_inject_Z.
Qed.

Lemma add_of_Z (a b : Z) : of_Z a + of_Z b = of_Z (a + b).
Proof.
  apply fin_inject_Z. now rewrite inject_Z_plus.
Qed.

Lemma is_zero_inject_Z (a : Z) : is_zero (inject_Z a) = (a =? 0)%Z.
Proof. reflexivity. Qed.

Lemma is_neg_inject_Z (a : Z) : is_neg (inject_Z a) = (a <? 0)%Z.
Proof. reflexivity. Qed.

Lemma neg_of_Z (a : Z) : a <> 0%Z -> - of_Z a = of_Z (- a).
Proof.
  intros Ha. unfold neg, of_Z. rewrite is_zero_inject_Z.
  destruct (Z.eqb_spec a 0); [contradiction|].
  apply fin_inject_Z. now rewrite inject_Z_opp.
Qed.

Lemma sub_of_Z (a b : Z) : of_Z a - of_Z b = of_Z (a - b).
Proof.
  unfold sub. destruct (Z.eq_dec b 0) as [->|Hb].
  - rewrite Z.sub_0_r. reflexivity.
  - rewrite neg_of_Z by exact Hb. rewrite add_of_Z. reflexivity.
Qed.

(** The product of two integers, but for the zero product of factors of
    opposite signs, which is the negative zero. *)
Lemma mul_of_Z (a b : Z) :
  (0 <= a)%Z /\ (0 <= b)%Z \/ (a * b)%Z <> 0%Z ->
  of_Z a * of_Z b = of_Z (a * b).
Proof.
  intros H. unfold mul, of_Z. rewrite !is_neg_inject_Z.
  assert (E : xorb (a <? 0)%Z (b <? 0)%Z
              && is_zero (inject_Z a * inject_Z b) = false).
  { change (is_zero (inject_Z a * inject_Z b)) with ((a * b =? 0)%Z).
    destruct H as [[Ha Hb]|H].
    - destruct (Z.ltb_spec a 0), (Z.ltb_spec b 0); try lia. reflexivity.
    - destruct (Z.eqb_spec (a * b) 0); [contradiction | apply andb_false_r]. }
  rewrite E. apply fin_inject_Z. now rewrite inject_Z_mult.
Qed.

Lemma incr_of_Z (a : Z) : incr (of_Z a) = of_Z (a + 1).
Proof. apply add_of_Z. Qed.

Lemma le_of_Z (a b : Z) : le (of_Z a) (of_Z b) = (a <=? b)%Z.
Proof.
  unfold le, of_Z, Qle_bool. simpl. now rewrite !Z.mul_1_r.
Qed.

Lemma lt_of_Z (a b : Z) : lt (of_Z a) (of_Z b) = (a <? b)%Z.
Proof.
  unfold lt, of_Z, Qle_bool. simpl. rewrite !Z.mul_1_r.
  now rewrite Z.ltb_antisym.
Qed.

Lemma strict_eq_of_Z (a b : Z) : strict_eq (of_Z a) (of_Z b) = (a =? b)%Z.
Proof.
  unfold strict_eq, of_Z, Qeq_bool. simpl. now rewrite !Z.mul_1_r.
Qed.

Lemma max_of_Z (a b : Z) : max (of_Z a) (of_Z b) = of_Z (Z.max a b).
Proof.
  pose proof (le_of_Z a b) as E. unfold of_Z in *. unfold max. rewrite E.
  destruct (Z.leb_spec a b); do 2 f_equal; lia.
Qed.

Lemma as_index_of_Z (z : Z) :
  (0 <= z)%Z -> as_index (of_Z z) = Some (Z.to_nat z).
Proof.
  intros H. unfold as_index, of_Z. cbv zeta. rewrite Qred_inject_Z. simpl.
  destruct (Z.leb_spec 0 z); [reflexivity | lia].
Qed.

Lemma index_of_Z {A : Type} (arr : list A) (z : Z) :
  (0 <= z)%Z -> index arr (of_Z z) = nth_error arr (Z.to_nat z).
Proof.
  intros H. unfold index. now rewrite as_index_of_Z.
Qed.

(** Signs of rationals, and the operations on finite numbers away
    from the negative zero. *)
Lemma is_neg_false (q : Q) : (0 <= q)%Q -> is_neg q = false.
Proof.
  intros H. unfold is_neg. unfold Qle in H. cbn in H.
  destruct (Z.ltb_spec (Qnum q) 0); [lia | reflexivity].
Qed.

Lemma is_neg_true (q : Q) : (q < 0)%Q -> is_neg q = true.
Proof.
  intros H. unfold is_neg. unfold Qlt in H. cbn in H.
  destruct (Z.ltb_spec (Qnum q) 0); [reflexivity | lia].
Qed.

Lemma is_zero_false (q : Q) : ~ (q == 0)%Q -> is_zero q = false.
Proof.
  intros H. unfold is_zero. destruct (Z.eqb_spec (Qnum q) 0) as [E|]; [|reflexivity].
  exfalso. apply H. unfold Qeq. cbn. lia.
Qed.

Lemma is_zero_true (q : Q) : (q == 0)%Q -> is_zero q = true.
Proof.
  intros H. unfold is_zero. unfold Qeq in H. cbn in H.
  destruct (Z.eqb_spec (Qnum q) 0); [reflexivity | lia].
Qed.

Lemma is_zero_positive (q : Q) : (0 < q)%Q -> is_zero q = false.
Proof. intros H. apply is_zero_false. lra. Qed.

Lemma is_zero_negative (q : Q) : (q < 0)%Q -> is_zero q = false.
Proof. intros H. apply is_zero_false. lra. Qed.

Lemma div_fin (p q : Q) :
  ~ (q == 0)%Q -> (0 <= q)%Q \/ ~ (p == 0)%Q -> Fin p / Fin q = fin (p / q).
Proof.
  intros Hq H. unfold div. rewrite (is_zero_false q Hq).
  destruct H as [H|H].
  - rewrite (is_neg_false q H), andb_false_r. reflexivity.
  - rewrite (is_zero_false p H). reflexivity.
Qed.

Lemma mul_fin (p q : Q) :
  (0 <= p)%Q /\ (0 <= q)%Q \/ ~ (p * q == 0)%Q -> Fin p * Fin q = fin (p * q).
Proof.
  intros H. unfold mul. destruct H as [[Hp Hq]|H].
  - rewrite (is_neg_false p Hp), (is_neg_false q Hq). reflexivity.
  - rewrite (is_zero_false _ H), andb_false_r. reflexivity.
Qed.

Lemma rem_fin (p q : Q) :
  ~ (q == 0)%Q -> (0 <= p)%Q ->
  Fin p mod Fin q = fin (p - q * inject_Z (trunc (p / q))).
Proof.
  intros Hq Hp. unfold rem. rewrite (is_zero_false q Hq).
  cbv zeta. rewrite (is_neg_false p Hp). reflexivity.
Qed.

(** A difference of finite numbers is finite. *)
Lemma sub_fin (p q : Q) : exists r, Fin p - Fin q = Fin r /\ (r == p - q)%Q.
Proof.
  unfold sub, neg. destruct (is_zero q) eqn:Hz.
  - exists p. split; [reflexivity|].
    assert (q == 0)%Q.
    { unfold is_zero in Hz. unfold Qeq. cbn.
      destruct (Z.eqb_spec (Qnum q) 0); [lia | discriminate]. }
    lra.
  - eexists. split; [reflexivity|]. now rewrite !Qred_correct.
Qed.

Lemma mul_comm (a b : number) : a * b = b * a.
Proof.
  destruct a as [p| | | |], b as [q| | | |]; try reflexivity.
  unfold mul. rewrite (xorb_comm (is_neg p) (is_neg q)).
  assert (E : is_zero (p * q) = is_zero (q * p)).
  { unfold is_zero. cbn. now rewrite Z.mul_comm. }
  rewrite E. destruct (_ && _); [reflexivity|].
  unfold fin. f_equal. apply Qred_complete. apply Qmult_comm.
Qed.

End Integers.

(** ** Computations that leave the world alone *)

Section ReadOnly.

Lemma read_only_ret {A : Type} (a : A) : read_only (ret a).
Proof. intros w. reflexivity. Qed.

Lemma read_only_throw {A : Type} (e : exn) : read_only (@throw A e).
Proof. intros w. reflexivity. Qed.

Lemma read_only_timeout {A : Type} : read_only (@timeout A).
Proof. intros w. reflexivity. Qed.

Lemma read_only_emit (e : event) : read_only (emit e).
Proof. intros w. reflexivity. Qed.

Lemma read_only_on (c : context) (o : canvas_op) : read_only (on c o).
Proof. apply read_only_emit. Qed.

Lemma read_only_get_state : read_only get_state.
Proof. intros w. reflexivity. Qed.

Lemma read_only_get_page : read_only get_page.
Proof. intros w. reflexivity. Qed.

Lemma read_only_bind {A B : Type} (m : M A) (k : A -> M B) :
  read_only m -> (forall a, read_only (k a)) -> read_only (bind m k).
Proof.
  intros Hm Hk w. unfold bind, world_of.
  specialize (Hm w). unfold world_of in Hm.
  destruct (m w) as [[[a|e|] w1] ev1]; simpl in *; subst; try reflexivity.
  specialize (Hk a w). unfold world_of in Hk.
  destruct (k a w) as [[r w2] ev2]. simpl in *. assumption.
Qed.

Lemma read_only_for_loop {A : Type} (fuel : nat) cond next
    (body : number -> A -> M A) :
  (forall j acc, read_only (body j acc)) ->
  forall j acc, read_only (for_loop fuel cond next body j acc).
Proof.
  intros Hb. induction fuel as [|fuel IH]; intros j acc; simpl.
  - apply read_only_timeout.
  - destruct (cond j).
    + apply read_only_bind; [apply Hb | intros a; apply IH].
    + apply read_only_ret.
Qed.

End ReadOnly.

Create HintDb ro.

#[local] Hint Resolve read_only_ret read_only_throw read_only_timeout
  read_only_emit read_only_on read_only_get_state read_only_get_page : ro.

Ltac read_only_step :=
  match goal with
  | |- read_only (bind _ _) => apply read_only_bind; [| intro]
  | |- read_only (for_loop _ _ _ _ _ _) => apply read_only_for_loop; intros ? ?
  | |- read_only (if ?b then _ else _) => destruct b
  | |- read_only (match ?o with Some _ => _ | None => _ end) => destruct o
  | |- read_only _ => solve [auto with ro]
  | |- read_only _ => progress cbv zeta
  end.

Ltac read_only_tac := repeat read_only_step.

Section Renderers.

Lemma read_only_drawGrid fuel c w h scale detailed :
  read_only (drawGrid fuel c w h scale detailed).
Proof. unfold drawGrid. read_only_tac. Qed.
#[local] Hint Resolve read_only_drawGrid : ro.

Lemma read_only_drawCircle c cx cy r color :
  read_only (drawCircle c cx cy r color).
Proof. unfold drawCircle. read_only_tac. Qed.
#[local] Hint Resolve read_only_drawCircle : ro.

Lemma read_only_drawFrame_trace fuel d frame scale w h :
  read_only (drawFrame_trace fuel d frame scale w h).
Proof. unfold drawFrame_trace. read_only_tac. Qed.
#[local] Hint Resolve read_only_drawFrame_trace : ro.

Lemma read_only_drawFrame_rods fuel d pos scale w h :
  read_only (drawFrame_rods fuel d pos scale w h).
Proof.
  unfold drawFrame_rods. read_only_tac.
Qed.
#[local] Hint Resolve read_only_drawFrame_rods : ro.

Lemma read_only_drawFrame fuel : read_only (drawFrame fuel).
Proof.
  unfold drawFrame. read_only_tac.
Qed.
#[local] Hint Resolve read_only_drawFrame : ro.

Lemma read_only_drawGraph_path fuel d frame scale w h k :
  read_only (drawGraph_path fuel d frame scale w h k).
Proof. unfold drawGraph_path. read_only_tac. Qed.
#[local] Hint Resolve read_only_drawGraph_path : ro.

Lemma read_only_drawGraph fuel : read_only (drawGraph fuel).
Proof.
  unfold drawGraph. read_only_tac.
Qed.
#[local] Hint Resolve read_only_drawGraph : ro.

End Renderers.

#[local] Hint Resolve read_only_drawFrame read_only_drawGraph : ro.

(** ** Loops over a range of integers *)

Section Loops.

Context {A : Type}.
Variables (cond : number -> bool) (body : number -> A -> M A).
Variables (g : Z -> A -> A) (evs : Z -> A -> list event).
Variables (w : world) (hi : Z).

Hypothesis cond_spec : forall j, cond (of_Z j) = (j <? hi)%Z.

Lemma for_loop_range (count fuel : nat) (lo : Z) (acc : A) :
  Z.of_nat count = Z.max 0 (hi - lo) ->
  (count < fuel)%nat ->
  (forall j a, (lo <= j < hi)%Z -> body (of_Z j) a w = (Ok (g j a), w, evs j a)) ->
  for_loop fuel cond incr body (of_Z lo) acc w =
    (Ok (fst (iterate g evs count lo acc)), w, snd (iterate g evs count lo acc)).
Proof.
  revert fuel lo acc.
  induction count as [|count IH]; intros fuel lo acc Hc Hf Hb;
    (destruct fuel as [|fuel]; [lia|]); cbn [for_loop iterate].
  - rewrite cond_spec. destruct (Z.ltb_spec lo hi); [lia | reflexivity].
  - rewrite cond_spec. destruct (Z.ltb_spec lo hi); [| lia].
    unfold bind. rewrite Hb by lia. rewrite incr_of_Z.
    rewrite IH; [reflexivity | lia | lia |].
    intros j a Hj. apply Hb. lia.
Qed.

End Loops.

Section Ranges.

Lemma Zrange_cons (lo : Z) (count : nat) :
  Zrange lo (S count) = lo :: Zrange (lo + 1) count.
Proof.
  unfold Zrange. cbn [seq map]. rewrite Z.add_0_r. f_equal.
  rewrite <- seq_shift, map_map. apply map_ext. intros i. lia.
Qed.

Lemma Zrange_length (lo : Z) (count : nat) : List.length (Zrange lo count) = count.
Proof. unfold Zrange. now rewrite length_map, length_seq. Qed.

Lemma Zrange_bounds (lo : Z) (count : nat) (j : Z) :
  In j (Zrange lo count) <-> (lo <= j < lo + Z.of_nat count)%Z.
Proof.
  unfold Zrange. rewrite in_map_iff. split.
  - intros (i & <- & Hi). apply in_seq in Hi. lia.
  - intros Hj. exists (Z.to_nat (j - lo)). split; [lia|].
    apply in_seq. lia.
Qed.

Lemma polyline_length (c : context) (pts : list screen_pos) :
  List.length (polyline c pts) = List.length pts.
Proof. destruct pts; simpl; [reflexivity|]. now rewrite length_map. Qed.

(** A loop whose every iteration draws a segment, as long as the
    loop-carried value satisfies [P]: the path is only extended. *)
Lemma iterate_lineTo {A : Type} (P : A -> Prop) (g : Z -> A -> A) (c : context)
    (pt : Z -> screen_pos) (evs : Z -> A -> list event)
    (count : nat) (lo : Z) (acc : A) (first : Z) :
  (forall j a, P (g j a)) ->
  (forall j a, (first < j)%Z -> P a ->
     evs j a = [Canvas c (lineTo (pos_x (pt j)) (pos_y (pt j)))]) ->
  (first < lo)%Z ->
  P acc ->
  snd (iterate g evs count lo acc) =
    map (fun q => Canvas c (lineTo (pos_x q) (pos_y q))) (map pt (Zrange lo count)).
Proof.
  intros HP Hev. revert lo acc.
  induction count as [|count IH]; intros lo acc Hlo Hacc; [reflexivity|].
  rewrite Zrange_cons. cbn [iterate snd map].
  rewrite Hev by (lia || assumption). rewrite IH by (lia || apply HP). reflexivity.
Qed.

(** A loop that starts the path in its first iteration and extends it
    in the others. *)
Lemma iterate_polyline {A : Type} (P : A -> Prop) (g : Z -> A -> A) (c : context)
    (pt : Z -> screen_pos) (evs : Z -> A -> list event)
    (count : nat) (lo : Z) (acc : A) :
  (forall j a, P (g j a)) ->
  evs lo acc = [Canvas c (moveTo (pos_x (pt lo)) (pos_y (pt lo)))] ->
  (forall j a, (lo < j)%Z -> P a ->
     evs j a = [Canvas c (lineTo (pos_x (pt j)) (pos_y (pt j)))]) ->
  snd (iterate g evs (S count) lo acc) = polyline c (map pt (Zrange lo (S count))).
Proof.
  intros HP H0 Hev. rewrite Zrange_cons. cbn [iterate snd map polyline].
  rewrite H0.
  rewrite (iterate_lineTo P g c pt evs count (lo + 1) (g lo acc) lo HP Hev)
    by (lia || apply HP).
  reflexivity.
Qed.

Lemma iterate_result {A : Type} (P : A -> Prop) (g : Z -> A -> A)
    (evs : Z -> A -> list event) (count : nat) (lo : Z) (acc : A) :
  (forall j a, P (g j a)) ->
  P (fst (iterate g evs (S count) lo acc)).
Proof.
  intros HP. revert lo acc.
  induction count as [|count IH]; intros lo acc; [apply HP|].
  cbn [iterate fst] in *. apply IH.
Qed.

Lemma nth_error_frame (d : dataset) (j : Z) :
  (0 <= j < Z.of_nat (List.length (positions d)))%Z ->
  nth_error (positions d) (Z.to_nat j) = Some (frame d j).
Proof.
  intros Hj. unfold frame. apply nth_error_nth'. lia.
Qed.

End Ranges.

(** ** The trace of the scene renderer *)

Section Trace.

Variables (d : dataset) (f : Z).
Hypothesis f_in_range : (0 <= f < Z.of_nat (List.length (positions d)))%Z.

Lemma drawFrame_trace_run (fuel : nat) (scale w h : number) (wd : world) :
  (trace_count f < fuel)%nat ->
  drawFrame_trace fuel d (of_Z f) scale w h wd =
    (Ok tt, wd, trace_events (trace_points d scale w h f)).
Proof.
  intros Hfuel. unfold drawFrame_trace, CONFIG.traceLen, trace_events, trace_points.
  rewrite sub_of_Z, max_of_Z. fold (trace_start f).
  set (start := trace_start f). set (count := trace_count f).
  set (pt := body_point d scale w h (n d - of_Z 1)).
  set (body := fun (j : number) (_ : unit) => _).
  assert (Hloop : for_loop fuel (fun j => le j (of_Z f)) incr body (of_Z start) tt wd =
    (Ok tt, wd, polyline ctx (map pt (Zrange start count)))).
  { set (evs := fun (j : Z) (_ : unit) =>
        [Canvas ctx (if (j =? start)%Z then moveTo (pos_x (pt j)) (pos_y (pt j))
                     else lineTo (pos_x (pt j)) (pos_y (pt j)))]).
    rewrite (for_loop_range _ body (fun _ _ => tt) evs wd (f + 1) ) with (count := count).
    - f_equal; [f_equal; now destruct (fst _)|].
      replace count with (S (Z.to_nat (Z.min f 100)))
        by (unfold count, trace_count; lia).
      apply (iterate_polyline (fun _ => True)).
      + trivial.
      + unfold evs. now rewrite Z.eqb_refl.
      + intros j a Hj _. unfold evs. destruct (Z.eqb_spec j start); [lia | reflexivity].
    - intros j. rewrite le_of_Z.
      destruct (Z.leb_spec j f), (Z.ltb_spec j (f + 1)); lia || reflexivity.
    - unfold count, start, trace_count, trace_start. lia.
    - exact Hfuel.
    - intros j a Hj. unfold start, trace_start in Hj. unfold body.
      rewrite index_of_Z by lia. rewrite nth_error_frame by lia.
      rewrite strict_eq_of_Z. unfold evs, pt, body_point, body_x, body_y.
      rewrite (mul_comm (of_Z 2)).
      destruct (j =? start)%Z; reflexivity. }
  unfold bind, on, emit. rewrite Hloop. reflexivity.
Qed.

Lemma trace_points_length (scale w h : number) :
  List.length (trace_points d scale w h f) = trace_count f.
Proof. unfold trace_points. now rewrite length_map, Zrange_length. Qed.

Lemma drawGrid_plain (fuel : nat) (c : context) (w h scale : number) (wd : world) :
  drawGrid fuel c w h scale false wd = (Ok tt, wd, plain_grid c w h).
Proof. reflexivity. Qed.

(** [drawFrame] at the in-range frame [f]: clear, plain grid, trace,
    then whatever the rods pass does. *)
Lemma drawFrame_run (fuel : nat) (wd : world) :
  animData (st wd) = Some d ->
  frameIdx (st wd) = of_Z f ->
  (trace_count f < fuel)%nat ->
  let w := of_Z (canvas_width (els wd)) in
  let h := of_Z (canvas_height (els wd)) in
  let scale := drawFrame_scale w d in
  let rods := drawFrame_rods fuel d (Some (frame d f)) scale w h wd in
  drawFrame fuel wd =
    (outcome_of rods, wd,
     Canvas ctx (clearRect (of_Z 0) (of_Z 0) w h)
     :: plain_grid ctx w h
     ++ trace_events (trace_points d scale w h f)
     ++ events_of rods).
Proof.
  intros Hd Hf Hfuel w h scale rods.
  unfold drawFrame, bind at 1, get_state. rewrite Hd.
  unfold bind at 1, get_page. fold w h scale.
  unfold bind at 1, on, emit.
  unfold bind at 1. rewrite drawGrid_plain.
  unfold bind at 1. rewrite Hf. rewrite drawFrame_trace_run by exact Hfuel.
  rewrite index_of_Z, nth_error_frame by lia.
  pose proof (read_only_drawFrame_rods fuel d (Some (frame d f)) scale w h wd) as Hro.
  fold rods in Hro |- *. unfold world_of, outcome_of, events_of in *.
  destruct rods as [[r w'] ev]. simpl in *. subst w'.
  rewrite <- !app_assoc. reflexivity.
Qed.

End Trace.

(** ** The paths of the trajectory renderer *)

Section Trajectories.

Lemma rem_of_Z (a : Z) (b : positive) :
  (0 <= a)%Z ->
  (of_Z a) mod (of_Z (Zpos b)) = of_Z (Z.rem a (Zpos b)).
Proof.
  intros Ha. unfold of_Z. rewrite rem_fin;
    [| discriminate | rewrite <- (Zle_Qle 0); exact Ha].
  apply fin_inject_Z.
  assert (Ht : trunc (inject_Z a / inject_Z (Zpos b)) = Z.quot a (Zpos b)).
  { unfold trunc, Qdiv, Qinv, Qmult, inject_Z. cbn. now rewrite Z.mul_1_r. }
  rewrite Ht. unfold Qminus.
  rewrite <- inject_Z_mult, <- inject_Z_opp, <- inject_Z_plus.
  rewrite (Z.quot_rem' a (Zpos b)) at 1.
  apply inject_Z_injective. lia.
Qed.

Lemma color_of_palette (k : Z) : (0 <= k)%Z -> color_of (of_Z k) = palette k.
Proof.
  intros Hk. unfold color_of, palette, length_of, of_nat.
  change (Z.of_nat (List.length CONFIG.colors)) with 7%Z.
  rewrite rem_of_Z by exact Hk. rewrite Z.rem_mod_nonneg by lia.
  pose proof (Z.mod_pos_bound k 7 ltac:(lia)) as Hb.
  rewrite index_of_Z by lia.
  rewrite (nth_error_nth' _ ""); [reflexivity|].
  change (List.length CONFIG.colors) with 7%nat. lia.
Qed.

Lemma iterate_flat_map (evs : Z -> unit -> list event) (count : nat) (lo : Z) :
  snd (iterate (fun _ _ => tt) evs count lo tt) =
    flat_map (fun j => evs j tt) (Zrange lo count).
Proof.
  revert lo. induction count as [|count IH]; intros lo; [reflexivity|].
  rewrite Zrange_cons. cbn [iterate snd flat_map]. now rewrite IH.
Qed.

Variables (d : dataset) (f : Z).
Hypothesis f_in_range : (0 <= f < Z.of_nat (List.length (positions d)))%Z.

Lemma drawGraph_path_run (fuel : nat) (scale w h : number) (k : Z) (wd : world) :
  (0 <= k)%Z ->
  (Z.to_nat (f + 1) < fuel)%nat ->
  drawGraph_path fuel d (of_Z f) scale w h (of_Z k) wd =
    (Ok tt, wd, path_events d scale w h f k).
Proof.
  intros Hk Hfuel. unfold drawGraph_path, path_events, path_points.
  rewrite color_of_palette by exact Hk.
  set (pt := body_point d scale w h (of_Z k)).
  set (body := fun (j : number) (started : bool) => _).
  set (count := Z.to_nat (f + 1)).
  assert (Hloop : for_loop fuel (fun j => le j (of_Z f)) incr body (of_Z 0) false wd =
    (Ok true, wd, polyline gctx (map pt (Zrange 0 count)))).
  { set (evs := fun (j : Z) (started : bool) =>
        [Canvas gctx (if negb started then moveTo (pos_x (pt j)) (pos_y (pt j))
                      else lineTo (pos_x (pt j)) (pos_y (pt j)))]).
    rewrite (for_loop_range _ body (fun _ _ => true) evs wd (f + 1)) with (count := count).
    - replace count with (S (Z.to_nat f)) by (unfold count; lia).
      f_equal; [f_equal; f_equal|].
      { apply (iterate_result (fun a => a = true)). reflexivity. }
      apply (iterate_polyline (fun a => a = true)); [reflexivity | reflexivity |].
      intros j a Hj ->. reflexivity.
    - intros j. rewrite le_of_Z.
      destruct (Z.leb_spec j f), (Z.ltb_spec j (f + 1)); lia || reflexivity.
    - unfold count. lia.
    - exact Hfuel.
    - intros j a Hj. unfold body.
      rewrite index_of_Z by lia. rewrite nth_error_frame by lia.
      unfold evs, pt, body_point, body_x, body_y.
      destruct a; reflexivity. }
  unfold bind, on, emit. rewrite Hloop. reflexivity.
Qed.

(** [drawGraph] at the in-range frame [f] with [nb] bodies, when the
    detailed grid completes: grid, line style, then one path per body. *)
Lemma drawGraph_run (fuel : nat) (nb : Z) (wd : world) :
  animData (st wd) = Some d ->
  frameIdx (st wd) = of_Z f ->
  n d = of_Z nb ->
  (Z.to_nat (f + 1) < fuel)%nat ->
  (Z.to_nat nb < fuel)%nat ->
  let w := of_Z (graph_width (els wd)) in
  let h := of_Z (graph_height (els wd)) in
  let scale := drawGraph_scale w h d in
  let grid := drawGrid fuel gctx w h scale true wd in
  outcome_of grid = Ok tt ->
  drawGraph fuel wd =
    (Ok tt, wd,
     events_of grid
     ++ [Canvas gctx (set_lineWidth (Fin (5 # 2)));
         Canvas gctx (set_lineCap "round");
         Canvas gctx (set_lineJoin "round")]
     ++ flat_map (path_events d scale w h f) (Zrange 0 (Z.to_nat nb))).
Proof.
  intros Hd Hf Hn Hfuel Hfuel' w h scale grid Hgrid.
  unfold drawGraph, bind at 1, get_state. rewrite Hd.
  unfold bind at 1, get_page. fold w h scale.
  pose proof (read_only_drawGrid fuel gctx w h scale true wd) as Hro.
  unfold bind at 1. fold grid in Hro |- *.
  unfold world_of, outcome_of, events_of in *.
  destruct grid as [[r w'] ev]. simpl in Hro, Hgrid |- *. subst w' r.
  unfold bind, on, emit. rewrite Hf, Hn.
  set (body := fun (k : number) (_ : unit) => _).
  rewrite (for_loop_range _ body (fun _ _ => tt)
             (fun k _ => path_events d scale w h f k) wd nb)
    with (count := Z.to_nat nb).
  - rewrite iterate_flat_map. destruct (fst _). reflexivity.
  - intros j. apply lt_of_Z.
  - lia.
  - exact Hfuel'.
  - intros k a Hk. unfold body. apply drawGraph_path_run; [lia | exact Hfuel].
Qed.

End Trajectories.

(** ** The playback clock *)

Section Clock.

Lemma read_only_run {A : Type} (m : M A) (w : world) :
  read_only m -> m w = (outcome_of (m w), w, events_of (m w)).
Proof.
  intros H. specialize (H w). unfold world_of, outcome_of, events_of in *.
  destruct (m w) as [[r w'] ev]. simpl in *. now subst.
Qed.

(** Drawing both canvases leaves the world as it is. *)
Lemma read_only_redraw (fuel : nat) : read_only (drawFrame fuel ;; drawGraph fuel).
Proof. apply read_only_bind; auto with ro. Qed.

Lemma bind_get_state {A : Type} (k : state -> M A) (w : world) :
  (s <- get_state ;; k s) w = k (st w) w.
Proof. unfold bind, get_state. now destruct (k (st w) w) as [[r w'] ev]. Qed.

Lemma bind_get_page {A : Type} (k : page -> M A) (w : world) :
  (p <- get_page ;; k p) w = k (els w) w.
Proof. unfold bind, get_page. now destruct (k (els w) w) as [[r w'] ev]. Qed.

Lemma bind_set_state {A : Type} (f : state -> state) (m : M A) (w : world) :
  (set_state f ;; m) w = m {| st := f (st w); els := els w |}.
Proof. unfold bind, set_state. now destruct (m _) as [[r w'] ev]. Qed.

Lemma bind_set_page {A : Type} (f : page -> page) (m : M A) (w : world) :
  (set_page f ;; m) w = m {| st := st w; els := f (els w) |}.
Proof. unfold bind, set_page. now destruct (m _) as [[r w'] ev]. Qed.

Lemma bind_ret {A B : Type} (a : A) (k : A -> M B) (w : world) :
  (x <- ret a ;; k x) w = k a w.
Proof. unfold bind, ret. now destruct (k a w) as [[r w'] ev]. Qed.

(** A tick while playing: the frame is set, both canvases are drawn
    and, unless drawing fails, the next tick is requested. *)
Lemma animate_playing_run (fuel : nat) (now handle : Z) (w : world) (d : dataset) :
  animData (st w) = Some d ->
  isPlaying (st w) = true ->
  let s' := set_frameIdx (frame_at now (playStartTime (st w)) d) (st w) in
  let w1 := {| st := s'; els := els w |} in
  let draw := (drawFrame fuel ;; drawGraph fuel) w1 in
  animate fuel now handle w =
    match outcome_of draw with
    | Ok _ => (Ok tt, {| st := set_animId (Some handle) s'; els := els w |},
               events_of draw ++ [RequestAnimationFrame])
    | Throw e => (Throw e, w1, events_of draw)
    | Timeout => (Timeout, w1, events_of draw)
    end.
Proof.
  intros Hd Hp s' w1 draw. unfold animate.
  rewrite bind_get_state. rewrite Hd, Hp.
  unfold bind at 1. rewrite bind_set_state. fold s' w1.
  rewrite (read_only_run _ w1 (read_only_redraw fuel)). fold draw.
  destruct (outcome_of draw); reflexivity.
Qed.

Lemma animate_playing (fuel : nat) (now handle : Z) (w : world) (d : dataset) :
  animData (st w) = Some d ->
  isPlaying (st w) = true ->
  let s' := set_frameIdx (frame_at now (playStartTime (st w)) d) (st w) in
  st (after (animate fuel now handle) w) = s' \/
  st (after (animate fuel now handle) w) = set_animId (Some handle) s'.
Proof.
  intros Hd Hp s'. unfold after.
  rewrite (animate_playing_run fuel now handle w d Hd Hp).
  destruct (outcome_of _); simpl; auto.
Qed.

Lemma animate_paused (fuel : nat) (now handle : Z) (w : world) :
  isPlaying (st w) = false ->
  animate fuel now handle w =
    (Ok tt, {| st := set_animId (Some handle) (st w); els := els w |},
     [RequestAnimationFrame]).
Proof.
  intros Hp. unfold animate, bind, get_state. rewrite Hp. reflexivity.
Qed.

End Clock.

(** C1. Resuming at the last frame jumps: scenario 1 plays from the
    instant 0 and a tick at 45000 ms shows frame 2, the last one; the
    play/pause button is clicked twice at that same instant (pause,
    resume), and the tick at that instant shows frame 0.  The resume
    branch divides by [positions.length - 1], so the progress it
    restores is 1, which wraps to 0. *)
Theorem resume_at_last_frame_jumps :
  let w1 := after (animate 100 45000 2) (playing scenario1 0) in
  let w2 := after (play_click 100 45000 true) w1 in
  let w3 := after (play_click 100 45000 true) w2 in
  let w4 := after (animate 100 45000 3) w3 in
  frameIdx (st w1) = of_Z 2
  /\ isPlaying (st w2) = false /\ frameIdx (st w2) = of_Z 2
  /\ isPlaying (st w3) = true /\ frameIdx (st w3) = of_Z 2
  /\ playStartTime (st w3) = of_Z (-15000)
  /\ frameIdx (st w4) = of_Z 0.
Proof. vm_compute. repeat split. Qed.

(** The same division breaks the range of the frame index on a dataset
    with a single frame: from the initial world, the exchange settles to
    a one-frame dataset (frame 0, in range), a tick keeps frame 0, the
    play/pause button pauses and then resumes; the resume divides 0 by
    [positions.length - 1 = 0], the origin becomes [NaN], and the next
    tick sets the frame index to [NaN], on which [drawFrame] throws. *)
Theorem single_frame_resume_breaks_range :
  let ok := Json (Some {| success := true; message := None;
                          animation_data := Some single_frame |}) in
  let w1 := after (run_settled 100 ok 0) world0 in
  let w2 := after (animate 100 15000 1) w1 in
  let w3 := after (play_click 100 20000 true) w2 in
  let w4 := after (play_click 100 30000 true) w3 in
  let w5 := after (animate 100 40000 2) w4 in
  frame_in_range (st w1) = true
  /\ frame_in_range (st w2) = true
  /\ frame_in_range (st w3) = true
  /\ frame_in_range (st w4) = true
  /\ playStartTime (st w4) = NaN
  /\ frameIdx (st w5) = NaN
  /\ frame_in_range (st w5) = false
  /\ outcome_of (animate 100 40000 2 w4) = Throw undefined_property.
Proof. vm_compute. repeat split. Qed.

(** ** The run request *)

Section Run.

Lemma read_only_getSimInputs (fuel : nat) (count : number) :
  read_only (getSimInputs fuel count).
Proof.
  unfold getSimInputs. apply read_only_bind; [auto with ro | intros p].
  apply read_only_bind.
  - apply read_only_for_loop. intros i [[m l] th].
    destruct (input_value p "m" i); [| auto with ro].
    destruct (input_value p "L" i); [| auto with ro].
    destruct (input_value p "th" i); auto with ro.
  - intros [[m l] th]. auto with ro.
Qed.

(** The run listener asks for confirmation above 20 pendulums and
    returns if it is refused; otherwise it shows the loader, pauses,
    gathers the inputs and calls [fetch]. *)
Lemma run_click_run (fuel : nat) (confirmed : bool) (w : world) :
  let count := n_value (els w) in
  let asked := if gt count (of_Z 20) then [Confirm count] else [] in
  let inputs := getSimInputs fuel count (requesting w) in
  run_click fuel confirmed w =
    if gt count (of_Z 20) && negb confirmed then (Ok tt, w, asked)
    else
      match outcome_of inputs with
      | Ok body => (Ok tt, requesting w, asked ++ events_of inputs ++ [Fetch body])
      | Throw e => (Throw e, requesting w, asked ++ events_of inputs)
      | Timeout => (Timeout, requesting w, asked ++ events_of inputs)
      end.
Proof.
  intros count asked inputs. unfold run_click.
  rewrite bind_get_page. fold count.
  assert (Hgo : forall k : M unit,
    (set_page (set_loader_display "block") ;;
     set_state (set_isPlaying false) ;;
     set_page (set_play_textContent "Play") ;; k) w = k (requesting w)).
  { intros k. now rewrite bind_set_page, bind_set_state, bind_set_page. }
  pose proof (read_only_getSimInputs fuel count (requesting w)) as Hro.
  subst inputs asked.
  destruct (gt count (of_Z 20)); [destruct confirmed|]; cbn [andb negb].
  - unfold bind at 1. unfold bind at 1. unfold emit at 1, ret at 1.
    cbn [negb]. rewrite Hgo. unfold bind at 1.
    unfold world_of, outcome_of, events_of in *.
    destruct (getSimInputs fuel count (requesting w)) as [[r w'] ev].
    simpl in *. subst w'. destruct r; reflexivity.
  - reflexivity.
  - rewrite bind_ret. cbn [negb]. rewrite Hgo. unfold bind at 1.
    unfold world_of, outcome_of, events_of in *.
    destruct (getSimInputs fuel count (requesting w)) as [[r w'] ev].
    simpl in *. subst w'. destruct r; reflexivity.
Qed.

Lemma getSimInputs_silent (fuel : nat) (count : number) (w : world) :
  events_of (getSimInputs fuel count w) = [].
Proof.
  unfold getSimInputs. rewrite bind_get_page.
  set (body := fun (i : number) (acc : list string * list string * list string) => _).
  assert (H : forall fuel j acc,
    events_of (for_loop fuel (fun i => le i count) incr body j acc w) = []
    /\ world_of (for_loop fuel (fun i => le i count) incr body j acc w) = w).
  { clear fuel. induction fuel as [|fuel IH]; intros j acc; [split; reflexivity|].
    cbn [for_loop]. destruct (le j count); [| split; reflexivity].
    unfold bind.
    assert (Hb : body j acc w = (outcome_of (body j acc w), w, [])).
    { unfold body. destruct acc as [[m l] th].
      destruct (input_value (els w) "m" j); [| reflexivity].
      destruct (input_value (els w) "L" j); [| reflexivity].
      destruct (input_value (els w) "th" j); reflexivity. }
    rewrite Hb. destruct (outcome_of (body j acc w)); try (split; reflexivity).
    specialize (IH (incr j) a). unfold events_of, world_of in *.
    destruct (for_loop fuel _ incr body (incr j) a w) as [[r w'] ev].
    simpl in *. exact IH. }
  specialize (H fuel (of_Z 1) ([], [], [])). unfold bind, events_of, world_of in *.
  destruct (for_loop fuel _ incr body (of_Z 1) ([], [], []) w) as [[r w'] ev].
  simpl in H. destruct H as [-> ->].
  destruct r as [[[m l] th]| |]; reflexivity.
Qed.

(** A failed exchange: one alert with the message, the loader hidden,
    the state untouched. *)
Lemma run_settled_failure (fuel : nat) (r : response) (now : Z) (w : world)
    (msg : string) :
  failure_message r = Some msg ->
  run_settled fuel r now w =
    (Ok tt, {| st := st w; els := set_loader_display "none" (els w) |},
     [Alert (String.append "Error: " msg)]).
Proof.
  intros H. destruct r as [m|m|m|[data|]]; simpl in H.
  1-3: injection H as <-; reflexivity.
  - destruct (success data) eqn:E; [discriminate|]. injection H as <-.
    unfold run_settled, finally, catch, bind, ret. cbn [negb]. rewrite E.
    reflexivity.
  - injection H as <-. reflexivity.
Qed.

(** Installing a dataset sets the four playback fields, whatever
    drawing does afterwards. *)
Lemma load_state (fuel : nat) (d : option dataset) (now : Z) (w : world) :
  after (load fuel d now) w =
    {| st := {| animData := d; isPlaying := true; frameIdx := of_Z 0;
                animId := animId (st w); playStartTime := of_Z now |};
       els := set_play_textContent "Pause" (els w) |}.
Proof.
  unfold after, load.
  rewrite !bind_set_state, bind_set_page, bind_set_state.
  apply read_only_redraw.
Qed.

End Run.

(** C4 (as amended). A run whose request has been issued and whose
    exchange fails (fetch rejected, response not ok, body not JSON or
    null, or a payload with [success] false) raises exactly one alert,
    "Error: " followed by the message, and leaves the dataset, the frame
    index, the origin and the animation id as they were before the
    click; the only change to the state is [isPlaying], which the click
    set to false when it issued the request. *)
Theorem failed_run_only_pauses (fuel : nat) (confirmed : bool) (r : response)
    (now : Z) (w : world) (msg : string) (body : sim_inputs) :
  failure_message r = Some msg ->
  In (Fetch body) (events_of (run_click fuel confirmed w)) ->
  let w1 := after (run_click fuel confirmed) w in
  let settled := run_settled fuel r now w1 in
  outcome_of settled = Ok tt
  /\ events_of settled = [Alert (String.append "Error: " msg)]
  /\ st (world_of settled) = set_isPlaying false (st w)
  /\ animData (st (world_of settled)) = animData (st w)
  /\ frameIdx (st (world_of settled)) = frameIdx (st w)
  /\ playStartTime (st (world_of settled)) = playStartTime (st w)
  /\ isPlaying (st (world_of settled)) = false.
Proof.
  intros Hfail Hfetch w1 settled.
  assert (Hw1 : st w1 = set_isPlaying false (st w)).
  { subst w1. unfold after. revert Hfetch.
    rewrite (run_click_run fuel confirmed w). cbv zeta.
    rewrite getSimInputs_silent.
    destruct (gt (n_value (els w)) (of_Z 20) && negb confirmed).
    - destruct (gt (n_value (els w)) (of_Z 20)); simpl; intros H;
        [destruct H as [H|[]]; discriminate H | destruct H].
    - destruct (outcome_of _); try reflexivity; simpl;
        destruct (gt (n_value (els w)) (of_Z 20)); simpl; intros H;
        repeat (destruct H as [H|H]; [discriminate H|]); destruct H. }
  subst settled. rewrite (run_settled_failure fuel r now w1 msg Hfail).
  simpl. rewrite Hw1. repeat split.
Qed.

Lemma failed_run_only_pauses_witness :
  let w1 := after (run_click 100 true) (playing scenario1 2) in
  events_of (run_settled 100 (HttpError "invalid mass") 50000 w1) =
    [Alert "Error: invalid mass"]
  /\ st (after (run_settled 100 (HttpError "invalid mass") 50000) w1) =
     set_isPlaying false (st (playing scenario1 2)).
Proof.
  pose proof (failed_run_only_pauses 100 true (HttpError "invalid mass") 50000
                (playing scenario1 2) "invalid mass"
                {| req_n := of_Z 2; masses := "1.0,1.0"; lengths := "1.0,1.0";
                   initial_angles := "1.0,1.0"; t_max := of_Z 60;
                   n_points := of_Z 8000 |}
                eq_refl (or_introl eq_refl)) as (_ & Hev & Hst & _).
  split; [exact Hev | exact Hst].
Defined.

(** C4 as stated fails: scenario 1 is playing, the run button is
    clicked, the request is issued and answered with a non-success
    response of body "invalid mass"; the dataset is kept and one alert
    is raised, but playback, which was on, is now off. *)
Lemma failed_run_changes_isPlaying :
  let w := playing scenario1 2 in
  let w1 := after (run_click 100 true) w in
  let w2 := after (run_settled 100 (HttpError "invalid mass") 50000) w1 in
  (exists body, events_of (run_click 100 true w) = [Fetch body])
  /\ events_of (run_settled 100 (HttpError "invalid mass") 50000 w1) =
     [Alert "Error: invalid mass"]
  /\ animData (st w2) = animData (st w)
  /\ isPlaying (st w) = true
  /\ isPlaying (st w2) = false
  /\ st w2 <> st w.
Proof.
  cbv zeta. split; [eexists; vm_compute; reflexivity|].
  vm_compute. repeat split. discriminate.
Qed.

Section Load.

Lemma run_settled_success (fuel : nat) (data : payload) (now : Z) (w : world) :
  success data = true ->
  st (after (run_settled fuel (Json (Some data)) now) w) =
  st (after (load fuel (animation_data data) now) w).
Proof.
  intros Hs. unfold after, run_settled, finally, catch.
  rewrite bind_ret. rewrite Hs. cbn [negb].
  destruct (load fuel (animation_data data) now w) as [[[[]|e|] w'] ev];
    reflexivity.
Qed.

End Load.

(** C5 (as amended). Installing a dataset replaces the stored dataset,
    sets the frame index to 0, the play flag to true and the origin to
    [now], for every dataset: there is no check of the frame list, and a
    successful exchange installs whatever dataset it carries. *)
Theorem load_replaces_any_dataset (fuel : nat) (d : dataset) (now : Z) (w : world) :
  let loaded :=
    {| animData := Some d; isPlaying := true; frameIdx := of_Z 0;
       animId := animId (st w); playStartTime := of_Z now |} in
  st (after (load fuel (Some d) now) w) = loaded
  /\ forall msg,
       st (after (run_settled fuel
                    (Json (Some {| success := true; message := msg;
                                   animation_data := Some d |})) now) w) = loaded.
Proof.
  intros loaded. split.
  - rewrite load_state. reflexivity.
  - intros msg. rewrite run_settled_success by reflexivity.
    cbn [animation_data]. rewrite load_state. reflexivity.
Qed.

(** C5 as stated fails: a successful exchange that carries a dataset
    with an empty frame list is not a silent no-op.  From the initial
    world the dataset is installed, playback is switched on and the
    origin is set; [drawFrame] then throws on the missing frame and the
    error is alerted. *)
Lemma load_without_frames_changes_state :
  let ok := Json (Some {| success := true; message := None;
                          animation_data := Some no_frames |}) in
  let settled := run_settled 100 ok 5000 world0 in
  animData (st world0) = None
  /\ isPlaying (st world0) = false
  /\ animData (st (world_of settled)) = Some no_frames
  /\ isPlaying (st (world_of settled)) = true
  /\ playStartTime (st (world_of settled)) = of_Z 5000
  /\ st (world_of settled) <> st world0
  /\ outcome_of (load 100 (Some no_frames) 5000 world0) = Throw undefined_property
  /\ last (events_of settled) RequestAnimationFrame =
     Alert "Error: Cannot read properties of undefined".
Proof. vm_compute. repeat split. discriminate. Qed.

Section Request.

Lemma iterate_collect (fm fl fth : Z -> string) (evs : Z -> _ -> list event)
    (count : nat) (lo : Z) (m l th : list string) :
  fst (iterate
         (fun j '(m, l, th) => (m ++ [fm j], l ++ [fl j], th ++ [fth j]))
         evs count lo (m, l, th)) =
    (m ++ map fm (Zrange lo count),
     l ++ map fl (Zrange lo count),
     th ++ map fth (Zrange lo count)).
Proof.
  revert lo m l th. induction count as [|count IH]; intros lo m l th.
  - cbn. now rewrite !app_nil_r.
  - rewrite Zrange_cons. cbn [iterate fst map]. rewrite IH.
    now rewrite <- !app_assoc.
Qed.

Lemma iterate_silent {A : Type} (g : Z -> A -> A) (count : nat) (lo : Z) (acc : A) :
  snd (iterate g (fun _ _ => []) count lo acc) = [].
Proof.
  revert lo acc. induction count as [|count IH]; intros lo acc; [reflexivity|].
  cbn [iterate snd]. now rewrite IH.
Qed.

(** With a field for every pendulum from 1 to [k], [getSimInputs]
    returns their values in order. *)
Lemma getSimInputs_run (fuel : nat) (k : Z) (w : world) (fm fl fth : Z -> string) :
  (forall i, (1 <= i <= k)%Z ->
     input_value (els w) "m" (of_Z i) = Some (fm i)
     /\ input_value (els w) "L" (of_Z i) = Some (fl i)
     /\ input_value (els w) "th" (of_Z i) = Some (fth i)) ->
  (Z.to_nat k < fuel)%nat ->
  getSimInputs fuel (of_Z k) w =
    (Ok {| req_n := of_Z k;
           masses := String.concat "," (map fm (Zrange 1 (Z.to_nat k)));
           lengths := String.concat "," (map fl (Zrange 1 (Z.to_nat k)));
           initial_angles := String.concat "," (map fth (Zrange 1 (Z.to_nat k)));
           t_max := of_Z 60;
           n_points := of_Z 8000 |}, w, []).
Proof.
  intros Hfields Hfuel. unfold getSimInputs. rewrite bind_get_page.
  set (body := fun (i : number) (acc : list string * list string * list string) => _).
  unfold bind.
  rewrite (for_loop_range _ body
             (fun j '(m, l, th) => (m ++ [fm j], l ++ [fl j], th ++ [fth j]))
             (fun _ _ => []) w (k + 1)) with (count := Z.to_nat k).
  - rewrite iterate_collect, iterate_silent. reflexivity.
  - intros j. rewrite le_of_Z.
    destruct (Z.leb_spec j k), (Z.ltb_spec j (k + 1)); lia || reflexivity.
  - lia.
  - exact Hfuel.
  - intros j [[m l] th] Hj. unfold body.
    destruct (Hfields j ltac:(lia)) as (-> & -> & ->). reflexivity.
Qed.

(** A pendulum from 1 to [k] with a field missing makes [getSimInputs]
    throw. *)
Lemma getSimInputs_missing (fuel : nat) (k j : Z) (w : world) :
  (1 <= j <= k)%Z ->
  input_value (els w) "m" (of_Z j) = None
  \/ input_value (els w) "L" (of_Z j) = None
  \/ input_value (els w) "th" (of_Z j) = None ->
  (Z.to_nat k < fuel)%nat ->
  outcome_of (getSimInputs fuel (of_Z k) w) = Throw undefined_property.
Proof.
  intros Hj Hmiss Hfuel. unfold getSimInputs. rewrite bind_get_page.
  set (body := fun (i : number) (acc : list string * list string * list string) => _).
  assert (Hloop : forall (count fuel : nat) (lo : Z) acc,
      Z.of_nat count = (k + 1 - lo)%Z -> (lo <= j)%Z -> (count < fuel)%nat ->
      outcome_of (for_loop fuel (fun i => le i (of_Z k)) incr body (of_Z lo) acc w)
      = Throw undefined_property).
  { clear Hfuel fuel. induction count as [|count IH]; intros fuel lo acc Hc Hlo Hf;
      [lia|].
    destruct fuel as [|fuel]; [lia|]. cbn [for_loop]. rewrite le_of_Z.
    destruct (Z.leb_spec lo k); [|lia].
    unfold bind.
    destruct (input_value (els w) "m" (of_Z lo)) as [mv|] eqn:Em;
      [| unfold body; destruct acc as [[m l] th]; rewrite Em; reflexivity].
    destruct (input_value (els w) "L" (of_Z lo)) as [lv|] eqn:El;
      [| unfold body; destruct acc as [[m l] th]; rewrite Em, El; reflexivity].
    destruct (input_value (els w) "th" (of_Z lo)) as [tv|] eqn:Et;
      [| unfold body; destruct acc as [[m l] th]; rewrite Em, El, Et; reflexivity].
    assert (Hne : lo <> j).
    { intros ->. destruct Hmiss as [Hx|[Hx|Hx]]; congruence. }
    assert (Hb : body (of_Z lo) acc w =
                 (Ok (let '(m, l, th) := acc in (m ++ [mv], l ++ [lv], th ++ [tv])),
                  w, [])).
    { unfold body. destruct acc as [[m l] th]. rewrite Em, El, Et. reflexivity. }
    rewrite Hb. rewrite incr_of_Z.
    specialize (IH fuel (lo + 1)%Z
                  (let '(m, l, th) := acc in (m ++ [mv], l ++ [lv], th ++ [tv]))
                  ltac:(lia) ltac:(lia) ltac:(lia)).
    unfold outcome_of in *.
    destruct (for_loop fuel _ incr body (of_Z (lo + 1)) _ w) as [[r w'] ev].
    simpl in *. exact IH. }
  specialize (Hloop (Z.to_nat k) fuel 1%Z ([], [], []) ltac:(lia) ltac:(lia) Hfuel).
  unfold bind, outcome_of in *.
  destruct (for_loop fuel _ incr body (of_Z 1) _ w) as [[r w'] ev].
  simpl in *. now subst r.
Qed.

End Request.

Section ClickRun.

(** The click on run that the play listener dispatches: what the run
    listener does, with its exception, if any, reported and not thrown. *)
Lemma click_run_run (fuel : nat) (confirmed : bool) (w : world) :
  let count := n_value (els w) in
  let asked := if gt count (of_Z 20) then [Confirm count] else [] in
  let inputs := getSimInputs fuel count (requesting w) in
  click_run fuel confirmed w =
    if gt count (of_Z 20) && negb confirmed then (Ok tt, w, asked)
    else
      match outcome_of inputs with
      | Ok body => (Ok tt, requesting w, asked ++ [Fetch body])
      | Throw e => (Ok tt, requesting w, asked ++ [Reported e])
      | Timeout => (Timeout, requesting w, asked)
      end.
Proof.
  intros count asked inputs. unfold click_run, catch.
  rewrite (run_click_run fuel confirmed w). cbv zeta. fold count asked inputs.
  unfold inputs at 2 3 4. rewrite getSimInputs_silent.
  destruct (gt count (of_Z 20) && negb confirmed); [reflexivity|].
  destruct (outcome_of inputs); cbn [app]; unfold emit;
    rewrite ?app_nil_r; reflexivity.
Qed.

Lemma play_click_without_dataset (fuel : nat) (now : Z) (confirmed : bool)
    (w : world) :
  animData (st w) = None ->
  play_click fuel now confirmed w = click_run fuel confirmed w.
Proof.
  intros Hd. unfold play_click. rewrite bind_get_state. now rewrite Hd.
Qed.

End ClickRun.

(** C10 (as amended). With no dataset loaded, a click on play/pause
    does not run the toggle: it clicks the run button.  Above 20
    pendulums the run listener asks for confirmation and, refused, stops
    there: nothing changes and no request is sent.  Otherwise it shows
    the loader, sets [isPlaying] to false and the label to "Play" (the
    origin, the frame index and the dataset stay as they are) and reads
    the fields of the pendulums: if they can all be read it sends one
    request, with the fields of pendulums 1 to [k] when the count is the
    integer [k]; if one is missing the exception is reported, the play
    listener returns normally and no request is sent.  In no case is
    [isPlaying] switched on. *)
Theorem play_without_dataset_runs (fuel : nat) (now : Z) (confirmed : bool)
    (w : world) :
  animData (st w) = None ->
  let count := n_value (els w) in
  let asked := if gt count (of_Z 20) then [Confirm count] else [] in
  let refused := gt count (of_Z 20) && negb confirmed in
  let inputs := getSimInputs fuel count (requesting w) in
  let clicked := play_click fuel now confirmed w in
  (refused = true -> clicked = (Ok tt, w, [Confirm count]))
  /\ (refused = false ->
      world_of clicked = requesting w
      /\ (forall body, outcome_of inputs = Ok body ->
            clicked = (Ok tt, requesting w, asked ++ [Fetch body]))
      /\ (forall e, outcome_of inputs = Throw e ->
            clicked = (Ok tt, requesting w, asked ++ [Reported e]))
      /\ (forall (k : Z) (fm fl fth : Z -> string),
            count = of_Z k ->
            (forall i, (1 <= i <= k)%Z ->
               input_value (els w) "m" (of_Z i) = Some (fm i)
               /\ input_value (els w) "L" (of_Z i) = Some (fl i)
               /\ input_value (els w) "th" (of_Z i) = Some (fth i)) ->
            (Z.to_nat k < fuel)%nat ->
            clicked =
              (Ok tt, requesting w,
               asked ++
               [Fetch {| req_n := of_Z k;
                         masses := String.concat "," (map fm (Zrange 1 (Z.to_nat k)));
                         lengths := String.concat "," (map fl (Zrange 1 (Z.to_nat k)));
                         initial_angles :=
                           String.concat "," (map fth (Zrange 1 (Z.to_nat k)));
                         t_max := of_Z 60;
                         n_points := of_Z 8000 |}])))
  /\ (isPlaying (st (world_of clicked)) = true ->
      refused = true /\ world_of clicked = w)
  /\ animData (st (world_of clicked)) = None
  /\ frameIdx (st (world_of clicked)) = frameIdx (st w)
  /\ playStartTime (st (world_of clicked)) = playStartTime (st w).
Proof.
  intros Hd count asked refused inputs clicked.
  assert (E : clicked =
            if refused then (Ok tt, w, asked)
            else match outcome_of inputs with
                 | Ok body => (Ok tt, requesting w, asked ++ [Fetch body])
                 | Throw e => (Ok tt, requesting w, asked ++ [Reported e])
                 | Timeout => (Timeout, requesting w, asked)
                 end).
  { subst clicked. rewrite (play_click_without_dataset fuel now confirmed w Hd).
    apply click_run_run. }
  assert (Hasked : refused = true -> asked = [Confirm count]).
  { unfold refused, asked. destruct (gt count (of_Z 20)); [reflexivity | discriminate]. }
  rewrite E. clear E. destruct refused.
  - rewrite (Hasked eq_refl). cbn [world_of fst snd].
    split; [reflexivity|]. split; [discriminate|]. auto.
  - split; [discriminate|]. split.
    + intros _. split; [destruct (outcome_of inputs); reflexivity|].
      split; [intros body ->; reflexivity|].
      split; [intros e ->; reflexivity|].
      intros k fm fl fth Hk Hfields Hfuel. unfold inputs. rewrite Hk.
      rewrite (getSimInputs_run fuel k (requesting w) fm fl fth Hfields Hfuel).
      reflexivity.
    + assert (Hw : world_of
                     match outcome_of inputs with
                     | Ok body => (Ok tt, requesting w, asked ++ [Fetch body])
                     | Throw e => (Ok tt, requesting w, asked ++ [Reported e])
                     | Timeout => (@Timeout unit, requesting w, asked)
                     end = requesting w).
      { destruct (outcome_of inputs); reflexivity. }
      rewrite Hw. cbn. split; [discriminate|]. auto.
Qed.

Lemma play_without_dataset_runs_witness :
  play_click 100 7000 false world0 =
    (Ok tt, requesting world0,
     [Fetch {| req_n := of_Z 2; masses := "1.0,1.0"; lengths := "1.0,1.0";
               initial_angles := "1.0,1.0"; t_max := of_Z 60;
               n_points := of_Z 8000 |}]).
Proof.
  destruct (play_without_dataset_runs 100 7000 false world0 eq_refl)
    as (_ & H & _).
  destruct (H eq_refl) as (_ & _ & _ & Hk).
  apply (Hk 2%Z (fun _ => "1.0") (fun _ => "1.0") (fun _ => "1.0")).
  - reflexivity.
  - intros i Hi. repeat split.
  - simpl. lia.
Defined.

(** C10 as stated fails: a click on play/pause with no dataset does not
    always issue a request, and it can change the play flag.  With 21
    pendulums and the confirmation refused, the click only asks: no
    request is sent.  And when a successful response without
    [animation_data] has left the state with no dataset and [isPlaying]
    true, the click (2 pendulums) sets [isPlaying] to false. *)
Lemma play_without_dataset_refused :
  let w := {| st := initial_state; els := set_n_value (of_Z 21) page400 |} in
  let ok := Json (Some {| success := true; message := None;
                          animation_data := None |}) in
  let w1 := after (run_settled 100 ok 5000) world0 in
  animData (st w) = None
  /\ play_click 100 7000 false w = (Ok tt, w, [Confirm (of_Z 21)])
  /\ (forall body, ~ In (Fetch body) (events_of (play_click 100 7000 false w)))
  /\ animData (st w1) = None
  /\ isPlaying (st w1) = true
  /\ isPlaying (st (after (play_click 100 7000 true) w1)) = false.
Proof.
  cbv zeta. split; [reflexivity|]. split; [reflexivity|].
  split; [| vm_compute; repeat split].
  intros body H. vm_compute in H. destruct H as [H|[]]. discriminate H.
Qed.

(** ** The coordinate mapper and the scale *)

Section Mapper.

(** Products and opposites of finite numbers are finite, with the
    expected value; the sign of a zero is not part of the value. *)
Lemma neg_value (a : number) (p : Q) :
  value a = Some p -> exists r, value (- a) = Some r /\ (r == - p)%Q.
Proof.
  destruct a as [q| | | |]; try discriminate; intros [= <-].
  - unfold neg. destruct (is_zero q) eqn:Hz.
    + exists 0%Q. split; [reflexivity|].
      unfold is_zero in Hz. apply Z.eqb_eq in Hz.
      unfold Qeq, Qopp. cbn. rewrite Hz. reflexivity.
    + eexists. split; [reflexivity|]. apply Qred_correct.
  - exists 0%Q. split; reflexivity.
Qed.

Lemma zero_value (negative : bool) : value (zero negative) = Some 0%Q.
Proof. destruct negative; reflexivity. Qed.

Lemma mul_value (a b : number) (p q : Q) :
  value a = Some p -> value b = Some q ->
  exists r, value (a * b) = Some r /\ (r == p * q)%Q.
Proof.
  destruct a as [p'| | | |]; try discriminate; intros [= <-];
    destruct b as [q'| | | |]; try discriminate; intros [= <-].
  - unfold mul. destruct (_ && _) eqn:E.
    + exists 0%Q. split; [reflexivity|].
      apply andb_prop in E. destruct E as [_ E].
      unfold is_zero in E. apply Z.eqb_eq in E.
      unfold Qeq. cbn in *. rewrite E. reflexivity.
    + eexists. split; [reflexivity|]. apply Qred_correct.
  - exists 0%Q. split; [apply zero_value | ring].
  - exists 0%Q. split; [apply zero_value | ring].
  - exists 0%Q. split; [reflexivity | ring].
Qed.

Lemma add_value_fin (a : number) (p q : Q) :
  value a = Some p -> exists r, a + Fin q = Fin r /\ (r == p + q)%Q.
Proof.
  destruct a as [p'| | | |]; try discriminate; intros [= <-].
  - eexists. split; [reflexivity|]. apply Qred_correct.
  - exists q. split; [reflexivity | ring].
Qed.

Lemma half_fin (w : Z) :
  exists r, of_Z w / of_Z 2 = Fin r /\ (r == inject_Z w / 2)%Q.
Proof.
  unfold of_Z. rewrite div_fin; [| discriminate | left; discriminate].
  eexists. split; [reflexivity|]. apply Qred_correct.
Qed.

(** On finite arguments the mapper computes the rational formula. *)
Lemma getScreenPos_finite (x y s : Q) (w h : Z) :
  exists px py : Q,
    getScreenPos (Fin x) (Fin y) (Fin s) (of_Z w) (of_Z h) =
      {| pos_x := Fin px; pos_y := Fin py |}
    /\ (px == x * s + inject_Z w / 2)%Q
    /\ (py == - y * s + inject_Z h / 2)%Q.
Proof.
  unfold getScreenPos.
  destruct (half_fin w) as (hw & -> & Hw). destruct (half_fin h) as (hh & -> & Hh).
  destruct (mul_value (Fin x) (Fin s) x s eq_refl eq_refl) as (xs & Hxs & Exs).
  destruct (neg_value (Fin y) y eq_refl) as (ny & Hny & Eny).
  destruct (mul_value (- Fin y) (Fin s) ny s Hny eq_refl) as (ys & Hys & Eys).
  destruct (add_value_fin _ xs hw Hxs) as (px & -> & Epx).
  destruct (add_value_fin _ ys hh Hys) as (py & -> & Epy).
  exists px, py. split; [reflexivity|].
  split; [rewrite Epx, Exs, Hw | rewrite Epy, Eys, Eny, Hh]; reflexivity.
Qed.

Lemma div_by_zero (p q : Q) :
  (0 < p)%Q -> (q == 0)%Q -> Fin p / Fin q = PosInf.
Proof.
  intros Hp Hq. unfold div, is_zero, is_neg.
  assert (Qnum q = 0)%Z as ->.
  { unfold Qeq in Hq. simpl in Hq. lia. }
  assert (0 < Qnum p)%Z.
  { unfold Qlt in Hp. simpl in Hp. lia. }
  simpl. destruct (Z.eqb_spec (Qnum p) 0); [lia|].
  destruct (Z.ltb_spec (Qnum p) 0); [lia | reflexivity].
Qed.

Lemma half_positive (w : Z) :
  (0 < w)%Z -> exists p, of_Z w / of_Z 2 = Fin p /\ (0 < p)%Q.
Proof.
  intros Hw. destruct (half_fin w) as (r & -> & E). exists r.
  split; [reflexivity|]. rewrite E.
  assert (0 < inject_Z w)%Q by (rewrite <- (Zlt_Qlt 0); lia).
  apply Qlt_shift_div_l; lra.
Qed.

End Mapper.


(** C8. At an in-range frame [f] the trace pass of [drawFrame] is one
    path through the points of body [n - 1] at the frames
    [max(0, f - 100)], ..., [f], in order: no frame before 0 or after
    [f], and [min(f, 100) + 1] points. *)
Theorem trace_of_last_body (fuel : nat) (w : world) (d : dataset) (f : Z) :
  animData (st w) = Some d ->
  frameIdx (st w) = of_Z f ->
  (0 <= f < Z.of_nat (List.length (positions d)))%Z ->
  (Z.to_nat (Z.min f 100 + 1) < fuel)%nat ->
  let cw := of_Z (canvas_width (els w)) in
  let ch := of_Z (canvas_height (els w)) in
  let scale := drawFrame_scale cw d in
  let frames := Zrange (Z.max 0 (f - 100)) (Z.to_nat (Z.min f 100 + 1)) in
  let pts := map (body_point d scale cw ch (n d - of_Z 1)) frames in
  events_of (drawFrame fuel w) =
    Canvas ctx (clearRect (of_Z 0) (of_Z 0) cw ch)
    :: plain_grid ctx cw ch
    ++ trace_events pts
    ++ events_of (drawFrame_rods fuel d (Some (frame d f)) scale cw ch w)
  /\ (forall j, In j frames <-> (Z.max 0 (f - 100) <= j <= f)%Z)
  /\ (forall j, In j frames -> (0 <= j <= f)%Z)
  /\ List.length pts = Z.to_nat (Z.min f 100 + 1).
Proof.
  intros Hd Hf Hr Hfuel cw ch scale frames pts.
  assert (Hin : forall j, In j frames <-> (Z.max 0 (f - 100) <= j <= f)%Z).
  { intros j. unfold frames. rewrite Zrange_bounds. lia. }
  split; [| split; [exact Hin | split]].
  - rewrite (drawFrame_run d f Hr fuel w Hd Hf Hfuel). reflexivity.
  - intros j Hj. apply Hin in Hj. lia.
  - unfold pts, frames. now rewrite length_map, Zrange_length.
Qed.

Lemma trace_of_last_body_witness :
  List.length
    (map (body_point scenario1 (drawFrame_scale (of_Z 400) scenario1)
            (of_Z 400) (of_Z 400) (n scenario1 - of_Z 1))
         (Zrange (Z.max 0 (2 - 100)) (Z.to_nat (Z.min 2 100 + 1)))) = 3%nat.
Proof.
  destruct (trace_of_last_body 100 (playing scenario1 2) scenario1 2
              eq_refl eq_refl) as (_ & _ & _ & H).
  - simpl. lia.
  - simpl. lia.
  - exact H.
Defined.

(** ** Fuel *)

Section Fuel.

(** A loop that completes keeps its result when given more fuel. *)
Lemma for_loop_more_fuel {A : Type} cond next (body : number -> A -> M A)
    (fuel fuel' : nat) (j : number) (acc : A) (w w' : world) (a : A) ev :
  for_loop fuel cond next body j acc w = (Ok a, w', ev) ->
  (fuel <= fuel')%nat ->
  for_loop fuel' cond next body j acc w = (Ok a, w', ev).
Proof.
  revert fuel' j acc w ev.
  induction fuel as [|fuel IH]; intros fuel' j acc w ev H Hle; [discriminate H|].
  destruct fuel' as [|fuel']; [lia|]. cbn [for_loop] in *.
  destruct (cond j); [| exact H].
  unfold bind in *. destruct (body j acc w) as [[[b|e|] w1] ev1]; try discriminate H.
  destruct (for_loop fuel cond next body (next j) b w1) as [[r w2] ev2] eqn:E.
  injection H as -> -> <-.
  rewrite (IH fuel' (next j) b w1 ev2 E) by lia. reflexivity.
Qed.

(** A loop that walks up to the bound [b] in steps of [s > 0] completes
    with enough fuel, if its body does. *)
Lemma stepping_loop_completes {A : Type} (body : number -> A -> M A) (s b : Q) :
  (0 < s)%Q ->
  (forall x a w, exists a' ev, body x a w = (Ok a', w, ev)) ->
  forall (fuel : nat) (x : Q) (acc : A) (w : world),
  (0 < fuel)%nat ->
  (b - x <= s * inject_Z (Z.of_nat fuel - 1))%Q ->
  exists a ev,
    for_loop fuel (fun x => lt x (Fin b)) (fun x => x + Fin s) body (Fin x) acc w
    = (Ok a, w, ev).
Proof.
  intros Hs Hbody. induction fuel as [|fuel IH]; intros x acc w Hpos Hle; [lia|].
  cbn [for_loop]. unfold lt at 1. destruct (Qle_bool b x) eqn:Hbx; cbn [negb].
  - eexists. eexists. reflexivity.
  - assert (Hlt : (x < b)%Q).
    { apply Qnot_le_lt. intros Hc. apply Qle_bool_iff in Hc. congruence. }
    destruct (Hbody (Fin x) acc w) as (a' & ev1 & Hb). unfold bind. rewrite Hb.
    assert (Hfuel : (0 < fuel)%nat).
    { destruct fuel; [|lia]. exfalso.
      change (inject_Z (Z.of_nat 1 - 1)) with 0%Q in Hle. lra. }
    destruct (IH (Qred (x + s)) a' w Hfuel) as (a & ev2 & Hl).
    { rewrite Qred_correct.
      replace (Z.of_nat (S fuel) - 1)%Z with (Z.of_nat fuel - 1 + 1)%Z in Hle by lia.
      rewrite inject_Z_plus in Hle. change (inject_Z 1) with 1%Q in Hle. lra. }
    change (Fin x + Fin s) with (Fin (Qred (x + s))). rewrite Hl.
    eexists. eexists. reflexivity.
Qed.

(** Every bound is reached after finitely many steps of [s > 0]. *)
Lemma enough_steps (s d : Q) :
  (0 < s)%Q -> exists fuel : nat, (0 < fuel)%nat /\
    (d <= s * inject_Z (Z.of_nat fuel - 1))%Q.
Proof.
  intros Hs. exists (S (Z.to_nat (Qceiling (d / s)))). split; [lia|].
  replace (Z.of_nat (S (Z.to_nat (Qceiling (d / s)))) - 1)%Z
    with (Z.max 0 (Qceiling (d / s))) by lia.
  apply Qle_trans with (s * (d / s))%Q.
  - rewrite Qmult_div_r; [apply Qle_refl|]. intros E. rewrite E in Hs.
    now apply Qlt_irrefl in Hs.
  - apply Qmult_le_l; [exact Hs|].
    apply Qle_trans with (inject_Z (Qceiling (d / s))); [apply Qle_ceiling|].
    rewrite <- Zle_Qle. lia.
Qed.

End Fuel.

Section GridCompletes.

Variables (c : context) (w h : Z) (sc : Q) (wd : world).
Hypothesis sc_pos : (0 < sc)%Q.
Hypotheses (w_nonneg : (0 <= w)%Z) (h_nonneg : (0 <= h)%Z).

Lemma detailed_grid_completes :
  exists (fuel0 : nat) (ev : list event), forall fuel, (fuel0 <= fuel)%nat ->
    drawGrid fuel c (of_Z w) (of_Z h) (Fin sc) true wd = (Ok tt, wd, ev).
Proof.
  assert (Hstep : exists s, Fin sc / of_Z 5 = Fin s /\ (0 < s)%Q).
  { unfold of_Z. rewrite div_fin; [| discriminate | left; discriminate].
    eexists. split; [reflexivity|]. rewrite Qred_correct.
    apply Qlt_shift_div_l; [reflexivity | lra]. }
  destruct Hstep as (s & Hstep & Hs).
  assert (Hstart : forall z, (0 <= z)%Z ->
            exists x0, (of_Z z / of_Z 2) mod Fin s = Fin x0).
  { intros z Hz. destruct (half_fin z) as (r & -> & E).
    rewrite rem_fin; [eexists; reflexivity | lra |].
    rewrite E. apply Qle_shift_div_l; [reflexivity|].
    rewrite Qmult_0_l, <- (Zle_Qle 0). exact Hz. }
  destruct (Hstart w w_nonneg) as (x0 & Hx0).
  destruct (Hstart h h_nonneg) as (y0 & Hy0).
  set (bodyX := fun (x : number) (_ : unit) =>
                  on c (moveTo x (of_Z 0)) ;; on c (lineTo x (of_Z h))).
  set (bodyY := fun (y : number) (_ : unit) =>
                  on c (moveTo (of_Z 0) y) ;; on c (lineTo (of_Z w) y)).
  destruct (enough_steps s (inject_Z w - x0) Hs) as (fx & Hfx & Hbx).
  destruct (enough_steps s (inject_Z h - y0) Hs) as (fy & Hfy & Hby).
  destruct (stepping_loop_completes bodyX s (inject_Z w) Hs
              ltac:(intros; eexists; eexists; reflexivity) fx x0 tt wd Hfx Hbx)
    as ([] & evx & Hx).
  destruct (stepping_loop_completes bodyY s (inject_Z h) Hs
              ltac:(intros; eexists; eexists; reflexivity) fy y0 tt wd Hfy Hby)
    as ([] & evy & Hy).
  exists (Nat.max fx fy). eexists. intros fuel Hfuel.
  apply for_loop_more_fuel with (fuel' := fuel) in Hx; [| lia].
  apply for_loop_more_fuel with (fuel' := fuel) in Hy; [| lia].
  unfold drawGrid. rewrite Hstep, Hx0, Hy0.
  assert (Ht : truthy (Fin sc) = true).
  { unfold truthy, is_zero. unfold Qlt in sc_pos. simpl in sc_pos.
    destruct (Z.eqb_spec (Qnum sc) 0); [lia | reflexivity]. }
  rewrite Ht. cbn [andb]. fold bodyX bodyY.
  change (of_Z w) with (Fin (inject_Z w)) in Hx |- *.
  change (of_Z h) with (Fin (inject_Z h)) in Hy |- *.
  unfold bind at 1. unfold on at 1, emit at 1.
  unfold bind at 1. unfold on at 1, emit at 1.
  unfold bind at 1. unfold on at 1, emit at 1.
  unfold bind at 1. unfold bind at 1. unfold on at 1, emit at 1.
  unfold bind at 1. unfold on at 1, emit at 1.
  unfold bind at 1. unfold on at 1, emit at 1.
  unfold bind at 1. rewrite Hx.
  unfold bind at 1. rewrite Hy.
  reflexivity.
Qed.

End GridCompletes.

Section GraphGrid.

Lemma min_of_Z (a b : Z) : min (of_Z a) (of_Z b) = of_Z (Z.min a b).
Proof.
  pose proof (le_of_Z a b) as E. unfold of_Z in *. unfold min. rewrite E.
  destruct (Z.leb_spec a b); do 2 f_equal; lia.
Qed.

(** With a positive limit the scale of [drawGraph] is a rational that
    is not negative. *)
Lemma drawGraph_scale_nonneg (gw gh : Z) (d : dataset) (l : Q) :
  limit d = Fin l -> (0 < l)%Q -> (0 <= gw)%Z -> (0 <= gh)%Z ->
  exists sc, drawGraph_scale (of_Z gw) (of_Z gh) d = Fin sc /\ (0 <= sc)%Q.
Proof.
  intros Hl Hpos Hw Hh. unfold drawGraph_scale. rewrite min_of_Z, Hl.
  destruct (half_fin (Z.min gw gh)) as (r & -> & E).
  rewrite div_fin; [| lra | left; lra].
  eexists. split; [reflexivity|]. rewrite Qred_correct, E.
  apply Qle_shift_div_l; [exact Hpos|]. rewrite Qmult_0_l.
  apply Qle_shift_div_l; [reflexivity|]. rewrite Qmult_0_l.
  rewrite <- (Zle_Qle 0). lia.
Qed.

(** The detailed grid of [drawGraph] completes with enough fuel when
    the dataset has a positive limit. *)
Lemma graph_grid_completes (wd : world) (d : dataset) (l : Q) :
  limit d = Fin l -> (0 < l)%Q ->
  (0 <= graph_width (els wd))%Z -> (0 <= graph_height (els wd))%Z ->
  let gw := of_Z (graph_width (els wd)) in
  let gh := of_Z (graph_height (els wd)) in
  exists (fuel0 : nat) (ev : list event), forall fuel, (fuel0 <= fuel)%nat ->
    drawGrid fuel gctx gw gh (drawGraph_scale gw gh d) true wd = (Ok tt, wd, ev).
Proof.
  intros Hl Hpos Hw Hh gw gh.
  destruct (drawGraph_scale_nonneg _ _ d l Hl Hpos Hw Hh) as (sc & Hsc & Hnn).
  subst gw gh. rewrite Hsc.
  destruct (Qlt_le_dec 0 sc) as [Hp|Hz].
  - apply detailed_grid_completes; assumption.
  - assert (Ht : truthy (Fin sc) = false).
    { unfold truthy, is_zero. assert (sc == 0)%Q as E by lra.
      unfold Qeq in E. simpl in E.
      destruct (Z.eqb_spec (Qnum sc) 0); [reflexivity | lia]. }
    exists 0%nat. eexists. intros fuel _. unfold drawGrid. rewrite Ht. reflexivity.
Qed.

End GraphGrid.



(** ** A limit of zero *)

Section Degenerate.

(** With a dataset, [drawFrame] clears, draws the plain grid and runs
    the trace pass with the scale [(w / 2) / limit], whatever the limit. *)
Lemma drawFrame_always_draws (fuel : nat) (w : world) (d : dataset) :
  animData (st w) = Some d ->
  let cw := of_Z (canvas_width (els w)) in
  let ch := of_Z (canvas_height (els w)) in
  let trace :=
    drawFrame_trace fuel d (frameIdx (st w)) (drawFrame_scale cw d) cw ch w in
  exists rest,
    events_of (drawFrame fuel w) =
      Canvas ctx (clearRect (of_Z 0) (of_Z 0) cw ch)
      :: plain_grid ctx cw ch ++ events_of trace ++ rest.
Proof.
  intros Hd cw ch trace. unfold drawFrame.
  rewrite bind_get_state, Hd, bind_get_page. fold cw ch.
  unfold bind at 1, on at 1, emit at 1.
  unfold bind at 1. rewrite drawGrid_plain.
  unfold bind at 1. fold trace.
  pose proof (read_only_drawFrame_trace fuel d (frameIdx (st w))
                (drawFrame_scale cw d) cw ch w) as Hro.
  fold trace in Hro. unfold world_of, events_of in *.
  destruct trace as [[[[]|e|] w'] ev]; simpl in Hro |- *; subst w'.
  - destruct (drawFrame_rods _ _ _ _ _ _ _) as [[r w2] ev2]. simpl.
    exists ev2. reflexivity.
  - exists []. now rewrite app_nil_r.
  - exists []. now rewrite app_nil_r.
Qed.

(** With a dataset, [drawGraph] draws the detailed grid with the scale
    [(min(w, h) / 2) / limit], whatever the limit. *)
Lemma drawGraph_always_draws (fuel : nat) (w : world) (d : dataset) :
  animData (st w) = Some d ->
  let gw := of_Z (graph_width (els w)) in
  let gh := of_Z (graph_height (els w)) in
  let grid := drawGrid fuel gctx gw gh (drawGraph_scale gw gh d) true w in
  exists rest, events_of (drawGraph fuel w) = events_of grid ++ rest.
Proof.
  intros Hd gw gh grid. unfold drawGraph.
  rewrite bind_get_state, Hd, bind_get_page. fold gw gh.
  unfold bind at 1. fold grid. unfold events_of.
  destruct grid as [[[[]|e|] w'] ev]; simpl.
  - match goal with |- context [bind ?m ?k w'] =>
      destruct (bind m k w') as [[r w2] ev2] end.
    exists ev2. reflexivity.
  - exists []. now rewrite app_nil_r.
  - exists []. now rewrite app_nil_r.
Qed.

(** The grid starts by filling the background, whatever the scale. *)
Lemma drawGrid_starts (fuel : nat) (c : context) (w h scale : number)
    (detailed : bool) (wd : world) :
  exists rest,
    events_of (drawGrid fuel c w h scale detailed wd) =
      Canvas c save :: Canvas c (set_fillStyle "#ffffff")
      :: Canvas c (fillRect (of_Z 0) (of_Z 0) w h) :: rest.
Proof.
  unfold drawGrid.
  unfold bind at 1, on at 1, emit at 1.
  unfold bind at 1, on at 1, emit at 1.
  unfold bind at 1, on at 1, emit at 1.
  match goal with |- context [bind ?m ?k wd] =>
    destruct (bind m k wd) as [[r w2] ev2] end.
  exists ev2. reflexivity.
Qed.

(** A positive number divided by the negative zero. *)
Lemma div_by_negative_zero (p : Q) : (0 < p)%Q -> Fin p / NegZero = NegInf.
Proof.
  intros Hp. unfold div.
  rewrite (is_zero_positive p Hp), (is_neg_false p) by lra. reflexivity.
Qed.

(** A loop that has stepped to [-Infinity] stays there. *)
Lemma loop_at_NegInf {A : Type} (body : number -> A -> M A) (b : Z) :
  (forall x a w, exists a' ev, body x a w = (Ok a', w, ev)) ->
  forall (fuel : nat) (acc : A) (w : world),
  outcome_of
    (for_loop fuel (fun x => lt x (of_Z b)) (fun x => x + NegInf) body NegInf acc w)
  = Timeout.
Proof.
  intros Hbody. induction fuel as [|fuel IH]; intros acc w; [reflexivity|].
  cbn [for_loop lt of_Z]. destruct (Hbody NegInf acc w) as (a' & ev1 & Hb).
  unfold bind. rewrite Hb. change (NegInf + NegInf) with NegInf.
  specialize (IH a' w). unfold outcome_of in *.
  destruct (for_loop fuel _ _ body NegInf a' w) as [[r w'] ev].
  cbn in *. now subst r.
Qed.

(** With the scale [-Infinity] the minor grid steps by [-Infinity] from
    the middle of the canvas and never reaches the right edge. *)
Lemma grid_at_NegInf_diverges (fuel : nat) (c : context) (w h : Z) (wd : world) :
  (0 < w)%Z ->
  outcome_of (drawGrid fuel c (of_Z w) (of_Z h) NegInf true wd) = Timeout.
Proof.
  intros Hw. unfold drawGrid. cbn [truthy andb].
  change (NegInf / of_Z 5) with NegInf.
  assert (Hox : exists p, of_Z w / of_Z 2 = Fin p /\ (p < inject_Z w)%Q).
  { destruct (half_fin w) as (r & -> & E). exists r. split; [reflexivity|].
    rewrite E. assert (0 < inject_Z w)%Q by (rewrite <- (Zlt_Qlt 0); lia).
    apply Qlt_shift_div_r; lra. }
  destruct Hox as (p & -> & Hp). change (Fin p mod NegInf) with (Fin p).
  set (bodyX := fun (x : number) (_ : unit) =>
                  on c (moveTo x (of_Z 0)) ;; on c (lineTo x (of_Z h))).
  destruct fuel as [|fuel]; [reflexivity|].
  cbn [for_loop].
  assert (Hlt : lt (Fin p) (of_Z w) = true).
  { unfold lt, of_Z. destruct (Qle_bool (inject_Z w) p) eqn:E; [|reflexivity].
    apply Qle_bool_iff in E. lra. }
  rewrite Hlt. change (Fin p + NegInf) with NegInf.
  pose proof (loop_at_NegInf bodyX w
                ltac:(intros; eexists; eexists; reflexivity) fuel tt wd) as Hloop.
  unfold outcome_of in *. cbv beta iota delta [bind on emit bodyX].
  fold bodyX.
  destruct (for_loop fuel _ _ _ NegInf tt wd) as [[r w'] ev].
  cbn in Hloop. subst r. reflexivity.
Qed.

End Degenerate.

(** C6 (as amended). Neither rendering pass guards the limit: with a
    dataset loaded, whatever its limit, [drawFrame] clears the canvas,
    draws the grid and runs the trace pass with the scale
    [(w / 2) / limit], and [drawGraph] draws its grid with the scale
    [(min(w, h) / 2) / limit]; 1 is never substituted and drawing is not
    skipped.  On canvases of positive size the limit [+0] gives both
    passes the scale [+Infinity], and the limit [-0] the scale
    [-Infinity], with which [drawGraph] does not return. *)
Theorem renderers_do_not_guard_limit (fuel : nat) (w : world) (d : dataset) :
  animData (st w) = Some d ->
  let cw := of_Z (canvas_width (els w)) in
  let ch := of_Z (canvas_height (els w)) in
  let gw := of_Z (graph_width (els w)) in
  let gh := of_Z (graph_height (els w)) in
  (exists rest,
     events_of (drawFrame fuel w) =
       Canvas ctx (clearRect (of_Z 0) (of_Z 0) cw ch)
       :: plain_grid ctx cw ch
       ++ events_of (drawFrame_trace fuel d (frameIdx (st w))
                       ((cw / of_Z 2) / limit d) cw ch w)
       ++ rest)
  /\ (exists rest,
        events_of (drawGraph fuel w) =
          Canvas gctx save :: Canvas gctx (set_fillStyle "#ffffff")
          :: Canvas gctx (fillRect (of_Z 0) (of_Z 0) gw gh) :: rest)
  /\ (exists rest,
        events_of (drawGraph fuel w) =
          events_of (drawGrid fuel gctx gw gh ((min gw gh / of_Z 2) / limit d) true w)
          ++ rest)
  /\ (forall q, limit d = Fin q -> (q == 0)%Q ->
        ((0 < canvas_width (els w))%Z -> drawFrame_scale cw d = PosInf)
        /\ ((0 < graph_width (els w))%Z -> (0 < graph_height (els w))%Z ->
            drawGraph_scale gw gh d = PosInf))
  /\ (limit d = NegZero ->
        ((0 < canvas_width (els w))%Z -> drawFrame_scale cw d = NegInf)
        /\ ((0 < graph_width (els w))%Z -> (0 < graph_height (els w))%Z ->
            drawGraph_scale gw gh d = NegInf
            /\ outcome_of (drawGraph fuel w) = Timeout)).
Proof.
  intros Hd cw ch gw gh. split; [| split; [| split; [| split]]].
  - exact (drawFrame_always_draws fuel w d Hd).
  - destruct (drawGraph_always_draws fuel w d Hd) as (rest & E).
    destruct (drawGrid_starts fuel gctx gw gh (drawGraph_scale gw gh d) true w)
      as (rest' & E').
    exists (rest' ++ rest). rewrite E. fold gw gh. rewrite E'. reflexivity.
  - exact (drawGraph_always_draws fuel w d Hd).
  - intros q Hq Hz. subst cw ch gw gh. split.
    + intros Hw. unfold drawFrame_scale. rewrite Hq.
      destruct (half_positive _ Hw) as (p & -> & Hp).
      now apply div_by_zero.
    + intros Hw Hh. unfold drawGraph_scale. rewrite Hq, min_of_Z.
      destruct (half_positive (Z.min (graph_width (els w)) (graph_height (els w))))
        as (p & -> & Hp); [lia|].
      now apply div_by_zero.
  - intros Hz. subst cw ch gw gh. split.
    + intros Hw. unfold drawFrame_scale. rewrite Hz.
      destruct (half_positive _ Hw) as (p & -> & Hp).
      now apply div_by_negative_zero.
    + intros Hw Hh.
      assert (Hscale : drawGraph_scale (of_Z (graph_width (els w)))
                         (of_Z (graph_height (els w))) d = NegInf).
      { unfold drawGraph_scale. rewrite Hz, min_of_Z.
        destruct (half_positive (Z.min (graph_width (els w)) (graph_height (els w))))
          as (p & -> & Hp); [lia|].
        now apply div_by_negative_zero. }
      split; [exact Hscale|].
      pose proof (grid_at_NegInf_diverges fuel gctx (graph_width (els w))
                    (graph_height (els w)) w Hw) as Hgrid.
      unfold drawGraph. rewrite bind_get_state, Hd, bind_get_page. cbv zeta.
      rewrite Hscale. unfold bind at 1. unfold outcome_of in *.
      destruct (drawGrid fuel gctx _ _ NegInf true w) as [[r w'] ev].
      cbn in Hgrid. subst r. reflexivity.
Qed.

Lemma renderers_do_not_guard_limit_witness :
  (drawFrame_scale (of_Z 400) zero_limit = PosInf
   /\ drawGraph_scale (of_Z 400) (of_Z 400) zero_limit = PosInf)
  /\ (drawFrame_scale (of_Z 400) negative_zero_limit = NegInf
      /\ drawGraph_scale (of_Z 400) (of_Z 400) negative_zero_limit = NegInf
      /\ outcome_of (drawGraph 100 (playing negative_zero_limit 2)) = Timeout).
Proof.
  split.
  - destruct (renderers_do_not_guard_limit 100 (playing zero_limit 2) zero_limit
                eq_refl) as (_ & _ & _ & H & _).
    destruct (H 0%Q eq_refl ltac:(reflexivity)) as [H1 H2].
    split; [apply H1; reflexivity | apply H2; reflexivity].
  - destruct (renderers_do_not_guard_limit 100 (playing negative_zero_limit 2)
                negative_zero_limit eq_refl) as (_ & _ & _ & _ & H).
    destruct (H eq_refl) as [H1 H2].
    split; [apply H1; reflexivity | apply H2; reflexivity].
Defined.

(** C6 as stated fails: with scenario 1 under the limit 0 (the positive
    zero) on 400x400 canvases, both passes divide by the limit, get the
    scale [+Infinity], and draw with it: the trace of [drawFrame] starts
    at the point [(+Infinity, NaN)], and [drawGraph] strokes its paths
    too. *)
Lemma zero_limit_gives_infinite_scale :
  let w := playing zero_limit 2 in
  limit zero_limit = of_Z 0
  /\ drawFrame_scale (of_Z (canvas_width (els w))) zero_limit = PosInf
  /\ drawGraph_scale (of_Z (graph_width (els w))) (of_Z (graph_height (els w)))
       zero_limit = PosInf
  /\ is_finite (drawFrame_scale (of_Z (canvas_width (els w))) zero_limit) = false
  /\ outcome_of (drawFrame 100 w) = Ok tt
  /\ In (Canvas ctx (moveTo PosInf NaN)) (events_of (drawFrame 100 w))
  /\ outcome_of (drawGraph 100 w) = Ok tt
  /\ In (Canvas gctx (moveTo PosInf NaN)) (events_of (drawGraph 100 w)).
Proof.
  vm_compute. repeat split; repeat (first [left; reflexivity | right]).
Qed.

(** ** The range of the frame index *)

Section FrameRange.

Lemma trunc_nonneg (q : Q) : (0 <= q)%Q -> trunc q = Qfloor q.
Proof.
  intros Hq. unfold trunc, Qfloor. destruct q as [a b]. simpl.
  apply Z.quot_div_nonneg; [| lia].
  unfold Qle in Hq. simpl in Hq. lia.
Qed.

(** The fractional part of a rational that is not negative. *)
Lemma rem_one_range (q : Q) :
  (0 <= q)%Q ->
  exists r, Fin q mod of_Z 1 = Fin r /\ (0 <= r)%Q /\ (r < 1)%Q.
Proof.
  intros Hq. unfold of_Z. rewrite rem_fin; [| discriminate | exact Hq].
  eexists. split; [reflexivity|].
  rewrite Qred_correct. rewrite trunc_nonneg.
  - assert (E : (q / inject_Z 1 == q)%Q) by (change (inject_Z 1) with 1%Q; field).
    rewrite E. change (inject_Z 1) with 1%Q.
    pose proof (Qfloor_le q). pose proof (Qlt_floor q) as Hlt.
    rewrite inject_Z_plus in Hlt. change (inject_Z 1) with 1%Q in Hlt.
    split; lra.
  - change (inject_Z 1) with 1%Q. setoid_replace (q / 1)%Q with q by field.
    exact Hq.
Qed.

(** A fraction of the frame count, floored, is a frame number. *)
Lemma floor_fraction (r : Q) (len : nat) :
  (0 <= r)%Q -> (r < 1)%Q -> (0 < len)%nat ->
  exists z, floor (Fin r * of_nat len) = of_Z z /\ (0 <= z < Z.of_nat len)%Z.
Proof.
  intros H0 H1 Hlen. unfold of_nat, of_Z.
  set (L := inject_Z (Z.of_nat len)).
  assert (HL : (0 < L)%Q).
  { unfold L. rewrite <- (Zlt_Qlt 0). lia. }
  rewrite mul_fin by (left; split; lra).
  eexists. split; [reflexivity|].
  assert (Hlo : (0 <= Qred (r * L))%Q).
  { rewrite Qred_correct. apply Qmult_le_0_compat; lra. }
  assert (Hhi : (Qred (r * L) < L)%Q).
  { rewrite Qred_correct. setoid_replace L with (1 * L)%Q at 2 by ring.
    apply Qmult_lt_compat_r; assumption. }
  split.
  - change 0%Z with (Qfloor 0). now apply Qfloor_resp_le.
  - rewrite Zlt_Qlt. fold L.
    apply Qle_lt_trans with (Qred (r * L)); [apply Qfloor_le | exact Hhi].
Qed.

(** A tick at or after a finite origin lands on a frame. *)
Lemma frame_at_range (now : Z) (p : Q) (d : dataset) :
  (p <= inject_Z now)%Q ->
  (0 < List.length (positions d))%nat ->
  exists z, frame_at now (Fin p) d = of_Z z
            /\ (0 <= z < Z.of_nat (List.length (positions d)))%Z.
Proof.
  intros Hp Hlen. unfold frame_at, CONFIG.simDuration, length_of.
  assert (He : exists e, (of_Z now - Fin p) / of_Z 1000 / of_Z 60 = Fin e
                         /\ (0 <= e)%Q).
  { unfold of_Z at 1. destruct (sub_fin (inject_Z now) p) as (e0 & -> & E0).
    unfold of_Z. rewrite div_fin; [| discriminate | left; discriminate].
    unfold fin. rewrite div_fin; [| discriminate | left; discriminate].
    eexists. split; [reflexivity|]. rewrite !Qred_correct, E0.
    apply Qle_shift_div_l; [reflexivity|]. rewrite Qmult_0_l.
    apply Qle_shift_div_l; [reflexivity|]. rewrite Qmult_0_l.
    lra. }
  destruct He as (e & -> & He).
  destruct (rem_one_range e He) as (r & -> & Hr0 & Hr1).
  now apply floor_fraction.
Qed.

End FrameRange.

Section Operations.

Lemma play_click_state (fuel : nat) (now : Z) (confirmed : bool) (w : world)
    (d : dataset) :
  animData (st w) = Some d ->
  frameIdx (st (after (play_click fuel now confirmed) w)) = frameIdx (st w)
  /\ animData (st (after (play_click fuel now confirmed) w)) = animData (st w)
  /\ isPlaying (st (after (play_click fuel now confirmed) w)) =
     negb (isPlaying (st w)).
Proof.
  intros Hd. unfold after, play_click. rewrite bind_get_state, Hd.
  destruct (isPlaying (st w)) eqn:Hp; cbn [negb].
  - rewrite bind_ret. rewrite bind_get_state, bind_set_state, bind_get_state.
    simpl. rewrite Hp. auto.
  - rewrite bind_set_state, bind_get_state, bind_set_state, bind_get_state.
    simpl. rewrite Hp. auto.
Qed.

Lemma reset_click_state (fuel : nat) (now : Z) (w : world) :
  frameIdx (st (after (reset_click fuel now) w)) = of_Z 0
  /\ animData (st (after (reset_click fuel now) w)) = animData (st w)
  /\ isPlaying (st (after (reset_click fuel now) w)) = isPlaying (st w).
Proof.
  unfold after, reset_click. rewrite bind_set_state, bind_get_state.
  cbn [st set_frameIdx isPlaying].
  destruct (isPlaying (st w)) eqn:Hp.
  - rewrite bind_set_state. rewrite (read_only_redraw fuel). simpl. auto.
  - rewrite bind_ret. rewrite (read_only_redraw fuel). simpl. auto.
Qed.

Lemma frame_in_range_fields (s s' : state) :
  animData s' = animData s -> frameIdx s' = frameIdx s ->
  frame_in_range s' = frame_in_range s.
Proof. intros Ha Hf. unfold frame_in_range. now rewrite Ha, Hf. Qed.

Lemma frame_in_range_of_Z (s : state) (d : dataset) (z : Z) :
  animData s = Some d -> frameIdx s = of_Z z ->
  (0 <= z < Z.of_nat (List.length (positions d)))%Z ->
  frame_in_range s = true.
Proof.
  intros Ha Hf Hz. unfold frame_in_range. rewrite Ha, Hf.
  rewrite as_index_of_Z by lia. apply Nat.ltb_lt. lia.
Qed.

Lemma nonempty_length {A : Type} (l : list A) : l <> [] -> (0 < List.length l)%nat.
Proof. destruct l; [congruence | simpl; lia]. Qed.

End Operations.




(** ** A negative limit *)

Section Negative.

(** A loop that walks away from its bound never completes, if its body
    does. *)
Lemma descending_loop_diverges {A : Type} (body : number -> A -> M A) (s b : Q) :
  (s < 0)%Q ->
  (forall x a w, exists a' ev, body x a w = (Ok a', w, ev)) ->
  forall (fuel : nat) (x : Q) (acc : A) (w : world),
  (x < b)%Q ->
  outcome_of
    (for_loop fuel (fun x => lt x (Fin b)) (fun x => x + Fin s) body (Fin x) acc w)
  = Timeout.
Proof.
  intros Hs Hbody. induction fuel as [|fuel IH]; intros x acc w Hx; [reflexivity|].
  cbn [for_loop]. unfold lt at 1.
  destruct (Qle_bool b x) eqn:Hbx.
  { apply Qle_bool_iff in Hbx. lra. }
  cbn [negb]. destruct (Hbody (Fin x) acc w) as (a' & ev1 & Hb).
  unfold bind. rewrite Hb.
  change (Fin x + Fin s) with (Fin (Qred (x + s))).
  assert (Hx' : (Qred (x + s) < b)%Q) by (rewrite Qred_correct; lra).
  specialize (IH (Qred (x + s)) a' w Hx'). unfold outcome_of in *.
  destruct (for_loop fuel _ _ body (Fin (Qred (x + s))) a' w) as [[r w'] ev].
  simpl in *. now subst r.
Qed.

(** With scenario 1 under the limit -2 on 400x400 canvases the scale of
    [drawGraph] is -100, the minor grid steps by -20 from 0 and never
    reaches 400: [drawGraph] does not return, whatever the fuel. *)
Lemma negative_limit_never_returns (fuel : nat) :
  drawGraph_scale (of_Z 400) (of_Z 400) negative_limit = of_Z (-100)
  /\ outcome_of (drawGraph fuel (playing negative_limit 2)) = Timeout.
Proof.
  split; [reflexivity|].
  unfold drawGraph. rewrite bind_get_state.
  change (animData (st (playing negative_limit 2))) with (Some negative_limit).
  cbv iota beta. rewrite bind_get_page. cbv zeta.
  change (drawGraph_scale _ _ negative_limit) with (of_Z (-100)).
  unfold bind at 1. unfold drawGrid.
  change (truthy (of_Z (-100))) with true. cbn [andb].
  change (of_Z (-100) / of_Z 5) with (Fin (inject_Z (-20))).
  change (of_Z (graph_width (els (playing negative_limit 2)))) with (Fin (inject_Z 400)).
  change (of_Z (graph_height (els (playing negative_limit 2)))) with (Fin (inject_Z 400)).
  change (Fin (inject_Z 400) / of_Z 2 mod Fin (inject_Z (-20))) with (Fin (inject_Z 0)).
  set (bodyX := fun (x : number) (_ : unit) => bind _ _).
  pose proof (descending_loop_diverges bodyX (inject_Z (-20)) (inject_Z 400)
                ltac:(reflexivity)
                ltac:(intros; eexists; eexists; reflexivity)
                fuel (inject_Z 0) tt (playing negative_limit 2) ltac:(reflexivity))
    as Hloop.
  unfold outcome_of in Hloop.
  unfold bind at 1, on at 1, emit at 1.
  unfold bind at 1, on at 1, emit at 1.
  unfold bind at 1, on at 1, emit at 1.
  unfold bind at 1. unfold bind at 1, on at 1, emit at 1.
  unfold bind at 1, on at 1, emit at 1.
  unfold bind at 1, on at 1, emit at 1.
  unfold bind at 1.
  destruct (for_loop fuel _ _ bodyX (Fin (inject_Z 0)) tt _) as [[r w'] ev].
  simpl in Hloop. subst r. reflexivity.
Qed.

End Negative.

(** ** Resuming playback *)

Section Resume.

Lemma Qfloor_unique (v : Q) (z : Z) :
  (inject_Z z <= v)%Q -> (v < inject_Z z + 1)%Q -> Qfloor v = z.
Proof.
  intros Hlo Hhi.
  pose proof (Qfloor_le v) as H1. pose proof (Qlt_floor v) as H2.
  rewrite inject_Z_plus in H2. change (inject_Z 1) with 1%Q in H2.
  assert (Qfloor v < z + 1)%Z.
  { rewrite Zlt_Qlt, inject_Z_plus. change (inject_Z 1) with 1%Q. lra. }
  assert (z < Qfloor v + 1)%Z.
  { rewrite Zlt_Qlt, inject_Z_plus. change (inject_Z 1) with 1%Q. lra. }
  lia.
Qed.

Lemma play_click_resume (fuel : nat) (now : Z) (confirmed : bool) (w : world)
    (d : dataset) :
  animData (st w) = Some d ->
  isPlaying (st w) = false ->
  let currentProg := frameIdx (st w) / (length_of (positions d) - of_Z 1) in
  st (after (play_click fuel now confirmed) w) =
    set_isPlaying true
      (set_playStartTime
         (of_Z now - currentProg * CONFIG.simDuration * of_Z 1000) (st w)).
Proof.
  intros Hd Hp. unfold after, play_click. rewrite bind_get_state, Hd, Hp.
  cbn [negb].
  rewrite bind_set_state, bind_get_state, bind_set_state, bind_get_state.
  cbn. now rewrite Hp.
Qed.

End Resume.

(** * Further properties of the script *)

(** ** The frame a tick shows *)

Section Elapsed.

Lemma Qfloor_quotient (v : Q) (a b : Z) :
  (0 < b)%Z -> (v == inject_Z a / inject_Z b)%Q -> Qfloor v = (a / b)%Z.
Proof.
  intros Hb Hv.
  pose proof (Z.div_mod a b ltac:(lia)) as Hdm.
  pose proof (Z.mod_pos_bound a b Hb) as Hm.
  assert (HB : (0 < inject_Z b)%Q) by (rewrite <- (Zlt_Qlt 0); lia).
  assert (Ha : (inject_Z a == inject_Z b * inject_Z (a / b) + inject_Z (a mod b))%Q).
  { rewrite <- inject_Z_mult, <- inject_Z_plus. now rewrite <- Hdm. }
  assert (Hm0 : (0 <= inject_Z (a mod b))%Q) by (rewrite <- (Zle_Qle 0); lia).
  assert (Hm1 : (inject_Z (a mod b) < inject_Z b)%Q) by (rewrite <- Zlt_Qlt; lia).
  apply Qfloor_unique; rewrite Hv.
  - apply Qle_shift_div_l; [exact HB|]. rewrite Ha. lra.
  - apply Qlt_shift_div_r; [exact HB|]. rewrite Ha. lra.
Qed.

(** With an origin that is an integer instant, the frame of a tick
    [ms >= 0] milliseconds later is the integer quotient
    [((ms mod 60000) * length) / 60000]. *)
Lemma frame_at_elapsed (origin ms : Z) (d : dataset) :
  (0 <= ms)%Z ->
  frame_at (origin + ms) (of_Z origin) d =
    of_Z (((ms mod 60000) * Z.of_nat (List.length (positions d))) / 60000).
Proof.
  intros Hms. unfold frame_at, CONFIG.simDuration, length_of, of_nat.
  set (L := Z.of_nat (List.length (positions d))).
  rewrite sub_of_Z. replace (origin + ms - origin)%Z with ms by lia.
  pose proof (Z.div_mod ms 60000 ltac:(lia)) as Hdm.
  pose proof (Z.mod_pos_bound ms 60000 ltac:(lia)) as Hm.
  set (q := (ms / 60000)%Z) in *. set (m := (ms mod 60000)%Z) in *.
  assert (Hq : (0 <= q)%Z) by (apply Z.div_pos; lia).
  assert (Hms' : (inject_Z ms == 60000 * inject_Z q + inject_Z m)%Q).
  { rewrite Hdm at 1. rewrite inject_Z_plus, inject_Z_mult. reflexivity. }
  assert (Hm0 : (0 <= inject_Z m)%Q) by (rewrite <- (Zle_Qle 0); lia).
  assert (Hq0 : (0 <= inject_Z q)%Q) by (rewrite <- (Zle_Qle 0); lia).
  assert (He : exists e, of_Z ms / of_Z 1000 / of_Z 60 = Fin e
                         /\ (e == inject_Z ms / 60000)%Q).
  { unfold of_Z. rewrite div_fin; [| discriminate | left; discriminate].
    unfold fin. rewrite div_fin; [| discriminate | left; discriminate].
    eexists. split; [reflexivity|]. rewrite !Qred_correct.
    change (inject_Z 1000) with 1000%Q. change (inject_Z 60) with 60%Q. field. }
  destruct He as (e & -> & He).
  assert (He0 : (0 <= e)%Q).
  { rewrite He. apply Qle_shift_div_l; [reflexivity|]. rewrite Hms'. lra. }
  assert (Hr : exists r, Fin e mod of_Z 1 = Fin r /\ (r == inject_Z m / 60000)%Q).
  { unfold of_Z. rewrite rem_fin; [| discriminate | exact He0].
    eexists. split; [reflexivity|]. rewrite Qred_correct.
    assert (E1 : (e / inject_Z 1 == inject_Z ms / inject_Z 60000)%Q).
    { rewrite He. change (inject_Z 1) with 1%Q. change (inject_Z 60000) with 60000%Q.
      field. }
    assert (Hnn : (0 <= e / inject_Z 1)%Q).
    { rewrite E1. change (inject_Z 60000) with 60000%Q.
      apply Qle_shift_div_l; [reflexivity|]. rewrite Hms'. lra. }
    rewrite (trunc_nonneg _ Hnn).
    rewrite (Qfloor_quotient _ ms 60000 ltac:(lia) E1). fold q.
    rewrite He, Hms'. change (inject_Z 1) with 1%Q. field. }
  destruct Hr as (r & -> & Hr).
  assert (Hr0 : (0 <= r)%Q).
  { rewrite Hr. apply Qle_shift_div_l; [reflexivity|]. lra. }
  assert (HL0 : (0 <= inject_Z L)%Q) by (rewrite <- (Zle_Qle 0); unfold L; lia).
  unfold of_Z at 1. rewrite mul_fin by (left; split; assumption).
  unfold floor, fin, of_Z. do 2 f_equal.
  apply Qfloor_quotient; [lia|].
  rewrite Qred_correct, Hr, inject_Z_mult.
  change (inject_Z 60000) with 60000%Q. field.
Qed.

End Elapsed.

(** ** The clock of the engine *)

Section Rounding.

Import Binary64.
Local Open Scope Z_scope.

Lemma pow2_pos (e : Z) : (0 < pow2 e)%Q.
Proof. apply Qpower_0_lt. reflexivity. Qed.

Lemma pow2_plus (a b : Z) : (pow2 (a + b) == pow2 a * pow2 b)%Q.
Proof. apply Qpower_plus. discriminate. Qed.

Lemma pow2_le (a b : Z) : a <= b -> (pow2 a <= pow2 b)%Q.
Proof. intros H. apply Qpower_le_compat_l; [exact H | discriminate]. Qed.

Lemma pow2_inject_Z (e : Z) : 0 <= e -> (pow2 e == inject_Z (2 ^ e))%Q.
Proof. intros H. symmetry. apply (Zpower_Qpower 2 e H). Qed.

Lemma Qabs_fraction (q : Q) :
  (Qabs q == inject_Z (Z.abs (Qnum q)) / inject_Z (Zpos (Qden q)))%Q.
Proof. destruct q as [a d]. cbn [Qabs Qnum Qden]. apply Qmake_Qdiv. Qed.

(** The binary logarithm found is not above the number. *)
Lemma ilog2_lower (q : Q) : ~ (q == 0)%Q -> (pow2 (ilog2 q) <= Qabs q)%Q.
Proof.
  intros Hq. unfold ilog2.
  set (a := Z.abs (Qnum q)). set (d := Zpos (Qden q)).
  set (e := Z.log2 a - Z.log2 d).
  destruct (Qle_bool (pow2 e) (Qabs q)) eqn:T; [now apply Qle_bool_iff|].
  assert (Ha : 0 < a).
  { unfold a. assert (Qnum q <> 0); [| lia].
    intros E. apply Hq. unfold Qeq. cbn. lia. }
  assert (Hd : 0 < d) by (unfold d; lia).
  pose proof (Z.log2_spec a Ha) as [Hla _].
  pose proof (Z.log2_spec d Hd) as [_ Hld].
  pose proof (Z.log2_nonneg a) as Hla0. pose proof (Z.log2_nonneg d) as Hld0.
  replace (e - 1) with (Z.log2 a - Z.succ (Z.log2 d)) by (unfold e; lia).
  unfold pow2. rewrite Qpower_minus by discriminate.
  fold (pow2 (Z.log2 a)) (pow2 (Z.succ (Z.log2 d))).
  rewrite !pow2_inject_Z by lia. rewrite Qabs_fraction. fold a d.
  assert (HD : (0 < inject_Z d)%Q) by (rewrite <- (Zlt_Qlt 0); lia).
  assert (HP : (0 < inject_Z (2 ^ Z.succ (Z.log2 d)))%Q)
    by (rewrite <- (Zlt_Qlt 0); lia).
  apply Qle_shift_div_l; [exact HD|].
  unfold Qdiv. rewrite <- Qmult_assoc, (Qmult_comm (/ _)), Qmult_assoc.
  apply Qle_shift_div_r; [exact HP|].
  rewrite <- !inject_Z_mult, <- Zle_Qle. nia.
Qed.

Lemma round_half_even_close (q : Q) :
  (Qabs (inject_Z (round_half_even q) - q) <= 1 # 2)%Q.
Proof.
  unfold round_half_even. cbv zeta.
  pose proof (Qfloor_le q) as H1. pose proof (Qlt_floor q) as H2.
  rewrite inject_Z_plus in H2. change (inject_Z 1) with 1%Q in H2.
  apply Qabs_Qle_condition.
  destruct (Qcompare_spec (q - inject_Z (Qfloor q)) (1 # 2)) as [E|E|E].
  - destruct (Z.even (Qfloor q)); rewrite ?inject_Z_plus;
      change (inject_Z 1) with 1%Q; split; lra.
  - split; lra.
  - rewrite inject_Z_plus. change (inject_Z 1) with 1%Q. split; lra.
Qed.

Lemma round_half_even_nonneg (q : Q) : (0 <= q)%Q -> 0 <= round_half_even q.
Proof.
  intros Hq. unfold round_half_even. cbv zeta.
  assert (0 <= Qfloor q).
  { change 0 with (Qfloor 0). now apply Qfloor_resp_le. }
  destruct (_ ?= _)%Q; [destruct (Z.even _)| |]; lia.
Qed.

Lemma round_half_even_compat (q q' : Q) :
  (q == q')%Q -> round_half_even q = round_half_even q'.
Proof.
  intros E. unfold round_half_even. cbv zeta.
  rewrite (Qfloor_comp q q' E).
  assert (E' : (q - inject_Z (Qfloor q') == q' - inject_Z (Qfloor q'))%Q)
    by (rewrite E; reflexivity).
  rewrite (Qcompare_comp _ _ E' (1 # 2) (1 # 2) (Qeq_refl _)). reflexivity.
Qed.

Lemma round_half_even_Z (k : Z) : round_half_even (inject_Z k) = k.
Proof.
  unfold round_half_even. cbv zeta. rewrite Qfloor_Z.
  destruct (Qcompare_spec (inject_Z k - inject_Z k) (1 # 2)) as [E|E|E];
    [exfalso; lra | reflexivity | exfalso; lra].
Qed.


Lemma nearest_pos_zero (q : Q) : (q == 0)%Q -> (nearest_pos q == 0)%Q.
Proof.
  intros Hz. unfold nearest_pos. cbv zeta.
  assert (Ha : (Qabs q == 0)%Q) by (rewrite Hz; reflexivity).
  assert (E : (Qabs q / pow2 (ulp_exponent q) == inject_Z 0)%Q).
  { unfold Qdiv. rewrite Ha. change (inject_Z 0) with 0%Q. ring. }
  rewrite (round_half_even_compat _ _ E), round_half_even_Z. ring.
Qed.

Lemma nearest_pos_nonneg (q : Q) : (0 <= nearest_pos q)%Q.
Proof.
  unfold nearest_pos. cbv zeta.
  pose proof (pow2_pos (ulp_exponent q)) as HP.
  apply Qmult_le_0_compat; [| lra].
  rewrite <- (Zle_Qle 0). apply round_half_even_nonneg.
  apply Qle_shift_div_l; [exact HP|]. rewrite Qmult_0_l. apply Qabs_nonneg.
Qed.

(** The rounding error: at most half a unit in the last place. *)
Lemma nearest_pos_error (q : Q) :
  (Qabs (nearest_pos q - Qabs q) <= Qabs q * pow2 (-53) + pow2 (-1075))%Q.
Proof.
  pose proof (Qabs_nonneg q) as Hq0.
  pose proof (pow2_pos (-53)) as Hu. pose proof (pow2_pos (-1075)) as Ht.
  assert (Hrel : (0 <= Qabs q * pow2 (-53))%Q) by (apply Qmult_le_0_compat; lra).
  destruct (Qeq_dec q 0) as [Hz|Hnz].
  { assert (E : (nearest_pos q - Qabs q == 0)%Q).
    { rewrite (nearest_pos_zero q Hz), Hz. reflexivity. }
    rewrite E. change (Qabs 0) with 0%Q. lra. }
  unfold nearest_pos. cbv zeta.
  set (e := ulp_exponent q). set (P := pow2 e).
  assert (HP : (0 < P)%Q) by apply pow2_pos.
  set (sc := (Qabs q / P)%Q).
  pose proof (round_half_even_close sc) as Hm.
  set (m := round_half_even sc) in *.
  assert (Hsc : (Qabs q == sc * P)%Q).
  { unfold sc. field. lra. }
  assert (Herr : (Qabs (inject_Z m * P - Qabs q) <= P * (1 # 2))%Q).
  { setoid_replace (inject_Z m * P - Qabs q)%Q with ((inject_Z m - sc) * P)%Q
      by (rewrite Hsc; ring).
    rewrite Qabs_Qmult, (Qabs_pos P) by lra.
    rewrite (Qmult_comm P). apply Qmult_le_compat_r; lra. }
  apply Qle_trans with (P * (1 # 2))%Q; [exact Herr|].
  pose proof (ilog2_lower q Hnz) as Hl.
  unfold P, e, ulp_exponent, prec, emin.
  destruct (Z.max_spec (ilog2 q - (53 - 1)) (-1074)) as [[_ ->]|[_ ->]].
  - setoid_replace (pow2 (-1074) * (1 # 2))%Q with (pow2 (-1075)); [lra|].
    replace (-1074) with (-1075 + 1) by lia. rewrite pow2_plus.
    change (pow2 1) with 2%Q. field.
  - setoid_replace (pow2 (ilog2 q - (53 - 1)) * (1 # 2))%Q
      with (pow2 (ilog2 q) * pow2 (-53))%Q.
    + assert (pow2 (ilog2 q) * pow2 (-53) <= Qabs q * pow2 (-53))%Q
        by (apply Qmult_le_compat_r; lra). lra.
    + replace (ilog2 q - (53 - 1)) with (ilog2 q + (-53) + 1) by lia.
      rewrite !pow2_plus. change (pow2 1) with 2%Q. field.
Qed.

Lemma is_neg_compat (q q' : Q) : (q == q')%Q -> is_neg q = is_neg q'.
Proof.
  intros E. destruct (Qlt_le_dec q 0) as [H|H].
  - rewrite (is_neg_true q H). symmetry. apply is_neg_true. lra.
  - rewrite (is_neg_false q H). symmetry. apply is_neg_false. lra.
Qed.

Lemma nearest_compat (q q' : Q) : (q == q')%Q -> nearest q = nearest q'.
Proof.
  intros E. unfold nearest.
  now rewrite (Qred_complete q q' E), (is_neg_compat q q' E).
Qed.

(** Rounding a number that is not negative. *)
Lemma nearest_nonneg (q : Q) :
  (0 <= q)%Q ->
  (0 <= nearest q)%Q
  /\ (Qabs (nearest q - q) <= q * pow2 (-53) + pow2 (-1075))%Q.
Proof.
  intros Hq. unfold nearest. rewrite (is_neg_false q Hq). cbv zeta.
  split; [apply nearest_pos_nonneg|].
  pose proof (nearest_pos_error (Qred q)) as H.
  assert (E : (Qabs (Qred q) == q)%Q).
  { rewrite Qabs_pos; [apply Qred_correct | rewrite Qred_correct; exact Hq]. }
  rewrite E in H. exact H.
Qed.

Lemma Qred_zero (r : Q) : (r == 0)%Q -> Qred r = 0%Q.
Proof. intros E. apply (Qred_complete r 0 E). Qed.

Lemma round_nonneg (q : Q) :
  (0 <= q)%Q -> (nearest q < pow2 emax)%Q -> round q = fin (nearest q).
Proof.
  intros Hq Hlt. destruct (nearest_nonneg q Hq) as [H0 _].
  unfold round. cbv zeta.
  assert (T : Qle_bool (pow2 emax) (Qabs (nearest q)) = false).
  { destruct (Qle_bool _ _) eqn:T; [|reflexivity].
    apply Qle_bool_iff in T. rewrite Qabs_pos in T by exact H0. lra. }
  rewrite T. destruct (is_zero (nearest q)) eqn:Z; [|reflexivity].
  rewrite (is_neg_false q Hq). unfold zero, fin.
  rewrite Qred_zero; [reflexivity|].
  unfold is_zero in Z. apply Z.eqb_eq in Z. unfold Qeq. cbn. lia.
Qed.


(** Integers below [2^53] are binary64 numbers. *)
Lemma ilog2_inject_Z (z : Z) : z <> 0 -> ilog2 (inject_Z z) = Z.log2 (Z.abs z).
Proof.
  intros Hz. unfold ilog2. cbn [inject_Z Qnum Qden].
  change (Z.log2 1) with 0. rewrite Z.sub_0_r.
  destruct (Qle_bool _ _) eqn:T; [reflexivity|]. exfalso.
  assert (H : (pow2 (Z.log2 (Z.abs z)) <= Qabs (inject_Z z))%Q).
  { rewrite pow2_inject_Z by apply Z.log2_nonneg.
    change (Qabs (inject_Z z)) with (inject_Z (Z.abs z)). rewrite <- Zle_Qle.
    apply Z.log2_spec. lia. }
  apply Qle_bool_iff in H. congruence.
Qed.

Lemma nearest_pos_inject_Z (z : Z) :
  Z.abs z < 2 ^ 53 -> (nearest_pos (inject_Z z) == inject_Z (Z.abs z))%Q.
Proof.
  intros Hb. destruct (Z.eq_dec z 0) as [->|Hz]; [now apply nearest_pos_zero|].
  unfold nearest_pos, ulp_exponent, prec, emin. cbv zeta.
  rewrite (ilog2_inject_Z z Hz).
  set (l := Z.log2 (Z.abs z)).
  assert (Hl : 0 <= l < 53).
  { split; [apply Z.log2_nonneg|]. apply Z.log2_lt_pow2; lia. }
  rewrite Z.max_l by lia.
  change (Qabs (inject_Z z)) with (inject_Z (Z.abs z)).
  assert (Hp : (pow2 (l - (53 - 1)) * inject_Z (2 ^ (52 - l)) == 1)%Q).
  { rewrite <- pow2_inject_Z by lia. rewrite <- pow2_plus.
    replace (l - (53 - 1) + (52 - l)) with 0 by lia. reflexivity. }
  pose proof (pow2_pos (l - (53 - 1))) as HP.
  assert (E : (inject_Z (Z.abs z) / pow2 (l - (53 - 1))
               == inject_Z (Z.abs z * 2 ^ (52 - l)))%Q).
  { rewrite inject_Z_mult. apply (Qmult_inj_r _ _ (pow2 (l - (53 - 1)))); [lra|].
    rewrite <- Qmult_assoc, (Qmult_comm (inject_Z (2 ^ (52 - l)))), Hp.
    field. lra. }
  rewrite (round_half_even_compat _ _ E), round_half_even_Z.
  rewrite inject_Z_mult, <- Qmult_assoc, (Qmult_comm (inject_Z (2 ^ (52 - l)))), Hp.
  ring.
Qed.

Lemma nearest_inject_Z (z : Z) :
  Z.abs z < 2 ^ 53 -> (nearest (inject_Z z) == inject_Z z)%Q.
Proof.
  intros Hb. unfold nearest. rewrite Qred_inject_Z. cbv zeta.
  pose proof (nearest_pos_inject_Z z Hb) as E. rewrite is_neg_inject_Z.
  destruct (Z.ltb_spec z 0); rewrite E.
  - rewrite <- inject_Z_opp. now replace (- Z.abs z) with z by lia.
  - now replace (Z.abs z) with z by lia.
Qed.

Lemma pow2_emax_large : (inject_Z (2 ^ 64) <= pow2 emax)%Q.
Proof.
  rewrite <- pow2_inject_Z by lia. apply pow2_le. unfold emax. lia.
Qed.

Lemma round_inject_Z (z : Z) : Z.abs z < 2 ^ 53 -> round (inject_Z z) = of_Z z.
Proof.
  intros Hb. pose proof (nearest_inject_Z z Hb) as E.
  unfold round. cbv zeta.
  assert (T : Qle_bool (pow2 emax) (Qabs (nearest (inject_Z z))) = false).
  { destruct (Qle_bool _ _) eqn:T; [|reflexivity]. exfalso.
    apply Qle_bool_iff in T. rewrite E in T.
    change (Qabs (inject_Z z)) with (inject_Z (Z.abs z)) in T.
    pose proof pow2_emax_large as HL.
    assert (inject_Z (Z.abs z) < inject_Z (2 ^ 64))%Q; [| lra].
    rewrite <- Zlt_Qlt. lia. }
  rewrite T. destruct (is_zero (nearest (inject_Z z))) eqn:Z0.
  - assert (z = 0).
    { unfold is_zero in Z0. apply Z.eqb_eq in Z0.
      assert (H0 : (nearest (inject_Z z) == 0)%Q) by (unfold Qeq; cbn; lia).
      rewrite E in H0. unfold Qeq in H0. cbn in H0. lia. }
    subst z. reflexivity.
  - now apply fin_inject_Z.
Qed.


Lemma round_compat (q q' : Q) : (q == q')%Q -> round q = round q'.
Proof.
  intros E. unfold round.
  now rewrite (nearest_compat q q' E), (is_neg_compat q q' E).
Qed.

Lemma pow2_below_one (e : Z) : e <= 0 -> (pow2 e <= 1)%Q.
Proof. intros H. change 1%Q with (pow2 0). now apply pow2_le. Qed.

(** A small number that is not negative rounds to a small number that
    is not negative. *)
Lemma nearest_small (q : Q) :
  (0 <= q)%Q -> (q <= inject_Z (2 ^ 62))%Q ->
  (0 <= nearest q)%Q /\ (nearest q <= 2 * q + 1)%Q /\ (nearest q < pow2 emax)%Q.
Proof.
  intros H0 Hb. destruct (nearest_nonneg q H0) as [Hn He].
  pose proof (pow2_below_one (-53) ltac:(lia)) as Hu.
  pose proof (pow2_below_one (-1075) ltac:(lia)) as Ht.
  pose proof (pow2_pos (-53)) as Hu0.
  assert (Hqu : (q * pow2 (-53) <= q * 1)%Q).
  { apply Qmult_le_compat_nonneg; split; lra. }
  apply Qabs_diff_Qle_condition in He.
  pose proof pow2_emax_large as HL.
  assert (inject_Z (2 ^ 62) * 2 + 1 < inject_Z (2 ^ 64))%Q by reflexivity.
  repeat split; lra.
Qed.

(** The operations of the engine on numbers that are not negative. *)
Lemma b64_sub_fin (p q : Q) :
  (q <= p)%Q -> (nearest (p - q) < pow2 emax)%Q ->
  Binary64.sub (Fin p) (Fin q) = fin (nearest (p - q)).
Proof.
  intros Hle Hb. unfold Binary64.sub.
  destruct (sub_fin p q) as (r & -> & E). cbn [rnd].
  rewrite (round_compat r (p - q) E). apply round_nonneg; [lra | exact Hb].
Qed.

Lemma b64_div_fin (p q : Q) :
  (0 <= p)%Q -> (0 < q)%Q -> (nearest (p / q) < pow2 emax)%Q ->
  Binary64.div (Fin p) (Fin q) = fin (nearest (p / q)).
Proof.
  intros Hp Hq Hb. unfold Binary64.div.
  rewrite div_fin; [| lra | left; lra]. unfold fin at 1. cbn [rnd].
  rewrite (round_compat _ (p / q) (Qred_correct _)).
  apply round_nonneg; [| exact Hb].
  apply Qle_shift_div_l; lra.
Qed.

Lemma b64_mul_fin (p q : Q) :
  (0 <= p)%Q -> (0 <= q)%Q -> (nearest (p * q) < pow2 emax)%Q ->
  Binary64.mul (Fin p) (Fin q) = fin (nearest (p * q)).
Proof.
  intros Hp Hq Hb. unfold Binary64.mul.
  rewrite mul_fin by (left; split; assumption). unfold fin at 1. cbn [rnd].
  rewrite (round_compat _ (p * q) (Qred_correct _)).
  apply round_nonneg; [| exact Hb]. now apply Qmult_le_0_compat.
Qed.

Lemma fraction_range (q : Q) : (0 <= fraction q)%Q /\ (fraction q < 1)%Q.
Proof.
  unfold fraction. pose proof (Qfloor_le q) as H0. pose proof (Qlt_floor q) as H.
  rewrite inject_Z_plus in H. change (inject_Z 1) with 1%Q in H. split; lra.
Qed.

Lemma rem_one (p : Q) : (0 <= p)%Q -> (Fin p mod of_Z 1)%num = fin (fraction p).
Proof.
  intros Hp. unfold of_Z. rewrite rem_fin; [| discriminate | exact Hp].
  unfold fin. f_equal. apply Qred_complete. unfold fraction.
  assert (E : (p / inject_Z 1 == p)%Q) by (change (inject_Z 1) with 1%Q; field).
  rewrite trunc_nonneg by (rewrite E; exact Hp).
  rewrite (Qfloor_comp _ _ E). change (inject_Z 1) with 1%Q. ring.
Qed.

Lemma fin_compat (q q' : Q) : (q == q')%Q -> fin q = fin q'.
Proof. intros E. unfold fin. f_equal. now apply Qred_complete. Qed.

(** The frame index the engine computes for a tick that is not earlier
    than a finite origin: the formula of the specification, rounded at
    each step. *)
Lemma b64_frame_at (now : Z) (p : Q) (d : dataset) :
  (- inject_Z (2 ^ 53) < p)%Q -> (p <= inject_Z now)%Q -> now < 2 ^ 53 ->
  Z.of_nat (List.length (positions d)) <= 2 ^ 32 ->
  Binary64.frame_at now (Fin p) d =
    of_Z (rounded_frame_index now p 60 (List.length (positions d))).
Proof.
  intros Hlo Hle Hnow Hlen.
  unfold Binary64.frame_at, rounded_frame_index, CONFIG.simDuration, length_of, of_nat.
  set (L := Z.of_nat (List.length (positions d))) in *.
  assert (Hnow' : (- inject_Z (2 ^ 53) < inject_Z now)%Q) by lra.
  assert (Habs : Z.abs now < 2 ^ 53).
  { rewrite <- inject_Z_opp, <- Zlt_Qlt in Hnow'. lia. }
  assert (Hnow2 : (inject_Z now < inject_Z (2 ^ 53))%Q) by (rewrite <- Zlt_Qlt; lia).
  cbn [rnd of_Z]. rewrite (round_inject_Z now Habs). unfold of_Z.
  (* elapsed milliseconds *)
  set (e0 := (inject_Z now - p)%Q).
  assert (He0 : (0 <= e0)%Q /\ (e0 <= inject_Z (2 ^ 54))%Q).
  { unfold e0. change (inject_Z (2 ^ 54)) with (inject_Z (2 ^ 53) + inject_Z (2 ^ 53))%Q.
    split; lra. }
  destruct (nearest_small e0) as (Hn0 & Hn0' & Hn0''); [lra | |].
  { assert (inject_Z (2 ^ 54) <= inject_Z (2 ^ 62))%Q by discriminate. lra. }
  rewrite b64_sub_fin by (fold e0; assumption). fold e0.
  (* seconds *)
  set (n0 := nearest e0) in *.
  set (e1 := (n0 / 1000)%Q).
  assert (He1 : (0 <= e1)%Q /\ (e1 <= inject_Z (2 ^ 54))%Q).
  { unfold e1. split; [apply Qle_shift_div_l; lra | apply Qle_shift_div_r; [lra|]].
    change (inject_Z (2 ^ 54)) with 18014398509481984%Q in *. lra. }
  destruct (nearest_small e1) as (Hn1 & Hn1' & Hn1''); [lra | |].
  { assert (inject_Z (2 ^ 54) <= inject_Z (2 ^ 62))%Q by discriminate. lra. }
  unfold fin at 1. change (inject_Z 1000) with 1000%Q.
  rewrite b64_div_fin;
    [| rewrite Qred_correct; exact Hn0 | reflexivity
     | rewrite (nearest_compat _ e1); [exact Hn1'' | unfold e1; now rewrite Qred_correct]].
  rewrite (nearest_compat (Qred n0 / 1000) e1) by (unfold e1; now rewrite Qred_correct).
  (* fraction of the duration *)
  set (n1 := nearest e1) in *.
  set (e2 := (n1 / 60)%Q).
  assert (He2 : (0 <= e2)%Q /\ (e2 <= inject_Z (2 ^ 54))%Q).
  { unfold e2. split; [apply Qle_shift_div_l; lra | apply Qle_shift_div_r; [lra|]].
    change (inject_Z (2 ^ 54)) with 18014398509481984%Q in *. lra. }
  destruct (nearest_small e2) as (Hn2 & Hn2' & Hn2''); [lra | |].
  { assert (inject_Z (2 ^ 54) <= inject_Z (2 ^ 62))%Q by discriminate. lra. }
  unfold fin at 1. change (inject_Z 60) with 60%Q.
  rewrite b64_div_fin;
    [| rewrite Qred_correct; exact Hn1 | reflexivity
     | rewrite (nearest_compat _ e2); [exact Hn2'' | unfold e2; now rewrite Qred_correct]].
  rewrite (nearest_compat (Qred n1 / 60) e2) by (unfold e2; now rewrite Qred_correct).
  set (n2 := nearest e2) in *.
  unfold fin at 1. rewrite rem_one by (rewrite Qred_correct; exact Hn2).
  rewrite (fin_compat (fraction (Qred n2)) (fraction n2)).
  2:{ unfold fraction. rewrite (Qfloor_comp _ _ (Qred_correct n2)).
      now rewrite Qred_correct. }
  (* the frame *)
  destruct (fraction_range n2) as [Hf0 Hf1].
  set (f := fraction n2) in *.
  assert (HL0 : (0 <= inject_Z L)%Q) by (rewrite <- (Zle_Qle 0); unfold L; lia).
  assert (HL1 : (inject_Z L <= inject_Z (2 ^ 32))%Q) by (rewrite <- Zle_Qle; exact Hlen).
  set (e3 := (f * inject_Z L)%Q).
  assert (He3 : (0 <= e3)%Q /\ (e3 <= inject_Z (2 ^ 32))%Q).
  { unfold e3. split; [apply Qmult_le_0_compat; lra|].
    setoid_replace (inject_Z (2 ^ 32)) with (1 * inject_Z (2 ^ 32))%Q by ring.
    apply Qmult_le_compat_nonneg; split; lra. }
  destruct (nearest_small e3) as (Hn3 & Hn3' & Hn3''); [lra | |].
  { assert (inject_Z (2 ^ 32) <= inject_Z (2 ^ 62))%Q by discriminate. lra. }
  unfold fin at 1.
  rewrite b64_mul_fin;
    [| rewrite Qred_correct; exact Hf0 | exact HL0
     | rewrite (nearest_compat _ e3); [exact Hn3'' | unfold e3; now rewrite Qred_correct]].
  rewrite (nearest_compat (Qred f * inject_Z L) e3) by (unfold e3; now rewrite Qred_correct).
  unfold fin, floor, of_Z. do 2 f_equal. apply Qfloor_comp, Qred_correct.
Qed.


Lemma Qfloor_close (a b : Q) :
  (Qabs (a - b) < 1)%Q -> Z.abs (Qfloor a - Qfloor b) <= 1.
Proof.
  intros H. apply Qabs_diff_Qlt_condition in H.
  pose proof (Qfloor_le a) as A1. pose proof (Qlt_floor a) as A2.
  pose proof (Qfloor_le b) as B1. pose proof (Qlt_floor b) as B2.
  rewrite inject_Z_plus in A2, B2. change (inject_Z 1) with 1%Q in A2, B2.
  assert (Qfloor a < Qfloor b + 2).
  { rewrite Zlt_Qlt, inject_Z_plus. change (inject_Z 2) with 2%Q. lra. }
  assert (Qfloor b < Qfloor a + 2).
  { rewrite Zlt_Qlt, inject_Z_plus. change (inject_Z 2) with 2%Q. lra. }
  lia.
Qed.

Lemma unit_roundoff_value : (pow2 (-53) == 1 # 9007199254740992)%Q.
Proof. reflexivity. Qed.

Lemma least_half_small : (pow2 (-1075) <= 1 # 9007199254740992)%Q.
Proof. rewrite <- unit_roundoff_value. apply pow2_le. lia. Qed.

(** The error of rounding a number that is not negative, in figures. *)
Lemma nearest_error (q : Q) :
  (0 <= q)%Q ->
  (0 <= nearest q)%Q
  /\ (q - (q + 1) * (1 # 9007199254740992) <= nearest q)%Q
  /\ (nearest q <= q + (q + 1) * (1 # 9007199254740992))%Q.
Proof.
  intros Hq. destruct (nearest_nonneg q Hq) as [H0 He].
  apply Qabs_diff_Qle_condition in He.
  rewrite unit_roundoff_value in He. pose proof least_half_small as Ht.
  repeat split; lra.
Qed.

Lemma nearest_exact (q : Q) (z : Z) :
  (q == inject_Z z)%Q -> Z.abs z < 2 ^ 53 -> (nearest q == inject_Z z)%Q.
Proof.
  intros E Hz. rewrite (nearest_compat q (inject_Z z) E).
  now apply nearest_inject_Z.
Qed.

(** The exact value of the formula of the specification, for an origin
    that is an integer instant. *)
Lemma spec_frame_index_elapsed (now origin : Z) (frames : nat) :
  origin <= now ->
  spec_frame_index now (inject_Z origin) 60 frames =
    ((now - origin) mod 60000 * Z.of_nat frames) / 60000.
Proof.
  intros Hle. unfold spec_frame_index, fraction.
  set (e := now - origin). set (L := Z.of_nat frames).
  assert (Ex : ((inject_Z now - inject_Z origin) / 1000 / 60
                == inject_Z e / inject_Z 60000)%Q).
  { assert (Ee : (inject_Z now - inject_Z origin == inject_Z e)%Q).
    { unfold e, Qminus, Z.sub. now rewrite <- inject_Z_opp, <- inject_Z_plus. }
    rewrite Ee. change (inject_Z 60000) with 60000%Q. field. }
  rewrite (Qfloor_quotient _ e 60000 ltac:(lia) Ex).
  apply Qfloor_quotient; [lia|].
  rewrite Ex, inject_Z_mult. change (inject_Z 60000) with 60000%Q.
  pose proof (Z.div_mod e 60000 ltac:(lia)) as Hdm.
  assert (E : (inject_Z e == 60000 * inject_Z (e / 60000) + inject_Z (e mod 60000))%Q).
  { rewrite Hdm at 1. rewrite inject_Z_plus, inject_Z_mult. reflexivity. }
  rewrite E. field.
Qed.


Lemma fraction_compat (q q' : Q) : (q == q')%Q -> (fraction q == fraction q')%Q.
Proof.
  intros E. unfold fraction. rewrite (Qfloor_comp q q' E). now rewrite E.
Qed.

Lemma fraction_Z (z : Z) : (fraction (inject_Z z) == 0)%Q.
Proof. unfold fraction. rewrite Qfloor_Z. ring. Qed.

(** The frame the engine computes is the frame of the exact formula or
    one next to it. *)
Lemma rounded_frame_index_close (now origin : Z) (frames : nat) :
  0 <= origin <= now -> now < 2 ^ 45 -> Z.of_nat frames <= 2 ^ 20 ->
  Z.abs (rounded_frame_index now (inject_Z origin) 60 frames
         - spec_frame_index now (inject_Z origin) 60 frames) <= 1.
Proof.
  intros Ho Hnow Hlen. unfold rounded_frame_index, spec_frame_index.
  set (L := Z.of_nat frames) in *.
  set (e := now - origin).
  assert (He : 0 <= e < 2 ^ 45) by (unfold e; lia).
  assert (Ee : (inject_Z now - inject_Z origin == inject_Z e)%Q).
  { unfold e, Qminus, Z.sub. now rewrite <- inject_Z_opp, <- inject_Z_plus. }
  pose proof (Z.div_mod e 60000 ltac:(lia)) as Hdm.
  pose proof (Z.mod_pos_bound e 60000 ltac:(lia)) as Hr.
  set (k := e / 60000) in *. set (r := e mod 60000) in *.
  assert (Hk : 0 <= k) by (apply Z.div_pos; lia).
  assert (EQ : (inject_Z e == 60000 * inject_Z k + inject_Z r)%Q).
  { rewrite Hdm at 1. rewrite inject_Z_plus, inject_Z_mult. reflexivity. }
  assert (He0 : (0 <= inject_Z e)%Q) by (rewrite <- (Zle_Qle 0); lia).
  assert (He1 : (inject_Z e <= 35184372088832)%Q).
  { change 35184372088832%Q with (inject_Z (2 ^ 45)). rewrite <- Zle_Qle. lia. }
  assert (Hr0 : (0 <= inject_Z r)%Q) by (rewrite <- (Zle_Qle 0); lia).
  assert (Hr1 : (inject_Z r <= 59999)%Q).
  { change 59999%Q with (inject_Z 59999). rewrite <- Zle_Qle. lia. }
  assert (HL0 : (0 <= inject_Z L)%Q) by (rewrite <- (Zle_Qle 0); unfold L; lia).
  assert (HL1 : (inject_Z L <= 1048576)%Q).
  { change 1048576%Q with (inject_Z (2 ^ 20)). rewrite <- Zle_Qle. exact Hlen. }
  set (x := ((inject_Z now - inject_Z origin) / 1000 / 60)%Q).
  assert (Ex : (x == inject_Z e / 60000)%Q) by (unfold x; rewrite Ee; field).
  (* the elapsed milliseconds are exact *)
  assert (E0 : (nearest (inject_Z now - inject_Z origin) == inject_Z e)%Q).
  { apply nearest_exact; [exact Ee | lia]. }
  set (n0 := nearest (inject_Z now - inject_Z origin)) in *.
  set (a1 := (n0 / 1000)%Q).
  assert (Ea1 : (a1 == inject_Z e / 1000)%Q) by (unfold a1; now rewrite E0).
  set (n1 := nearest a1).
  set (a2 := (n1 / 60)%Q).
  set (n2 := nearest a2).
  destruct (Z.eq_dec r 0) as [Hz|Hnz].
  - (* a whole number of rounds: every step is exact *)
    assert (E1 : (n1 == inject_Z (60 * k))%Q).
    { apply nearest_exact; [| lia].
      rewrite Ea1, EQ, Hz, inject_Z_mult. change (inject_Z 60) with 60%Q.
      change (inject_Z 0) with 0%Q. field. }
    assert (E2 : (n2 == inject_Z k)%Q).
    { apply nearest_exact; [| lia].
      unfold a2. rewrite E1, inject_Z_mult. change (inject_Z 60) with 60%Q. field. }
    assert (F2 : (fraction n2 == 0)%Q).
    { rewrite (fraction_compat _ _ E2). apply fraction_Z. }
    assert (Fx : (fraction x == 0)%Q).
    { rewrite (fraction_compat x (inject_Z k)); [apply fraction_Z|].
      rewrite Ex, EQ, Hz. change (inject_Z 0) with 0%Q. field. }
    assert (E3 : (nearest (fraction n2 * inject_Z L) == inject_Z 0)%Q).
    { apply nearest_exact; [| reflexivity]. rewrite F2. change (inject_Z 0) with 0%Q. ring. }
    rewrite (Qfloor_comp _ _ E3), Qfloor_Z.
    assert (E4 : (fraction x * inject_Z L == inject_Z 0)%Q).
    { rewrite Fx. change (inject_Z 0) with 0%Q. ring. }
    rewrite (Qfloor_comp _ _ E4), Qfloor_Z. lia.
  - (* otherwise the errors are too small to cross a round *)
    assert (Hr2 : (1 <= inject_Z r)%Q).
    { change 1%Q with (inject_Z 1). rewrite <- Zle_Qle. lia. }
    assert (Ma1 : (a1 * 1000 == inject_Z e)%Q) by (rewrite Ea1; field).
    assert (Mx : (x * 60000 == inject_Z e)%Q) by (rewrite Ex; field).
    assert (Ha1 : (0 <= a1)%Q) by lra.
    destruct (nearest_error a1 Ha1) as (Hn1 & Hn1l & Hn1u). fold n1 in Hn1, Hn1l, Hn1u.
    assert (Ma2 : (a2 * 60 == n1)%Q) by (unfold a2; field).
    assert (Ha2 : (0 <= a2)%Q) by lra.
    destruct (nearest_error a2 Ha2) as (Hn2 & Hn2l & Hn2u). fold n2 in Hn2, Hn2l, Hn2u.
    assert (Hd : (Qabs (n2 - x) <= 1 # 5000000)%Q).
    { clearbody n2 a2 n1 a1 x. apply Qabs_Qle_condition. split; lra. }
    apply Qabs_Qle_condition in Hd.
    assert (Fk : Qfloor n2 = k).
    { clearbody n2 a2 n1 a1 x. apply Qfloor_unique; lra. }
    assert (Fxk : Qfloor x = k).
    { clearbody n2 a2 n1 a1 x. apply Qfloor_unique; lra. }
    assert (Hf2 : (0 <= fraction n2)%Q /\ (fraction n2 < 1)%Q) by apply fraction_range.
    assert (Hdf : (fraction n2 - fraction x == n2 - x)%Q).
    { unfold fraction. rewrite Fk, Fxk. ring. }
    set (e3 := (fraction n2 * inject_Z L)%Q).
    assert (He3 : (0 <= e3)%Q /\ (e3 <= 1048576)%Q).
    { unfold e3. split; [apply Qmult_le_0_compat; lra|].
      setoid_replace 1048576%Q with (1 * 1048576)%Q by ring.
      apply Qmult_le_compat_nonneg; split; lra. }
    destruct (nearest_error e3 (proj1 He3)) as (Hn3 & Hn3l & Hn3u).
    set (n3 := nearest e3) in *.
    assert (Hprod : (Qabs (e3 - fraction x * inject_Z L) <= (1 # 5000000) * 1048576)%Q).
    { setoid_replace (e3 - fraction x * inject_Z L)%Q
        with ((fraction n2 - fraction x) * inject_Z L)%Q by (unfold e3; ring).
      rewrite Hdf, Qabs_Qmult, (Qabs_pos (inject_Z L)) by exact HL0.
      apply Qmult_le_compat_nonneg; split;
        [apply Qabs_nonneg | apply Qabs_Qle_condition; exact Hd | exact HL0 | exact HL1]. }
    apply Qabs_Qle_condition in Hprod.
    apply Qfloor_close. apply Qabs_Qlt_condition. split; lra.
Qed.

End Rounding.

(** On the operations that decide the runs below, the rounding is that
    of the binary64 operations of the Standard Library: 80000 ms and
    1005 ms after the origin, with 3 and 8000 frames. *)
Lemma round_agrees_with_SpecFloat :
  let SFdiv := SpecFloat.SFdiv Binary64.prec Binary64.emax in
  let SFmul := SpecFloat.SFmul Binary64.prec Binary64.emax in
  let SFsub := SpecFloat.SFsub Binary64.prec Binary64.emax in
  let sf := Binary64.spec_float_of in
  let b64 := Binary64.of_spec_float in
  b64 (SFdiv (sf 80000%positive) (sf 1000%positive)) = Binary64.div (of_Z 80000) (of_Z 1000)
  /\ b64 (SFdiv (sf 80%positive) (sf 60%positive)) = Binary64.div (of_Z 80) (of_Z 60)
  /\ b64 (SFmul (SFsub (SFdiv (sf 80%positive) (sf 60%positive)) (sf 1%positive)) (sf 3%positive))
     = Binary64.mul (Binary64.div (of_Z 80) (of_Z 60) mod of_Z 1) (of_Z 3)
  /\ b64 (SFdiv (sf 1005%positive) (sf 1000%positive)) = Binary64.div (of_Z 1005) (of_Z 1000)
  /\ b64 (SFmul (SFdiv (SFdiv (sf 1005%positive) (sf 1000%positive)) (sf 60%positive)) (sf 8000%positive))
     = Binary64.mul
         (Binary64.div (Binary64.div (of_Z 1005) (of_Z 1000)) (of_Z 60) mod of_Z 1)
         (of_Z 8000)
  /\ b64 (SFdiv (sf 1%positive) (SpecFloat.S754_zero true)) = of_Z 1 / NegZero.
Proof. vm_compute. repeat split. Qed.

Section EngineTick.

(** A tick of the engine while playing: the frame is set, both canvases
    are drawn and, unless drawing fails, the next tick is requested. *)
Lemma engine_tick_playing_run (fuel : nat) (now handle : Z) (w : world)
    (d : dataset) :
  animData (st w) = Some d ->
  isPlaying (st w) = true ->
  let s' := set_frameIdx (Binary64.frame_at now (playStartTime (st w)) d) (st w) in
  let w1 := {| st := s'; els := els w |} in
  let draw := (drawFrame fuel ;; drawGraph fuel) w1 in
  Binary64.animate fuel now handle w =
    match outcome_of draw with
    | Ok _ => (Ok tt, {| st := set_animId (Some handle) s'; els := els w |},
               events_of draw ++ [RequestAnimationFrame])
    | Throw e => (Throw e, w1, events_of draw)
    | Timeout => (Timeout, w1, events_of draw)
    end.
Proof.
  intros Hd Hp s' w1 draw. unfold Binary64.animate.
  rewrite bind_get_state. rewrite Hd, Hp.
  unfold bind at 1. rewrite bind_set_state. fold s' w1.
  rewrite (read_only_run _ w1 (read_only_redraw fuel)). fold draw.
  destruct (outcome_of draw); reflexivity.
Qed.

Lemma engine_tick_playing (fuel : nat) (now handle : Z) (w : world) (d : dataset) :
  animData (st w) = Some d ->
  isPlaying (st w) = true ->
  let s' := set_frameIdx (Binary64.frame_at now (playStartTime (st w)) d) (st w) in
  st (after (Binary64.animate fuel now handle) w) = s' \/
  st (after (Binary64.animate fuel now handle) w) = set_animId (Some handle) s'.
Proof.
  intros Hd Hp s'. unfold after.
  rewrite (engine_tick_playing_run fuel now handle w d Hd Hp).
  destruct (outcome_of _); simpl; auto.
Qed.

Lemma engine_tick_paused (fuel : nat) (now handle : Z) (w : world) :
  isPlaying (st w) = false ->
  Binary64.animate fuel now handle w =
    (Ok tt, {| st := set_animId (Some handle) (st w); els := els w |},
     [RequestAnimationFrame]).
Proof.
  intros Hp. unfold Binary64.animate, bind, get_state. rewrite Hp. reflexivity.
Qed.

End EngineTick.

(** C2 (as amended). While playing, a tick of the engine at [now], not
    earlier than a finite origin, sets the frame index to the formula
    [floor(((now - playStartTime)/1000 / simDuration mod 1) * positions.length)]
    with the difference, the two quotients and the product each rounded
    to the nearest binary64 number, and leaves the dataset, the play
    flag and the origin as they are; while paused, a tick leaves the
    frame index, the dataset, the play flag, the origin and the page as
    they are and draws nothing (it only requests the next animation
    frame).  The instants are below [2^53] ms, the origin above
    [-2^53], and there are at most [2^32] frames. *)
Theorem tick_frame_index (fuel : nat) (now handle : Z) (w : world) (d : dataset) :
  animData (st w) = Some d ->
  let w' := after (Binary64.animate fuel now handle) w in
  (isPlaying (st w) = true ->
     (forall p : Q,
        playStartTime (st w) = Fin p ->
        (- inject_Z (2 ^ 53) < p)%Q -> (p <= inject_Z now)%Q ->
        (now < 2 ^ 53)%Z ->
        (Z.of_nat (List.length (positions d)) <= 2 ^ 32)%Z ->
        frameIdx (st w') =
          of_Z (rounded_frame_index now p 60 (List.length (positions d))))
     /\ animData (st w') = animData (st w)
     /\ isPlaying (st w') = true
     /\ playStartTime (st w') = playStartTime (st w))
  /\ (isPlaying (st w) = false ->
     frameIdx (st w') = frameIdx (st w)
     /\ animData (st w') = animData (st w)
     /\ isPlaying (st w') = false
     /\ playStartTime (st w') = playStartTime (st w)
     /\ els w' = els w
     /\ events_of (Binary64.animate fuel now handle w) = [RequestAnimationFrame]).
Proof.
  intros Hd w'. split; intros Hp.
  - split.
    + intros p Hstart Hlo Hle Hnow Hlen.
      destruct (engine_tick_playing fuel now handle w d Hd Hp) as [E|E];
        subst w'; rewrite E; cbn [frameIdx set_frameIdx set_animId];
        rewrite Hstart; now apply b64_frame_at.
    + destruct (engine_tick_playing fuel now handle w d Hd Hp) as [E|E];
        subst w'; rewrite E; simpl; repeat split; solve [reflexivity | exact Hp].
  - subst w'. unfold after. rewrite (engine_tick_paused fuel now handle w Hp).
    simpl. repeat split; solve [reflexivity | exact Hp].
Qed.

Lemma tick_frame_index_witness :
  frameIdx (st (after (Binary64.animate 100 80000 2) (playing scenario1 0))) = of_Z 0
  /\ frameIdx (st (after (Binary64.animate 100 45000 2) (playing scenario1 0))) = of_Z 2
  /\ events_of (Binary64.animate 100 45000 2
                  {| st := set_isPlaying false (st (playing scenario1 2));
                     els := page400 |}) = [RequestAnimationFrame].
Proof.
  assert (Hlo : (- inject_Z (2 ^ 53) < 0)%Q) by reflexivity.
  assert (Hlen : (Z.of_nat (List.length (positions scenario1)) <= 2 ^ 32)%Z)
    by (simpl; lia).
  split; [| split].
  - assert (Hle : (0 <= inject_Z 80000)%Q) by discriminate.
    assert (Hnow : (80000 < 2 ^ 53)%Z) by reflexivity.
    destruct (tick_frame_index 100 80000 2 (playing scenario1 0) scenario1 eq_refl)
      as [H _].
    destruct (H eq_refl) as [E _].
    rewrite (E 0%Q eq_refl Hlo Hle Hnow Hlen). reflexivity.
  - assert (Hle : (0 <= inject_Z 45000)%Q) by discriminate.
    assert (Hnow : (45000 < 2 ^ 53)%Z) by reflexivity.
    destruct (tick_frame_index 100 45000 2 (playing scenario1 0) scenario1 eq_refl)
      as [H _].
    destruct (H eq_refl) as [E _].
    rewrite (E 0%Q eq_refl Hlo Hle Hnow Hlen). reflexivity.
  - destruct (tick_frame_index 100 45000 2
                {| st := set_isPlaying false (st (playing scenario1 2));
                   els := page400 |} scenario1 eq_refl) as [_ H].
    destruct (H eq_refl) as (_ & _ & _ & _ & _ & E). exact E.
Defined.

(** C2 as stated fails: scenario 1 (3 frames) plays from the instant 0
    and the tick comes at 80000 ms.  The formula gives
    [floor((80/60 mod 1) * 3) = floor(1) = 1]; the engine rounds 80/60
    down to the binary64 number below 4/3, the product is below 1, and
    the tick stores 0. *)
Lemma tick_rounds_below_formula :
  let w := playing scenario1 0 in
  animData (st w) = Some scenario1
  /\ isPlaying (st w) = true
  /\ playStartTime (st w) = of_Z 0
  /\ spec_frame_index 80000 0 60 (List.length (positions scenario1)) = 1%Z
  /\ (Binary64.nearest (80 / 60) < 4 # 3)%Q
  /\ frameIdx (st (after (Binary64.animate 100 80000 2) w)) = of_Z 0.
Proof. vm_compute. repeat split. Qed.

(** X1. The frame a tick of the engine stores is the frame of the exact
    formula or one next to it: while a dataset of at most [2^20] frames
    plays from an origin that is an integer instant, a tick at
    [now >= origin], below [2^45] ms, stores a frame within one of
    [(((now - origin) mod 60000) * positions.length) / 60000] (integer
    quotient), which is the value of the formula of the specification
    in exact arithmetic. *)
Theorem tick_shows_frame_of_elapsed (fuel : nat) (now handle origin : Z)
    (w : world) (d : dataset) :
  animData (st w) = Some d ->
  isPlaying (st w) = true ->
  playStartTime (st w) = of_Z origin ->
  (0 <= origin <= now)%Z -> (now < 2 ^ 45)%Z ->
  (Z.of_nat (List.length (positions d)) <= 2 ^ 20)%Z ->
  let exact :=
    ((((now - origin) mod 60000) * Z.of_nat (List.length (positions d))) / 60000)%Z in
  spec_frame_index now (inject_Z origin) 60 (List.length (positions d)) = exact
  /\ exists f : Z,
       frameIdx (st (after (Binary64.animate fuel now handle) w)) = of_Z f
       /\ (Z.abs (f - exact) <= 1)%Z.
Proof.
  intros Hd Hp Ho Hle Hnow Hlen exact.
  assert (Hspec : spec_frame_index now (inject_Z origin) 60
                    (List.length (positions d)) = exact).
  { apply spec_frame_index_elapsed. lia. }
  split; [exact Hspec|].
  exists (rounded_frame_index now (inject_Z origin) 60 (List.length (positions d))).
  split.
  - assert (Hlo : (- inject_Z (2 ^ 53) < inject_Z origin)%Q).
    { rewrite <- inject_Z_opp, <- Zlt_Qlt. lia. }
    assert (Hle' : (inject_Z origin <= inject_Z now)%Q) by (rewrite <- Zle_Qle; lia).
    destruct (engine_tick_playing fuel now handle w d Hd Hp) as [E|E];
      rewrite E; cbn [frameIdx set_frameIdx set_animId]; rewrite Ho;
      apply b64_frame_at; solve [assumption | lia].
  - rewrite <- Hspec. apply rounded_frame_index_close; assumption.
Qed.

Lemma tick_shows_frame_of_elapsed_witness :
  exists f : Z,
    frameIdx (st (after (Binary64.animate 100 80000 2) (playing scenario1 0))) = of_Z f
    /\ (Z.abs (f - 1) <= 1)%Z.
Proof.
  assert (H1 : (0 <= 0 <= 80000)%Z) by lia.
  assert (H2 : (80000 < 2 ^ 45)%Z) by reflexivity.
  assert (H3 : (Z.of_nat (List.length (positions scenario1)) <= 2 ^ 20)%Z)
    by (simpl; lia).
  exact (proj2 (tick_shows_frame_of_elapsed 100 80000 2 0 (playing scenario1 0)
                  scenario1 eq_refl eq_refl eq_refl H1 H2 H3)).
Defined.

(** ** Pause and resume *)

Section PauseResume.

(** The origin the resume branch computes at the last frame, followed
    by a tick at the same instant, gives frame 0. *)
Lemma frame_at_resumed_last (now : Z) (d : dataset) :
  (2 <= Z.of_nat (List.length (positions d)))%Z ->
  let last := (Z.of_nat (List.length (positions d)) - 1)%Z in
  let currentProg := of_Z last / (length_of (positions d) - of_Z 1) in
  frame_at now (of_Z now - currentProg * CONFIG.simDuration * of_Z 1000) d
  = of_Z 0.
Proof.
  intros HL. cbv zeta. unfold frame_at, CONFIG.simDuration, length_of, of_nat.
  set (L := Z.of_nat (List.length (positions d))) in *.
  rewrite sub_of_Z.
  assert (Hone : of_Z (L - 1) / of_Z (L - 1) = of_Z 1).
  { assert (HL1 : (0 < inject_Z (L - 1))%Q) by (rewrite <- (Zlt_Qlt 0); lia).
    unfold of_Z. rewrite div_fin; [| lra | left; lra].
    apply fin_inject_Z. change (inject_Z 1) with 1%Q. field. lra. }
  rewrite Hone. rewrite !mul_of_Z by (left; lia). rewrite !sub_of_Z.
  replace (now - (now - 1 * 60 * 1000))%Z with 60000%Z by lia.
  change (of_Z 60000 / of_Z 1000 / of_Z 60 mod of_Z 1) with (of_Z 0).
  rewrite mul_of_Z by (left; lia). reflexivity.
Qed.

End PauseResume.

(** X3. Resuming at the last frame starts over: with a dataset of at
    least two frames paused on its last frame, a click on play/pause at
    [now] followed by the tick at [now] shows frame 0. *)
Theorem resume_at_last_frame_restarts (fuel : nat) (now handle : Z)
    (confirmed : bool) (w : world) (d : dataset) :
  animData (st w) = Some d ->
  isPlaying (st w) = false ->
  (2 <= Z.of_nat (List.length (positions d)))%Z ->
  frameIdx (st w) = of_Z (Z.of_nat (List.length (positions d)) - 1)%Z ->
  frameIdx (st (after (animate fuel now handle)
                  (after (play_click fuel now confirmed) w))) = of_Z 0.
Proof.
  intros Hd Hp HL Hf.
  pose proof (play_click_resume fuel now confirmed w d Hd Hp) as Hst.
  cbv zeta in Hst. rewrite Hf in Hst.
  set (w1 := after (play_click fuel now confirmed) w) in *.
  assert (Hd1 : animData (st w1) = Some d) by (rewrite Hst; exact Hd).
  assert (Hp1 : isPlaying (st w1) = true) by (rewrite Hst; reflexivity).
  destruct (animate_playing fuel now handle w1 d Hd1 Hp1) as [E|E]; rewrite E;
    cbn [frameIdx set_frameIdx set_animId]; rewrite Hst;
    cbn [playStartTime set_isPlaying set_playStartTime];
    now apply frame_at_resumed_last.
Qed.

Lemma resume_at_last_frame_restarts_witness :
  frameIdx
    (st (after (animate 100 90000 3)
           (after (play_click 100 90000 true)
              {| st := set_isPlaying false (st (playing scenario1 2));
                 els := page400 |}))) = of_Z 0.
Proof.
  apply (resume_at_last_frame_restarts 100 90000 3 true
           {| st := set_isPlaying false (st (playing scenario1 2));
              els := page400 |} scenario1 eq_refl eq_refl).
  - simpl. lia.
  - reflexivity.
Defined.

(** ** Reset *)

Section ResetClick.

Lemma reset_click_world (fuel : nat) (now : Z) (w : world) :
  after (reset_click fuel now) w =
    {| st := if isPlaying (st w)
             then set_playStartTime (of_Z now) (set_frameIdx (of_Z 0) (st w))
             else set_frameIdx (of_Z 0) (st w);
       els := els w |}.
Proof.
  unfold after, reset_click. rewrite bind_set_state, bind_get_state.
  cbn [st set_frameIdx isPlaying els].
  destruct (isPlaying (st w)).
  - rewrite bind_set_state. now rewrite (read_only_redraw fuel).
  - rewrite bind_ret. now rewrite (read_only_redraw fuel).
Qed.

End ResetClick.

(** X4. Reset goes back to frame 0 and keeps the play flag and the
    dataset.  While playing it also moves the origin to [now], so that
    the tick at that instant stays on frame 0; while paused it leaves
    the origin alone, and the tick keeps frame 0 as well. *)
Theorem reset_goes_to_first_frame (fuel : nat) (now handle : Z) (w : world)
    (d : dataset) :
  animData (st w) = Some d ->
  let r := after (reset_click fuel now) w in
  frameIdx (st r) = of_Z 0
  /\ isPlaying (st r) = isPlaying (st w)
  /\ animData (st r) = Some d
  /\ playStartTime (st r) =
     (if isPlaying (st w) then of_Z now else playStartTime (st w))
  /\ els r = els w
  /\ frameIdx (st (after (animate fuel now handle) r)) = of_Z 0.
Proof.
  intros Hd r. subst r. rewrite reset_click_world.
  destruct (isPlaying (st w)) eqn:Hp; cbn [st els]; repeat split; try assumption.
  - set (w1 := {| st := _; els := _ |}).
    pose proof (frame_at_elapsed now 0 d ltac:(lia)) as E.
    rewrite Z.add_0_r in E.
    destruct (animate_playing fuel now handle w1 d Hd Hp) as [H|H]; rewrite H;
      exact E.
  - unfold after. rewrite animate_paused by exact Hp. reflexivity.
Qed.

Lemma reset_goes_to_first_frame_witness :
  frameIdx
    (st (after (animate 100 45000 3)
           (after (reset_click 100 45000) (playing scenario1 2)))) = of_Z 0.
Proof.
  destruct (reset_goes_to_first_frame 100 45000 3 (playing scenario1 2)
              scenario1 eq_refl) as (_ & _ & _ & _ & _ & H).
  exact H.
Defined.

(** ** Resizing *)

(** X5. A resize makes both canvases [size] x [size] and never touches
    the playback state.  While playing, or with no dataset, it draws
    nothing; while paused with a dataset it redraws both canvases at the
    new size, starting by clearing the [size] x [size] scene. *)
Theorem resize_keeps_playback (fuel : nat) (size : Z) (w : world) :
  let resized := {| st := st w; els := set_sizes size (els w) |} in
  let r := resizeCanvases fuel size w in
  world_of r = resized
  /\ (isPlaying (st w) = true \/ animData (st w) = None ->
      outcome_of r = Ok tt /\ events_of r = [])
  /\ (isPlaying (st w) = false -> animData (st w) <> None ->
      r = (drawFrame fuel ;; drawGraph fuel) resized
      /\ exists rest,
           events_of r =
             Canvas ctx (clearRect (of_Z 0) (of_Z 0) (of_Z size) (of_Z size))
             :: plain_grid ctx (of_Z size) (of_Z size) ++ rest).
Proof.
  intros resized r.
  assert (Hr : r = match negb (isPlaying (st w)), animData (st w) with
                   | true, Some _ => (drawFrame fuel ;; drawGraph fuel) resized
                   | _, _ => (Ok tt, resized, [])
                   end).
  { unfold r, resizeCanvases. rewrite bind_set_page, bind_get_state.
    cbn [st]. fold resized.
    destruct (isPlaying (st w)), (animData (st w)); reflexivity. }
  split; [| split].
  - rewrite Hr. destruct (isPlaying (st w)), (animData (st w)); try reflexivity.
    apply (read_only_redraw fuel).
  - intros [Hp|Hd]; rewrite Hr.
    + rewrite Hp. destruct (animData (st w)); split; reflexivity.
    + rewrite Hd. destruct (isPlaying (st w)); split; reflexivity.
  - intros Hp Hd. rewrite Hr, Hp. destruct (animData (st w)) as [d|] eqn:E;
      [| congruence].
    split; [reflexivity|]. cbn [negb].
    destruct (drawFrame_always_draws fuel resized d E) as (rest & Hev).
    cbv zeta in Hev. unfold bind, events_of in *.
    destruct (drawFrame fuel resized) as [[[[]|e|] w1] ev1]; simpl in Hev |- *.
    + destruct (drawGraph fuel w1) as [[r2 w2] ev2]. simpl. rewrite Hev.
      exists ((events_of (drawFrame_trace fuel d (frameIdx (st resized))
                 (drawFrame_scale (of_Z (canvas_width (els resized))) d)
                 (of_Z (canvas_width (els resized)))
                 (of_Z (canvas_height (els resized))) resized) ++ rest) ++ ev2).
      unfold events_of. cbn [app]. f_equal; now rewrite <- ?app_assoc.
    + rewrite Hev. eexists. reflexivity.
    + rewrite Hev. eexists. reflexivity.
Qed.

Lemma resize_keeps_playback_witness :
  frameIdx
    (st (world_of (resizeCanvases 100 800
                     {| st := set_isPlaying false (st (playing scenario1 2));
                        els := page400 |}))) = of_Z 2
  /\ events_of (resizeCanvases 100 800 (playing scenario1 2)) = [].
Proof.
  split.
  - destruct (resize_keeps_playback 100 800
                {| st := set_isPlaying false (st (playing scenario1 2));
                   els := page400 |}) as (E & _).
    rewrite E. reflexivity.
  - destruct (resize_keeps_playback 100 800 (playing scenario1 2))
      as (_ & H & _).
    exact (proj2 (H (or_introl eq_refl))).
Defined.

(** ** The rods and masses of the scene *)

Section Rods.

Lemma flat_map_map {A B C : Type} (f : A -> B) (g : B -> list C) (l : list A) :
  flat_map g (map f l) = flat_map (fun a => g (f a)) l.
Proof. induction l as [|a l IH]; simpl; [reflexivity | now rewrite IH]. Qed.

Lemma flat_map_single {A B : Type} (f : A -> B) (l : list A) :
  flat_map (fun a => [f a]) l = map f l.
Proof. induction l as [|a l IH]; simpl; [reflexivity | now rewrite IH]. Qed.

Lemma drawFrame_rods_run (fuel : nat) (d : dataset) (f nb : Z)
    (scale w h : number) (wd : world) :
  n d = of_Z nb ->
  (Z.to_nat nb < fuel)%nat ->
  drawFrame_rods fuel d (Some (frame d f)) scale w h wd =
    (Ok tt, wd,
     rods_events w h
       (map (fun k => body_point d scale w h (of_Z k) f) (Zrange 0 (Z.to_nat nb)))).
Proof.
  intros Hn Hfuel. unfold drawFrame_rods, rods_events. rewrite Hn.
  set (pt := fun k : Z => body_point d scale w h (of_Z k) f).
  set (body1 := fun (k : number) (_ : unit) => _).
  set (body2 := fun (k : number) (_ : unit) => _).
  assert (H1 : for_loop fuel (fun k => lt k (of_Z nb)) incr body1 (of_Z 0) tt wd =
    (Ok tt, wd,
     map (fun q => Canvas ctx (lineTo (pos_x q) (pos_y q)))
         (map pt (Zrange 0 (Z.to_nat nb))))).
  { rewrite (for_loop_range _ body1 (fun _ _ => tt)
               (fun k _ => [Canvas ctx (lineTo (pos_x (pt k)) (pos_y (pt k)))])
               wd nb) with (count := Z.to_nat nb).
    - rewrite iterate_flat_map, flat_map_single, map_map.
      destruct (fst _). reflexivity.
    - intros j. apply lt_of_Z.
    - lia.
    - exact Hfuel.
    - intros k a Hk. reflexivity. }
  assert (H2 : for_loop fuel (fun k => lt k (of_Z nb)) incr body2 (of_Z 0) tt wd =
    (Ok tt, wd,
     flat_map (fun q => circle_events ctx (pos_x q) (pos_y q) (of_Z 6) "#333")
              (map pt (Zrange 0 (Z.to_nat nb))))).
  { rewrite (for_loop_range _ body2 (fun _ _ => tt)
               (fun k _ => circle_events ctx (pos_x (pt k)) (pos_y (pt k))
                             (of_Z 6) "#333")
               wd nb) with (count := Z.to_nat nb).
    - rewrite iterate_flat_map, flat_map_map. destruct (fst _). reflexivity.
    - intros j. apply lt_of_Z.
    - lia.
    - exact Hfuel.
    - intros k a Hk. reflexivity. }
  assert (Hc : drawCircle ctx (w / of_Z 2) (h / of_Z 2) (of_Z 4) "black" wd =
    (Ok tt, wd, circle_events ctx (w / of_Z 2) (h / of_Z 2) (of_Z 4) "black"))
    by reflexivity.
  cbv beta iota delta [bind on emit]. rewrite H1.
  cbv beta iota. rewrite Hc. cbv beta iota. rewrite H2. reflexivity.
Qed.

End Rods.

(** X6. With a dataset of [nb] bodies, an in-range frame [f] and enough
    fuel, [drawFrame] returns, leaves the world alone, and draws in this
    order: the cleared canvas, the plain grid, the trace, one black line
    from the pivot through bodies [0], ..., [nb - 1] at frame [f], a disc
    of radius 4 on the pivot and a disc of radius 6 on each body. *)
Theorem drawFrame_draws_scene (fuel : nat) (w : world) (d : dataset) (f nb : Z) :
  animData (st w) = Some d ->
  frameIdx (st w) = of_Z f ->
  (0 <= f < Z.of_nat (List.length (positions d)))%Z ->
  n d = of_Z nb ->
  (Z.to_nat (Z.min f 100 + 1) < fuel)%nat ->
  (Z.to_nat nb < fuel)%nat ->
  let cw := of_Z (canvas_width (els w)) in
  let ch := of_Z (canvas_height (els w)) in
  let scale := drawFrame_scale cw d in
  let bodies :=
    map (fun k => body_point d scale cw ch (of_Z k) f) (Zrange 0 (Z.to_nat nb)) in
  drawFrame fuel w =
    (Ok tt, w,
     Canvas ctx (clearRect (of_Z 0) (of_Z 0) cw ch)
     :: plain_grid ctx cw ch
     ++ trace_events (trace_points d scale cw ch f)
     ++ rods_events cw ch bodies)
  /\ List.length bodies = Z.to_nat nb.
Proof.
  intros Hd Hf Hr Hn Hfuel Hfuel' cw ch scale bodies. split.
  - rewrite (drawFrame_run d f Hr fuel w Hd Hf Hfuel). cbv zeta.
    fold cw ch scale.
    rewrite (drawFrame_rods_run fuel d f nb scale cw ch w Hn Hfuel').
    reflexivity.
  - unfold bodies. now rewrite length_map, Zrange_length.
Qed.

Lemma drawFrame_draws_scene_witness :
  outcome_of (drawFrame 100 (playing scenario1 2)) = Ok tt.
Proof.
  destruct (drawFrame_draws_scene 100 (playing scenario1 2) scenario1 2 1
              eq_refl eq_refl) as (E & _).
  - simpl. lia.
  - reflexivity.
  - simpl. lia.
  - simpl. lia.
  - rewrite E. reflexivity.
Defined.

(** ** A frame index off the dataset *)

Section MissingFrame.

Lemma index_negative {A : Type} (arr : list A) (f : Z) :
  (f < 0)%Z -> index arr (of_Z f) = None.
Proof.
  intros Hf. unfold index, as_index, of_Z. cbv zeta. rewrite Qred_inject_Z.
  simpl. destruct (Z.leb_spec 0 f); [lia | reflexivity].
Qed.

Lemma drawFrame_missing_frame (fuel : nat) (w : world) (d : dataset) (nb : Z) :
  animData (st w) = Some d ->
  below_frames (frameIdx (st w)) ->
  n d = of_Z nb -> (1 <= nb)%Z -> (1 <= fuel)%nat ->
  let cw := of_Z (canvas_width (els w)) in
  let ch := of_Z (canvas_height (els w)) in
  drawFrame fuel w =
    (Throw undefined_property, w,
     Canvas ctx (clearRect (of_Z 0) (of_Z 0) cw ch)
     :: plain_grid ctx cw ch
     ++ trace_events []
     ++ [Canvas ctx (set_lineWidth (of_Z 3)); Canvas ctx (set_strokeStyle "black");
         Canvas ctx beginPath; Canvas ctx (moveTo (cw / of_Z 2) (ch / of_Z 2))]).
Proof.
  intros Hd Hv Hn Hnb Hfuel cw ch.
  destruct fuel as [|fuel]; [lia|].
  unfold drawFrame. rewrite bind_get_state, Hd, bind_get_page. fold cw ch.
  assert (Hidx : index (positions d) (frameIdx (st w)) = None).
  { destruct Hv as [->|(f & -> & Hf)]; [reflexivity | now apply index_negative]. }
  assert (Htrace : drawFrame_trace (S fuel) d (frameIdx (st w))
                     (drawFrame_scale cw d) cw ch w = (Ok tt, w, trace_events [])).
  { unfold drawFrame_trace, CONFIG.traceLen. cbn [for_loop].
    destruct Hv as [->|(f & -> & Hf)].
    - reflexivity.
    - rewrite sub_of_Z, max_of_Z, Z.max_l by lia. rewrite le_of_Z.
      destruct (Z.leb_spec 0 f); [lia | reflexivity]. }
  assert (Hrods : drawFrame_rods (S fuel) d None (drawFrame_scale cw d) cw ch w =
    (Throw undefined_property, w,
     [Canvas ctx (set_lineWidth (of_Z 3)); Canvas ctx (set_strokeStyle "black");
      Canvas ctx beginPath; Canvas ctx (moveTo (cw / of_Z 2) (ch / of_Z 2))])).
  { unfold drawFrame_rods. cbn [for_loop]. rewrite Hn, lt_of_Z.
    destruct (Z.ltb_spec 0 nb); [reflexivity | lia]. }
  rewrite Hidx.
  cbv beta iota delta [bind on emit]. rewrite drawGrid_plain.
  cbv beta iota. rewrite Htrace. cbv beta iota. rewrite Hrods.
  cbv beta iota. rewrite <- ?app_assoc. reflexivity.
Qed.

End MissingFrame.

(** X7. A tick that computes a frame index below the frames ([NaN] or a
    negative integer) ends the animation: with at least one body,
    [drawFrame] throws on the missing frame, so [animate] throws before
    it calls [requestAnimationFrame]; the frame index keeps the bad
    value and [animId] is not renewed. *)
Theorem tick_off_the_dataset_stops (fuel : nat) (now handle : Z) (w : world)
    (d : dataset) (nb : Z) :
  animData (st w) = Some d ->
  isPlaying (st w) = true ->
  n d = of_Z nb -> (1 <= nb)%Z -> (1 <= fuel)%nat ->
  below_frames (frame_at now (playStartTime (st w)) d) ->
  let r := animate fuel now handle w in
  outcome_of r = Throw undefined_property
  /\ ~ In RequestAnimationFrame (events_of r)
  /\ animId (st (world_of r)) = animId (st w)
  /\ frameIdx (st (world_of r)) = frame_at now (playStartTime (st w)) d.
Proof.
  intros Hd Hp Hn Hnb Hfuel Hv r. subst r.
  rewrite (animate_playing_run fuel now handle w d Hd Hp). cbv zeta.
  set (w1 := {| st := set_frameIdx _ (st w); els := els w |}).
  pose proof (drawFrame_missing_frame fuel w1 d nb Hd Hv Hn Hnb Hfuel) as Hdraw.
  cbv zeta in Hdraw.
  assert (E : (drawFrame fuel ;; drawGraph fuel) w1 =
              (Throw undefined_property, w1, events_of (drawFrame fuel w1))).
  { unfold bind. rewrite Hdraw. reflexivity. }
  rewrite E. cbn [outcome_of events_of world_of fst snd].
  repeat split; try reflexivity.
  rewrite Hdraw. cbn [snd]. unfold plain_grid, trace_events. cbn.
  intros H. repeat (destruct H as [H|H]; [discriminate H|]). exact H.
Qed.

Lemma tick_off_the_dataset_stops_witness :
  outcome_of (animate 100 30000 1 (after (load 100 (Some scenario1) 60000) world0))
  = Throw undefined_property.
Proof.
  destruct (tick_off_the_dataset_stops 100 30000 1
              (after (load 100 (Some scenario1) 60000) world0) scenario1 1
              eq_refl eq_refl eq_refl ltac:(lia) ltac:(lia))
    as (E & _).
  - right. exists (-2)%Z. split; [reflexivity | lia].
  - exact E.
Defined.

(** ** The simulation request *)

Section RunRequest.

(** The request of a run that goes ahead with all its fields. *)
Lemma run_click_request (fuel : nat) (confirmed : bool) (k : Z) (w : world)
    (fm fl fth : Z -> string) :
  n_value (els w) = of_Z k ->
  (forall i, (1 <= i <= k)%Z ->
     input_value (els w) "m" (of_Z i) = Some (fm i)
     /\ input_value (els w) "L" (of_Z i) = Some (fl i)
     /\ input_value (els w) "th" (of_Z i) = Some (fth i)) ->
  (Z.to_nat k < fuel)%nat ->
  (k <= 20)%Z \/ confirmed = true ->
  run_click fuel confirmed w =
    (Ok tt,
     {| st := set_isPlaying false (st w);
        els := set_play_textContent "Play" (set_loader_display "block" (els w)) |},
     (if (20 <? k)%Z then [Confirm (of_Z k)] else [])
     ++ [Fetch {| req_n := of_Z k;
                  masses := String.concat "," (map fm (Zrange 1 (Z.to_nat k)));
                  lengths := String.concat "," (map fl (Zrange 1 (Z.to_nat k)));
                  initial_angles :=
                    String.concat "," (map fth (Zrange 1 (Z.to_nat k)));
                  t_max := of_Z 60;
                  n_points := of_Z 8000 |}]).
Proof.
  intros Hn Hfields Hfuel Hgo.
  rewrite (run_click_run fuel confirmed w). cbv zeta. rewrite Hn.
  unfold gt. rewrite lt_of_Z.
  assert (Hgate : (20 <? k)%Z && negb confirmed = false).
  { destruct Hgo as [Hk| ->]; [| apply andb_false_r].
    destruct (Z.ltb_spec 20 k); [lia | reflexivity]. }
  rewrite Hgate.
  rewrite (getSimInputs_run fuel k (requesting w) fm fl fth Hfields Hfuel).
  reflexivity.
Qed.

End RunRequest.

(** X8. With the count field at the integer [k], a field of each kind
    for every pendulum from 1 to [k], and the confirmation (asked above
    20) not refused, a click on run pauses playback, shows the loader,
    labels the button "Play" and sends one request: [n = k], the
    masses, lengths and angles of pendulums 1 to [k] in order, joined by
    commas, [t_max = 60] and [n_points = 8000]. *)
Theorem run_click_sends_fields (fuel : nat) (confirmed : bool) (k : Z) (w : world)
    (fm fl fth : Z -> string) :
  n_value (els w) = of_Z k ->
  (forall i, (1 <= i <= k)%Z ->
     input_value (els w) "m" (of_Z i) = Some (fm i)
     /\ input_value (els w) "L" (of_Z i) = Some (fl i)
     /\ input_value (els w) "th" (of_Z i) = Some (fth i)) ->
  (Z.to_nat k < fuel)%nat ->
  (k <= 20)%Z \/ confirmed = true ->
  run_click fuel confirmed w =
    (Ok tt,
     {| st := set_isPlaying false (st w);
        els := set_play_textContent "Play" (set_loader_display "block" (els w)) |},
     (if (20 <? k)%Z then [Confirm (of_Z k)] else [])
     ++ [Fetch {| req_n := of_Z k;
                  masses := String.concat "," (map fm (Zrange 1 (Z.to_nat k)));
                  lengths := String.concat "," (map fl (Zrange 1 (Z.to_nat k)));
                  initial_angles :=
                    String.concat "," (map fth (Zrange 1 (Z.to_nat k)));
                  t_max := of_Z 60;
                  n_points := of_Z 8000 |}]).
Proof. exact (run_click_request fuel confirmed k w fm fl fth). Qed.

Lemma run_click_sends_fields_witness :
  run_click 100 false world0 =
    (Ok tt, requesting world0,
     [Fetch {| req_n := of_Z 2; masses := "1.0,1.0"; lengths := "1.0,1.0";
               initial_angles := "1.0,1.0"; t_max := of_Z 60;
               n_points := of_Z 8000 |}]).
Proof.
  apply (run_click_sends_fields 100 false 2 world0
           (fun _ => "1.0") (fun _ => "1.0") (fun _ => "1.0")).
  - reflexivity.
  - intros i Hi. repeat split.
  - simpl. lia.
  - left. lia.
Defined.

(** X9. The run listener asks for confirmation exactly when the count
    is above 20.  Refused, it returns at once: the state and the page
    are untouched and no request is sent.  An empty count field ([NaN])
    is not above 20 and is never asked about. *)
Theorem run_click_confirmation (fuel : nat) (confirmed : bool) (w : world) :
  let count := n_value (els w) in
  let r := run_click fuel confirmed w in
  (In (Confirm count) (events_of r) <-> gt count (of_Z 20) = true)
  /\ (gt count (of_Z 20) = true -> confirmed = false ->
      r = (Ok tt, w, [Confirm count]))
  /\ (count = NaN -> forall e, In e (events_of r) -> exists body, e = Fetch body).
Proof.
  intros count r. subst r. rewrite (run_click_run fuel confirmed w).
  cbv zeta. fold count. rewrite getSimInputs_silent.
  split; [| split].
  - destruct (gt count (of_Z 20)) eqn:Hg; cbn [andb].
    + split; [reflexivity|]. intros _.
      destruct (negb confirmed); [left; reflexivity|].
      destruct (outcome_of _); left; reflexivity.
    + split; [| discriminate]. cbn [andb].
      destruct (outcome_of _); cbn; intros H;
        repeat (destruct H as [H|H]; [discriminate H|]); destruct H.
  - intros -> ->. reflexivity.
  - intros Hc e. rewrite Hc. cbn [gt lt andb].
    destruct (outcome_of _) as [body| |]; cbn; intros H;
      repeat (destruct H as [H|H]; [eauto|]); destruct H.
Qed.

Lemma run_click_confirmation_witness :
  run_click 100 false
    {| st := initial_state; els := set_n_value (of_Z 21) page400 |} =
    (Ok tt, {| st := initial_state; els := set_n_value (of_Z 21) page400 |},
     [Confirm (of_Z 21)]).
Proof.
  destruct (run_click_confirmation 100 false
              {| st := initial_state; els := set_n_value (of_Z 21) page400 |})
    as (_ & H & _).
  exact (H eq_refl eq_refl).
Defined.

(** X10. With the count field empty ([parseInt] gives [NaN]) a click on
    run reads no field and still sends a request, with [n = NaN] and
    empty lists of masses, lengths and angles. *)
Theorem run_click_empty_count (fuel : nat) (confirmed : bool) (w : world) :
  n_value (els w) = NaN ->
  (1 <= fuel)%nat ->
  run_click fuel confirmed w =
    (Ok tt, requesting w,
     [Fetch {| req_n := NaN; masses := ""; lengths := ""; initial_angles := "";
               t_max := of_Z 60; n_points := of_Z 8000 |}]).
Proof.
  intros Hn Hfuel. destruct fuel as [|fuel]; [lia|].
  rewrite (run_click_run (S fuel) confirmed w). cbv zeta. rewrite Hn.
  reflexivity.
Qed.

Lemma run_click_empty_count_witness :
  outcome_of (run_click 100 false
                {| st := initial_state; els := set_n_value NaN page400 |}) = Ok tt.
Proof.
  rewrite (run_click_empty_count 100 false
             {| st := initial_state; els := set_n_value NaN page400 |}
             eq_refl ltac:(lia)).
  reflexivity.
Defined.

(** X11. If a field of a pendulum from 1 to [k] is missing, a click on
    run that goes ahead throws while gathering the inputs: playback has
    already been paused and the loader shown, no request is sent, and
    nothing hides the loader again. *)
Theorem run_click_missing_field (fuel : nat) (confirmed : bool) (k j : Z)
    (w : world) :
  n_value (els w) = of_Z k ->
  (1 <= j <= k)%Z ->
  input_value (els w) "m" (of_Z j) = None
  \/ input_value (els w) "L" (of_Z j) = None
  \/ input_value (els w) "th" (of_Z j) = None ->
  (Z.to_nat k < fuel)%nat ->
  (k <= 20)%Z \/ confirmed = true ->
  let r := run_click fuel confirmed w in
  outcome_of r = Throw undefined_property
  /\ isPlaying (st (world_of r)) = false
  /\ loader_display (els (world_of r)) = "block"
  /\ forall body, ~ In (Fetch body) (events_of r).
Proof.
  intros Hn Hj Hmiss Hfuel Hgo r. subst r.
  rewrite (run_click_run fuel confirmed w). cbv zeta. rewrite Hn.
  unfold gt. rewrite lt_of_Z.
  assert (Hgate : (20 <? k)%Z && negb confirmed = false).
  { destruct Hgo as [Hk| ->]; [| apply andb_false_r].
    destruct (Z.ltb_spec 20 k); [lia | reflexivity]. }
  rewrite Hgate, getSimInputs_silent.
  assert (Hthrow : outcome_of (getSimInputs fuel (of_Z k) (requesting w))
                   = Throw undefined_property).
  { apply (getSimInputs_missing fuel k j); assumption. }
  rewrite Hthrow. cbn [outcome_of world_of events_of fst snd].
  repeat split. intros body H. rewrite app_nil_r in H.
  destruct (20 <? k)%Z; cbn in H;
    repeat (destruct H as [H|H]; [discriminate H|]); exact H.
Qed.

Lemma run_click_missing_field_witness :
  outcome_of
    (run_click 100 false
       {| st := initial_state;
          els := set_input_value (generated_fields (of_Z 1)) page400 |})
  = Throw undefined_property.
Proof.
  assert (H1 : (1 <= 2 <= 2)%Z) by lia.
  assert (H2 : (Z.to_nat 2 < 100)%nat) by (simpl; lia).
  assert (H3 : (2 <= 20)%Z \/ false = true) by (left; lia).
  destruct (run_click_missing_field 100 false 2 2
              {| st := initial_state;
                 els := set_input_value (generated_fields (of_Z 1)) page400 |}
              eq_refl H1 (or_introl eq_refl) H2 H3) as (E & _).
  exact E.
Defined.

(** ** The generated fields *)

Section Fields.

Lemma generated_fields_of_Z (c i : Z) (prefix : string) :
  generated_fields (of_Z c) prefix (of_Z i) =
    if (1 <=? i)%Z && (i <=? c)%Z then
      if String.eqb prefix "m" then Some "1.0"
      else if String.eqb prefix "L" then Some "1.0"
      else if String.eqb prefix "th" then
        Some (if (i =? 1)%Z then "90" else if (i =? 2)%Z then "45" else "0")
      else None
    else None.
Proof.
  unfold generated_fields, default_angle. rewrite !le_of_Z, !strict_eq_of_Z.
  destruct (Z.leb_spec 1 i); cbn [andb].
  - rewrite as_index_of_Z by lia. reflexivity.
  - now destruct (as_index (of_Z i)).
Qed.

Lemma generateFields_run (w : world) :
  generateFields w =
    (Ok tt,
     {| st := st w;
        els := set_input_value
                 (generated_fields
                    (if truthy (n_value (els w)) then n_value (els w) else of_Z 2))
                 (els w) |}, []).
Proof. reflexivity. Qed.

Lemma truthy_of_Z (k : Z) : truthy (of_Z k) = negb (k =? 0)%Z.
Proof. reflexivity. Qed.

Lemma n_input_run (k : Z) (w : world) :
  n_value (els w) = of_Z k ->
  let k' := Z.max 1 (Z.min 150 k) in
  n_input w =
    (Ok tt,
     {| st := st w;
        els := set_input_value (generated_fields (of_Z k'))
                 (set_n_value (of_Z k') (els w)) |},
     if (150 <? k)%Z
     then [Alert "Maximum pendulums limited to 150 for performance."] else []).
Proof.
  intros Hn k'. unfold n_input. rewrite bind_get_page, Hn.
  unfold gt. rewrite !lt_of_Z.
  destruct (Z.ltb_spec k 1).
  - rewrite bind_set_page, generateFields_run. cbn [els n_value set_n_value st].
    replace k' with 1%Z by (unfold k'; lia).
    destruct (Z.ltb_spec 150 k); [lia|]. reflexivity.
  - destruct (Z.ltb_spec 150 k).
    + unfold bind at 1. rewrite bind_set_page. unfold emit at 1.
      rewrite generateFields_run. cbn [els n_value set_n_value st app].
      replace k' with 150%Z by (unfold k'; lia). reflexivity.
    + rewrite bind_ret, generateFields_run. rewrite Hn, truthy_of_Z.
      replace k' with k by (unfold k'; lia).
      destruct (Z.eqb_spec k 0); [lia|]. cbn [negb].
      destruct w as [s [cw ch gw gh pt ld nv iv]]. cbn in Hn |- *. now subst nv.
Qed.

End Fields.

(** X12. [generateFields] replaces the fields of the form by those of
    pendulums 1 to [c], where [c] is the count, or 2 when the count is 0
    or missing ([NaN]): whatever the fields held before, each mass and
    length is "1.0" and the angles are "90", "45" and then "0"; there is
    no field outside 1..[c].  Nothing else changes. *)
Theorem generateFields_defaults (w : world) (c : Z) :
  (n_value (els w) = of_Z c /\ c <> 0%Z)
  \/ (c = 2%Z /\ (n_value (els w) = of_Z 0 \/ n_value (els w) = NaN)) ->
  let r := generateFields w in
  outcome_of r = Ok tt
  /\ events_of r = []
  /\ st (world_of r) = st w
  /\ n_value (els (world_of r)) = n_value (els w)
  /\ forall i : Z,
       let present := ((1 <=? i)%Z && (i <=? c)%Z)%bool in
       input_value (els (world_of r)) "m" (of_Z i) =
         (if present then Some "1.0" else None)
       /\ input_value (els (world_of r)) "L" (of_Z i) =
         (if present then Some "1.0" else None)
       /\ input_value (els (world_of r)) "th" (of_Z i) =
         (if present
          then Some (if (i =? 1)%Z then "90" else if (i =? 2)%Z then "45" else "0")
          else None).
Proof.
  intros Hc r. subst r. rewrite generateFields_run.
  cbn [outcome_of events_of world_of fst snd st els n_value input_value
       set_input_value].
  repeat split.
  all: assert (Hcount : (if truthy (n_value (els w)) then n_value (els w)
                         else of_Z 2) = of_Z c)
    by (destruct Hc as [[Hn Hne]|[-> [Hn|Hn]]]; rewrite Hn; try reflexivity;
        rewrite truthy_of_Z; destruct (Z.eqb_spec c 0); [lia | reflexivity]).
  all: rewrite Hcount, generated_fields_of_Z; reflexivity.
Qed.

Lemma generateFields_defaults_witness :
  input_value (els (world_of (generateFields world0))) "th" (of_Z 2) = Some "45"
  /\ input_value
       (els (world_of (generateFields
                         {| st := initial_state;
                            els := set_n_value NaN page400 |}))) "m" (of_Z 3)
     = None.
Proof.
  split.
  - assert (Hc : (n_value (els world0) = of_Z 2 /\ 2%Z <> 0%Z)
                 \/ (2%Z = 2%Z /\ (n_value (els world0) = of_Z 0
                                   \/ n_value (els world0) = NaN))).
    { left. split; [reflexivity | discriminate]. }
    destruct (generateFields_defaults world0 2 Hc) as (_ & _ & _ & _ & H).
    destruct (H 2%Z) as (_ & _ & E). exact E.
  - destruct (generateFields_defaults
                {| st := initial_state; els := set_n_value NaN page400 |} 2
                (or_intror (conj eq_refl (or_intror eq_refl))))
      as (_ & _ & _ & _ & H).
    destruct (H 3%Z) as (E & _). exact E.
Defined.

(** X13. The input listener of the count field clamps an integer count
    [k] to [max(1, min(150, k))], alerts exactly when [k > 150], and
    regenerates the fields for the clamped count; the playback state is
    untouched. *)
Theorem n_input_clamps (k : Z) (w : world) :
  n_value (els w) = of_Z k ->
  let k' := Z.max 1 (Z.min 150 k) in
  let r := n_input w in
  outcome_of r = Ok tt
  /\ n_value (els (world_of r)) = of_Z k'
  /\ (1 <= k' <= 150)%Z
  /\ st (world_of r) = st w
  /\ events_of r =
     (if (150 <? k)%Z
      then [Alert "Maximum pendulums limited to 150 for performance."] else [])
  /\ input_value (els (world_of r)) = generated_fields (of_Z k').
Proof.
  intros Hn k' r. subst r. rewrite (n_input_run k w Hn). fold k'.
  cbn. repeat split; unfold k'; lia.
Qed.

Lemma n_input_clamps_witness :
  n_value (els (world_of (n_input {| st := initial_state;
                                      els := set_n_value (of_Z 500) page400 |})))
  = of_Z 150.
Proof.
  destruct (n_input_clamps 500
              {| st := initial_state; els := set_n_value (of_Z 500) page400 |}
              eq_refl) as (_ & E & _).
  exact E.
Defined.

(** X14. After the input listener has handled an integer count, a
    confirmed click on run never misses a field: it sends one request
    with [1 <= n <= 150], [n] masses "1.0", [n] lengths "1.0" and the
    [n] default angles. *)
Theorem n_input_then_run (fuel : nat) (k : Z) (w : world) :
  n_value (els w) = of_Z k ->
  (150 < fuel)%nat ->
  let k' := Z.max 1 (Z.min 150 k) in
  let edited := world_of (n_input w) in
  run_click fuel true edited =
    (Ok tt, requesting edited,
     (if (20 <? k')%Z then [Confirm (of_Z k')] else [])
     ++ [Fetch {| req_n := of_Z k';
                  masses :=
                    String.concat "," (map (fun _ => "1.0") (Zrange 1 (Z.to_nat k')));
                  lengths :=
                    String.concat "," (map (fun _ => "1.0") (Zrange 1 (Z.to_nat k')));
                  initial_angles :=
                    String.concat ","
                      (map (fun i => if (i =? 1)%Z then "90"
                                     else if (i =? 2)%Z then "45" else "0")
                           (Zrange 1 (Z.to_nat k')));
                  t_max := of_Z 60;
                  n_points := of_Z 8000 |}]).
Proof.
  intros Hn Hfuel k' edited.
  assert (He : edited =
    {| st := st w;
       els := set_input_value (generated_fields (of_Z k'))
                (set_n_value (of_Z k') (els w)) |}).
  { unfold edited. now rewrite (n_input_run k w Hn). }
  apply run_click_request.
  - rewrite He. reflexivity.
  - intros i Hi. rewrite He. cbn [els input_value set_input_value].
    rewrite !generated_fields_of_Z.
    destruct (Z.leb_spec 1 i); [|lia]. destruct (Z.leb_spec i k'); [|lia].
    repeat split.
  - unfold k'. lia.
  - right. reflexivity.
Qed.

Lemma n_input_then_run_witness :
  outcome_of
    (run_click 200 true
       (world_of (n_input {| st := initial_state;
                             els := set_n_value (of_Z 0) page400 |}))) = Ok tt.
Proof.
  assert (Hf : (150 < 200)%nat) by lia.
  rewrite (n_input_then_run 200 0
             {| st := initial_state; els := set_n_value (of_Z 0) page400 |}
             eq_refl Hf).
  reflexivity.
Defined.

(** ** The label of the play/pause button *)

Section Label.

Lemma animate_world (fuel : nat) (now handle : Z) (w : world) :
  els (world_of (animate fuel now handle w)) = els w
  /\ isPlaying (st (world_of (animate fuel now handle w))) = isPlaying (st w).
Proof.
  destruct (isPlaying (st w)) eqn:Hp.
  - destruct (animData (st w)) as [d|] eqn:Hd.
    + rewrite (animate_playing_run fuel now handle w d Hd Hp). cbv zeta.
      destruct (outcome_of _); cbn; auto.
    + unfold animate. rewrite bind_get_state, Hp, Hd. cbn. auto.
  - rewrite (animate_paused fuel now handle w Hp). cbn. auto.
Qed.

Lemma run_click_world (fuel : nat) (confirmed : bool) (w : world) :
  world_of (run_click fuel confirmed w) = w
  \/ world_of (run_click fuel confirmed w) = requesting w.
Proof.
  rewrite (run_click_run fuel confirmed w). cbv zeta.
  destruct (gt _ _ && negb confirmed); [left; reflexivity|].
  destruct (outcome_of _); right; reflexivity.
Qed.

Lemma click_run_world (fuel : nat) (confirmed : bool) (w : world) :
  world_of (click_run fuel confirmed w) = w
  \/ world_of (click_run fuel confirmed w) = requesting w.
Proof.
  rewrite (click_run_run fuel confirmed w). cbv zeta.
  destruct (gt _ _ && negb confirmed); [left; reflexivity|].
  destruct (outcome_of _); right; reflexivity.
Qed.

Lemma run_settled_world (fuel : nat) (r : response) (now : Z) (w : world) :
  (st (world_of (run_settled fuel r now w)) = st w
   /\ play_textContent (els (world_of (run_settled fuel r now w)))
      = play_textContent (els w))
  \/ (isPlaying (st (world_of (run_settled fuel r now w))) = true
      /\ play_textContent (els (world_of (run_settled fuel r now w))) = "Pause").
Proof.
  destruct (failure_message r) as [msg|] eqn:Hf.
  - left. rewrite (run_settled_failure fuel r now w msg Hf). cbn. auto.
  - right. destruct r as [m|m|m|[data|]]; try discriminate Hf.
    cbn in Hf. destruct (success data) eqn:Hs; [|discriminate Hf].
    pose proof (load_state fuel (animation_data data) now w) as Hl.
    unfold after in Hl.
    unfold run_settled, finally, catch. rewrite bind_ret, Hs. cbn [negb].
    unfold world_of in *.
    destruct (load fuel (animation_data data) now w) as [[[[]|e|] w'] ev];
      cbn in Hl |- *; subst w'; cbn; auto.
Qed.

Lemma play_click_world (fuel : nat) (now : Z) (confirmed : bool) (w : world)
    (d : dataset) :
  animData (st w) = Some d ->
  isPlaying (st (world_of (play_click fuel now confirmed w)))
  = negb (isPlaying (st w))
  /\ play_textContent (els (world_of (play_click fuel now confirmed w)))
     = (if negb (isPlaying (st w)) then "Pause" else "Play").
Proof.
  intros Hd. unfold play_click. rewrite bind_get_state, Hd.
  destruct (isPlaying (st w)) eqn:Hp; cbn [negb].
  - rewrite bind_ret, bind_get_state, bind_set_state, bind_get_state.
    cbn. rewrite Hp. auto.
  - rewrite bind_set_state, bind_get_state, bind_set_state, bind_get_state.
    cbn. rewrite Hp. auto.
Qed.

Lemma resizeCanvases_world (fuel : nat) (size : Z) (w : world) :
  world_of (resizeCanvases fuel size w)
  = {| st := st w; els := set_sizes size (els w) |}.
Proof.
  unfold resizeCanvases. rewrite bind_set_page, bind_get_state. cbn [st].
  destruct (isPlaying (st w)), (animData (st w)); try reflexivity.
  apply (read_only_redraw fuel).
Qed.

Lemma n_input_world (w : world) :
  st (world_of (n_input w)) = st w
  /\ play_textContent (els (world_of (n_input w))) = play_textContent (els w).
Proof.
  unfold n_input. rewrite bind_get_page.
  destruct (lt (n_value (els w)) (of_Z 1)).
  - rewrite bind_set_page, generateFields_run. cbn. auto.
  - destruct (gt (n_value (els w)) (of_Z 150)).
    + unfold bind at 1. rewrite bind_set_page. unfold emit at 1.
      rewrite generateFields_run. cbn. auto.
    + rewrite bind_ret, generateFields_run. cbn. auto.
Qed.

End Label.

(** X15. Every listener keeps the label of the play/pause button in
    step with the play flag: if the label is "Pause" while playing and
    "Play" otherwise before a tick, a click on run, play/pause or reset,
    the settling of a request, a resize or an edit of the count, it is
    so afterwards, whether the listener returns or throws. *)
Theorem label_follows_play_flag (fuel : nat) (l : listener) (w : world) :
  label_matches w ->
  label_matches (world_of (listen fuel l w)).
Proof.
  unfold label_matches. intros H.
  destruct l as [now handle|confirmed|r now|now confirmed|now|size| |]; cbn [listen].
  - destruct (animate_world fuel now handle w) as [-> ->]. exact H.
  - destruct (run_click_world fuel confirmed w) as [-> | ->]; [exact H | reflexivity].
  - destruct (run_settled_world fuel r now w) as [[-> ->]|[-> ->]];
      [exact H | reflexivity].
  - destruct (animData (st w)) as [d|] eqn:Hd.
    + destruct (play_click_world fuel now confirmed w d Hd) as [-> ->].
      reflexivity.
    + rewrite (play_click_without_dataset fuel now confirmed w Hd).
      destruct (click_run_world fuel confirmed w) as [-> | ->];
        [exact H | reflexivity].
  - change (world_of (reset_click fuel now w)) with (after (reset_click fuel now) w).
    rewrite reset_click_world. cbn [st els].
    destruct (isPlaying (st w)) eqn:Hp; cbn; rewrite ?Hp; exact H.
  - rewrite resizeCanvases_world. exact H.
  - destruct (n_input_world w) as [-> ->]. exact H.
  - rewrite generateFields_run. exact H.
Qed.

Lemma label_follows_play_flag_witness :
  label_matches (world_of (listen 100 (OnPlayClick 45000 true) (playing scenario1 2))).
Proof.
  apply (label_follows_play_flag 100 (OnPlayClick 45000 true) (playing scenario1 2)).
  reflexivity.
Defined.

(** ** A negative limit, in general *)

Section NegativeLimit.

Lemma trunc_nonpos (q : Q) : (q <= 0)%Q -> (trunc q <= 0)%Z.
Proof.
  intros Hq. unfold trunc. destruct q as [a b]. cbn [Qnum Qden].
  unfold Qle in Hq. cbn in Hq.
  assert (Ha : (a <= 0)%Z) by lia.
  replace a with (- - a)%Z by lia.
  rewrite Z.quot_opp_l by lia.
  pose proof (Z.quot_pos (- a) (Z.pos b) ltac:(lia) ltac:(lia)). lia.
Qed.

(** The remainder of a positive number by a negative one is not above
    the number. *)
Lemma rem_by_negative (p s : Q) :
  (0 <= p)%Q -> (s < 0)%Q ->
  exists x0, Fin p mod Fin s = Fin x0 /\ (x0 <= p)%Q.
Proof.
  intros Hp Hs.
  rewrite rem_fin; [| lra | exact Hp]. eexists. split; [reflexivity|].
  rewrite Qred_correct.
  assert (Hq : (p / s <= 0)%Q).
  { assert (H0 : (0 <= p / - s)%Q).
    { apply Qle_shift_div_l; [lra|]. lra. }
    setoid_replace (p / s)%Q with (- (p / - s))%Q; [lra|].
    field. lra. }
  pose proof (trunc_nonpos _ Hq) as Ht.
  assert (Ht' : (inject_Z (trunc (p / s)) <= 0)%Q)
    by (rewrite (Zle_Qle _ 0) in Ht; exact Ht).
  assert (0 <= s * inject_Z (trunc (p / s)))%Q.
  { setoid_replace (s * inject_Z (trunc (p / s)))%Q
      with ((- s) * (- inject_Z (trunc (p / s))))%Q by ring.
    apply Qmult_le_0_compat; lra. }
  lra.
Qed.

End NegativeLimit.

Section NegativeScale.

Lemma detailed_grid_diverges (fuel : nat) (c : context) (w h : Z) (sc : Q)
    (wd : world) :
  (0 < w)%Z -> (sc < 0)%Q ->
  outcome_of (drawGrid fuel c (of_Z w) (of_Z h) (Fin sc) true wd) = Timeout.
Proof.
  intros Hw Hsc.
  assert (Hstep : exists s, Fin sc / of_Z 5 = Fin s /\ (s < 0)%Q).
  { unfold of_Z. rewrite div_fin; [| discriminate | left; discriminate].
    eexists. split; [reflexivity|]. rewrite Qred_correct.
    apply Qlt_shift_div_r; [reflexivity | lra]. }
  destruct Hstep as (s & Hstep & Hs).
  assert (Hox : exists p, of_Z w / of_Z 2 = Fin p /\ (0 <= p)%Q /\ (p < inject_Z w)%Q).
  { destruct (half_fin w) as (r & -> & E). exists r. split; [reflexivity|].
    rewrite E.
    assert (0 < inject_Z w)%Q by (rewrite <- (Zlt_Qlt 0); lia).
    split; [apply Qle_shift_div_l | apply Qlt_shift_div_r]; lra. }
  destruct Hox as (p & Hox & Hp0 & Hp1).
  destruct (rem_by_negative p s Hp0 Hs) as (x0 & Hx0 & Hle).
  set (bodyX := fun (x : number) (_ : unit) =>
                  on c (moveTo x (of_Z 0)) ;; on c (lineTo x (of_Z h))).
  pose proof (descending_loop_diverges bodyX s (inject_Z w) Hs
                ltac:(intros; eexists; eexists; reflexivity)
                fuel x0 tt wd ltac:(lra)) as Hloop.
  unfold drawGrid. rewrite Hstep, Hox, Hx0.
  assert (Ht : truthy (Fin sc) = true).
  { unfold truthy, is_zero. unfold Qlt in Hsc. cbn in Hsc.
    destruct (Z.eqb_spec (Qnum sc) 0); [lia | reflexivity]. }
  rewrite Ht. cbn [andb]. fold bodyX.
  change (of_Z w) with (Fin (inject_Z w)) in *.
  unfold outcome_of in *.
  cbv beta iota delta [bind on emit].
  destruct (for_loop fuel _ _ bodyX (Fin x0) tt wd) as [[r w'] ev].
  cbn in Hloop. subst r. reflexivity.
Qed.

End NegativeScale.

(** X16. With a negative limit and a plot of positive size, [drawGraph]
    never returns: the scale is negative, the minor grid steps away
    from the right edge, and no amount of fuel completes the loop. *)
Theorem negative_limit_hangs (fuel : nat) (w : world) (d : dataset) (l : Q) :
  animData (st w) = Some d ->
  limit d = Fin l -> (l < 0)%Q ->
  (0 < graph_width (els w))%Z -> (0 < graph_height (els w))%Z ->
  outcome_of (drawGraph fuel w) = Timeout.
Proof.
  intros Hd Hl Hneg Hw Hh.
  assert (Hscale : exists sc,
            drawGraph_scale (of_Z (graph_width (els w)))
              (of_Z (graph_height (els w))) d = Fin sc /\ (sc < 0)%Q).
  { unfold drawGraph_scale. rewrite min_of_Z, Hl.
    destruct (half_positive (Z.min (graph_width (els w)) (graph_height (els w))))
      as (p & -> & Hp); [lia|].
    rewrite div_fin; [| lra | right; lra]. eexists. split; [reflexivity|].
    rewrite Qred_correct.
    setoid_replace (p / l)%Q with (- (p / - l))%Q by (field; lra).
    assert (0 < p / - l)%Q by (apply Qlt_shift_div_l; lra). lra. }
  destruct Hscale as (sc & Hscale & Hsc).
  pose proof (detailed_grid_diverges fuel gctx (graph_width (els w))
                (graph_height (els w)) sc w Hw Hsc) as Hgrid.
  unfold drawGraph. rewrite bind_get_state, Hd, bind_get_page. cbv zeta.
  rewrite Hscale. unfold bind at 1. unfold outcome_of in *.
  destruct (drawGrid fuel gctx _ _ (Fin sc) true w) as [[r w'] ev].
  cbn in Hgrid. subst r. reflexivity.
Qed.

Lemma negative_limit_hangs_witness :
  outcome_of (drawGraph 5000 (playing negative_limit 2)) = Timeout.
Proof.
  apply (negative_limit_hangs 5000 (playing negative_limit 2) negative_limit
           (inject_Z (-2)) eq_refl eq_refl); reflexivity.
Defined.

(** ** What the renderers emit *)

Section EmitsOnly.

Variable P : event -> Prop.

Lemma emits_only_ret {A : Type} (a : A) : emits_only P (ret a).
Proof. intros w. constructor. Qed.

Lemma emits_only_throw {A : Type} (e : exn) : emits_only P (@throw A e).
Proof. intros w. constructor. Qed.

Lemma emits_only_timeout {A : Type} : emits_only P (@timeout A).
Proof. intros w. constructor. Qed.

Lemma emits_only_get_state : emits_only P get_state.
Proof. intros w. constructor. Qed.

Lemma emits_only_get_page : emits_only P get_page.
Proof. intros w. constructor. Qed.

Lemma emits_only_emit (e : event) : P e -> emits_only P (emit e).
Proof. intros H w. repeat constructor. exact H. Qed.

Lemma emits_only_bind {A B : Type} (m : M A) (k : A -> M B) :
  emits_only P m -> (forall a, emits_only P (k a)) -> emits_only P (bind m k).
Proof.
  intros Hm Hk w. unfold bind, events_of.
  specialize (Hm w). unfold events_of in Hm.
  destruct (m w) as [[[a|e|] w1] ev1]; cbn in *; try assumption.
  specialize (Hk a w1). unfold events_of in Hk.
  destruct (k a w1) as [[r w2] ev2]. cbn in *.
  apply Forall_app. split; assumption.
Qed.

Lemma emits_only_for_loop {A : Type} (fuel : nat) cond next
    (body : number -> A -> M A) :
  (forall j acc, emits_only P (body j acc)) ->
  forall j acc, emits_only P (for_loop fuel cond next body j acc).
Proof.
  intros Hb. induction fuel as [|fuel IH]; intros j acc; cbn [for_loop].
  - apply emits_only_timeout.
  - destruct (cond j).
    + apply emits_only_bind; [apply Hb | intros a; apply IH].
    + apply emits_only_ret.
Qed.

End EmitsOnly.

Lemma emits_only_on (c : context) (o : canvas_op) :
  emits_only (on_context c) (on c o).
Proof. apply emits_only_emit. exists o. reflexivity. Qed.

Create HintDb eo.

#[local] Hint Resolve emits_only_ret emits_only_throw emits_only_timeout
  emits_only_get_state emits_only_get_page emits_only_on : eo.

Ltac emits_only_step :=
  match goal with
  | |- emits_only _ (bind _ _) => apply emits_only_bind; [| intro]
  | |- emits_only _ (for_loop _ _ _ _ _ _) => apply emits_only_for_loop; intros ? ?
  | |- emits_only _ (if ?b then _ else _) => destruct b
  | |- emits_only _ (match ?o with Some _ => _ | None => _ end) => destruct o
  | |- emits_only _ _ => solve [auto with eo]
  | |- emits_only _ _ => progress cbv zeta
  end.

Ltac emits_only_tac := repeat emits_only_step.

Lemma emits_only_drawGrid fuel c w h scale detailed :
  emits_only (on_context c) (drawGrid fuel c w h scale detailed).
Proof. unfold drawGrid. emits_only_tac. Qed.

Lemma emits_only_drawCircle c cx cy r color :
  emits_only (on_context c) (drawCircle c cx cy r color).
Proof. unfold drawCircle. emits_only_tac. Qed.

#[local] Hint Resolve emits_only_drawGrid emits_only_drawCircle : eo.

Lemma emits_only_drawFrame fuel : emits_only (on_context ctx) (drawFrame fuel).
Proof.
  unfold drawFrame, drawFrame_trace, drawFrame_rods. emits_only_tac.
Qed.

Lemma emits_only_drawGraph fuel : emits_only (on_context gctx) (drawGraph fuel).
Proof.
  unfold drawGraph, drawGraph_path. emits_only_tac.
Qed.

(** X19. The renderers only draw: whatever the state, the page and the
    fuel, and whether they return, throw or run out of fuel, [drawFrame]
    leaves the world as it is and emits nothing but calls on the scene
    context, and [drawGraph] leaves the world as it is and emits
    nothing but calls on the plot context; neither alerts, fetches,
    asks, nor schedules a frame. *)
Theorem renderers_only_draw (fuel : nat) (w : world) :
  world_of (drawFrame fuel w) = w
  /\ Forall (on_context ctx) (events_of (drawFrame fuel w))
  /\ world_of (drawGraph fuel w) = w
  /\ Forall (on_context gctx) (events_of (drawGraph fuel w)).
Proof.
  repeat split.
  - apply read_only_drawFrame.
  - apply emits_only_drawFrame.
  - apply read_only_drawGraph.
  - apply emits_only_drawGraph.
Qed.

(** ** The trajectories under a negative limit *)

Section NoPath.

(** When the grid of [drawGraph] does not return, [drawGraph] has done
    what the grid has done, and nothing else. *)
Lemma drawGraph_stuck_in_grid (fuel : nat) (w : world) (d : dataset) :
  animData (st w) = Some d ->
  let gw := of_Z (graph_width (els w)) in
  let gh := of_Z (graph_height (els w)) in
  let grid := drawGrid fuel gctx gw gh (drawGraph_scale gw gh d) true w in
  outcome_of grid = Timeout ->
  events_of (drawGraph fuel w) = events_of grid.
Proof.
  intros Hd gw gh grid Hout. unfold drawGraph.
  rewrite bind_get_state, Hd, bind_get_page. fold gw gh.
  unfold bind at 1. fold grid. unfold outcome_of, events_of in *.
  destruct grid as [[r w'] ev]. cbn in Hout. subst r. reflexivity.
Qed.

(** While the minor grid of a negative scale loops, nothing is stroked. *)
Lemma detailed_grid_diverges_unstroked (fuel : nat) (c : context) (w h : Z)
    (sc : Q) (wd : world) :
  (sc < 0)%Q ->
  outcome_of (drawGrid fuel c (of_Z w) (of_Z h) (Fin sc) true wd) = Timeout ->
  ~ In (Canvas c stroke)
       (events_of (drawGrid fuel c (of_Z w) (of_Z h) (Fin sc) true wd)).
Proof.
  intros Hsc. unfold drawGrid.
  assert (Ht : truthy (Fin sc) = true).
  { unfold truthy, is_zero. unfold Qlt in Hsc. cbn in Hsc.
    destruct (Z.eqb_spec (Qnum sc) 0); [lia | reflexivity]. }
  rewrite Ht. cbn [andb].
  set (bodyX := fun (x : number) (_ : unit) =>
                  on c (moveTo x (of_Z 0)) ;; on c (lineTo x (of_Z h))).
  set (bodyY := fun (y : number) (_ : unit) =>
                  on c (moveTo (of_Z 0) y) ;; on c (lineTo (of_Z w) y)).
  set (loopX := for_loop fuel _ _ bodyX _ tt).
  set (loopY := for_loop fuel _ _ bodyY _ tt).
  assert (HX : emits_only (fun e => e <> Canvas c stroke) loopX).
  { apply emits_only_for_loop. intros x a. unfold bodyX.
    apply emits_only_bind; [| intros _]; apply emits_only_emit; discriminate. }
  assert (HY : emits_only (fun e => e <> Canvas c stroke) loopY).
  { apply emits_only_for_loop. intros y a. unfold bodyY.
    apply emits_only_bind; [| intros _]; apply emits_only_emit; discriminate. }
  specialize (HX wd). unfold events_of, outcome_of in *.
  cbv beta iota delta [bind on emit].
  destruct (loopX wd) as [[[[]|e|] w1] evx]; cbn.
  - specialize (HY w1). unfold events_of in HY.
    destruct (loopY w1) as [[[[]|e|] w2] evy]; cbn; try discriminate.
    intros _ H.
    repeat (destruct H as [H|H]; [discriminate H|]).
    apply in_app_or in H. destruct H as [H|H].
    + rewrite Forall_forall in HX. exact (HX _ H eq_refl).
    + rewrite ?app_nil_r in H. rewrite Forall_forall in HY. exact (HY _ H eq_refl).
  - discriminate.
  - intros _ H.
    repeat (destruct H as [H|H]; [discriminate H|]).
    rewrite Forall_forall in HX. exact (HX _ H eq_refl).
Qed.

End NoPath.


(** ** A successful run *)

Section Success.

(** With a dataset of the data model, both renderers return at frame 0
    when given enough fuel. *)
Lemma redraw_first_frame (w : world) (d : dataset) (nb : Z) (l : Q) :
  animData (st w) = Some d ->
  frameIdx (st w) = of_Z 0 ->
  positions d <> [] ->
  n d = of_Z nb ->
  limit d = Fin l -> (0 < l)%Q ->
  (0 <= graph_width (els w))%Z -> (0 <= graph_height (els w))%Z ->
  exists (fuel0 : nat) (ev : list event), forall fuel, (fuel0 <= fuel)%nat ->
    (drawFrame fuel ;; drawGraph fuel) w = (Ok tt, w, ev).
Proof.
  intros Hd Hf Hne Hn Hl Hpos Hw Hh.
  assert (Hr : (0 <= 0 < Z.of_nat (List.length (positions d)))%Z).
  { apply nonempty_length in Hne. lia. }
  destruct (graph_grid_completes w d l Hl Hpos Hw Hh) as (fuel0 & grid & Hgrid).
  assert (HF : exists evF, forall fuel, (S (S (Z.to_nat nb)) <= fuel)%nat ->
                 drawFrame fuel w = (Ok tt, w, evF)).
  { eexists. intros fuel Hfuel.
    rewrite (drawFrame_run d 0 Hr fuel w Hd Hf) by (unfold trace_count; simpl; lia).
    cbv zeta.
    rewrite (drawFrame_rods_run fuel d 0 nb _ _ _ w Hn) by lia.
    reflexivity. }
  assert (HG : exists evG, forall fuel,
                 (Nat.max fuel0 (S (S (Z.to_nat nb))) <= fuel)%nat ->
                 drawGraph fuel w = (Ok tt, w, evG)).
  { eexists. intros fuel Hfuel.
    rewrite (drawGraph_run d 0 Hr fuel nb w Hd Hf Hn) by
      (try (simpl; lia); try lia; cbv zeta; rewrite Hgrid by lia; reflexivity).
    cbv zeta. rewrite Hgrid by lia. reflexivity. }
  destruct HF as (evF & HF). destruct HG as (evG & HG).
  exists (Nat.max fuel0 (S (S (Z.to_nat nb)))), (evF ++ evG). intros fuel Hfuel.
  unfold bind. rewrite (HF fuel) by lia. rewrite (HG fuel Hfuel). reflexivity.
Qed.

End Success.



(** ** Start-up *)

Section Init.

Lemma init_run (fuel : nat) (size now handle : Z) (p : page) :
  init fuel size now handle {| st := initial_state; els := p |} =
    (Ok tt,
     {| st := set_animId (Some handle) initial_state;
        els := set_input_value
                 (generated_fields
                    (if truthy (n_value p) then n_value p else of_Z 2))
                 (set_sizes size p) |},
     [RequestAnimationFrame]).
Proof. reflexivity. Qed.

End Init.

(** X21. Start-up leaves the script idle and ready: from the initial
    state the last three lines of the script size the canvases, create
    the fields, draw nothing and request the first animation frame; a
    confirmed click on run then finds every field it reads, whatever
    integer the count field holds, and sends one request with the
    default values of pendulums 1 to [k]. *)
Theorem init_then_run (fuel : nat) (size now handle k : Z) (p : page) :
  n_value p = of_Z k ->
  (Z.to_nat k < fuel)%nat ->
  let started := world_of (init fuel size now handle
                             {| st := initial_state; els := p |}) in
  events_of (init fuel size now handle {| st := initial_state; els := p |})
  = [RequestAnimationFrame]
  /\ animData (st started) = None
  /\ isPlaying (st started) = false
  /\ canvas_width (els started) = size /\ canvas_height (els started) = size
  /\ graph_width (els started) = size /\ graph_height (els started) = size
  /\ run_click fuel true started =
     (Ok tt, requesting started,
      (if (20 <? k)%Z then [Confirm (of_Z k)] else [])
      ++ [Fetch {| req_n := of_Z k;
                   masses :=
                     String.concat "," (map (fun _ => "1.0") (Zrange 1 (Z.to_nat k)));
                   lengths :=
                     String.concat "," (map (fun _ => "1.0") (Zrange 1 (Z.to_nat k)));
                   initial_angles :=
                     String.concat ","
                       (map (fun i => if (i =? 1)%Z then "90"
                                      else if (i =? 2)%Z then "45" else "0")
                            (Zrange 1 (Z.to_nat k)));
                   t_max := of_Z 60;
                   n_points := of_Z 8000 |}]).
Proof.
  intros Hn Hfuel started. unfold started. rewrite init_run.
  cbn [events_of world_of fst snd st els animData isPlaying set_animId
       initial_state canvas_width canvas_height graph_width graph_height
       set_input_value set_sizes].
  repeat split.
  apply run_click_request.
  - cbn. exact Hn.
  - intros i Hi. cbn [els input_value set_input_value].
    rewrite Hn, truthy_of_Z.
    destruct (Z.eqb_spec k 0); [lia|]. cbn [negb].
    rewrite !generated_fields_of_Z.
    destruct (Z.leb_spec 1 i); [|lia]. destruct (Z.leb_spec i k); [|lia].
    repeat split.
  - exact Hfuel.
  - right. reflexivity.
Qed.

Lemma init_then_run_witness :
  outcome_of
    (run_click 100 true
       (world_of (init 100 400 0 1 {| st := initial_state; els := page400 |})))
  = Ok tt.
Proof.
  assert (Hf : (Z.to_nat 2 < 100)%nat) by (simpl; lia).
  destruct (init_then_run 100 400 0 1 2 page400 eq_refl Hf)
    as (_ & _ & _ & _ & _ & _ & _ & E).
  rewrite E. reflexivity.
Defined.
